(** * The reflection compiler of @deepkit/type: packing, the compiler
      program, the type walker and the source-file transformer.

    A shallow embedding of [packages/type/src/reflection/compiler.ts].
    Numbers are [Z]; JavaScript strings are sequences of UTF-16 code units;
    mutable objects are threaded through explicit state; [throw] is an
    outcome of its own. *)

From Stdlib Require Import ZArith List String Ascii Lia Bool.
From stdpp Require Import base option list gmap strings.

Import ListNotations.
Set Warnings "-register-all".
Local Open Scope Z_scope.
Local Open Scope list_scope.

(** ** JavaScript strings *)

(** A JavaScript string is a sequence of 16-bit code units. *)
Definition JsString : Type := list Z.

(** [ToUint16], the conversion [String.fromCharCode] applies to its argument. *)
Definition ToUint16 (v : Z) : Z := v mod 65536.

(** [String.fromCharCode(v)]: the one-unit string of [ToUint16 v]. *)
Definition fromCharCode (v : Z) : JsString := [ToUint16 v].

(** [ops.map(f).join('')] of one-unit strings. *)
Definition join (parts : list JsString) : JsString := List.concat parts.

(** The code units of a name written in the source text. *)
Definition codeUnits (s : string) : JsString :=
  List.map (fun c => Z.of_N (N_of_ascii c)) (list_ascii_of_string s).

(** ** The instruction set *)

Inductive ReflectionOp : Type :=
| op_never | op_any | op_void
| op_string | op_number | op_numberBrand | op_boolean | op_bigint
| op_null | op_undefined
| op_literal | op_function | op_method | op_methodSignature
| op_parameter | op_property | op_propertySignature | op_constructor
| op_class | op_classReference
| op_optional | op_readonly
| op_public | op_private | op_protected | op_abstract
| op_defaultValue | op_description
| op_enum | op_set | op_map | op_constEnum
| op_array | op_union | op_intersection
| op_indexSignature | op_objectLiteral | op_mappedType | op_in
| op_frame | op_return
| op_date | op_int8Array | op_uint8ClampedArray | op_uint8Array
| op_int16Array | op_uint16Array | op_int32Array | op_uint32Array
| op_float32Array | op_float64Array | op_bigInt64Array | op_arrayBuffer
| op_promise
| op_pointer | op_arg | op_template | op_var | op_loads
| op_query | op_keyof | op_infer
| op_condition | op_jumpCondition | op_jump | op_call
| op_inline | op_inlineCall
| op_extends.

(** The number a member of the numeric enum stands for: its position. *)
Definition opcode (op : ReflectionOp) : Z :=
  match op with
  | op_never => 0 | op_any => 1 | op_void => 2
  | op_string => 3 | op_number => 4 | op_numberBrand => 5
  | op_boolean => 6 | op_bigint => 7
  | op_null => 8 | op_undefined => 9
  | op_literal => 10 | op_function => 11 | op_method => 12
  | op_methodSignature => 13
  | op_parameter => 14 | op_property => 15 | op_propertySignature => 16
  | op_constructor => 17
  | op_class => 18 | op_classReference => 19
  | op_optional => 20 | op_readonly => 21
  | op_public => 22 | op_private => 23 | op_protected => 24
  | op_abstract => 25
  | op_defaultValue => 26 | op_description => 27
  | op_enum => 28 | op_set => 29 | op_map => 30 | op_constEnum => 31
  | op_array => 32 | op_union => 33 | op_intersection => 34
  | op_indexSignature => 35 | op_objectLiteral => 36
  | op_mappedType => 37 | op_in => 38
  | op_frame => 39 | op_return => 40
  | op_date => 41 | op_int8Array => 42 | op_uint8ClampedArray => 43
  | op_uint8Array => 44
  | op_int16Array => 45 | op_uint16Array => 46 | op_int32Array => 47
  | op_uint32Array => 48
  | op_float32Array => 49 | op_float64Array => 50
  | op_bigInt64Array => 51 | op_arrayBuffer => 52
  | op_promise => 53
  | op_pointer => 54 | op_arg => 55 | op_template => 56 | op_var => 57
  | op_loads => 58
  | op_query => 59 | op_keyof => 60 | op_infer => 61
  | op_condition => 62 | op_jumpCondition => 63 | op_jump => 64
  | op_call => 65
  | op_inline => 66 | op_inlineCall => 67
  | op_extends => 68
  end.

Coercion opcode : ReflectionOp >-> Z.

Module MappedModifier.
Definition optional : Z := Z.shiftl 1 0.
Definition removeOptional : Z := Z.shiftl 1 1.
Definition readonly : Z := Z.shiftl 1 2.
Definition removeReadonly : Z := Z.shiftl 1 3.
End MappedModifier.

Definition packSizeByte : Z := 6.

(** It can't be more ops than this given number. *)
Definition packSize : Z := 2 ^ packSizeByte.

(** ** Stack entries and pack structures *)

(** Expressions that end up on the stack.  [ENode] is a node of the parsed
    source and has an identity ([id]); [EInitializerOf id] is the initializer
    of the property declaration [id]; the others are built by the node
    factory at the moment they are pushed, so each is a new object. *)
Inductive Expression : Type :=
| ENode (id : Z) (text : string)
| ETrue
| EFalse
| EIdentifier (text : JsString)
| EInitializerOf (id : Z)
| EPropertyAccess (object : Expression) (name : string)
| EArrowFunction (body : Expression).

(** [StackEntry = Expression | (() => ClassType | Object) | string | number
    | boolean].  A thunk is an opaque runtime function. *)
Inductive StackEntry : Type :=
| SeExpression (e : Expression)
| SeThunk (id : Z)
| SeString (s : JsString)
| SeNumber (n : Z)
| SeBoolean (b : bool).

Record PackStruct : Type := mkPackStruct {
  ps_ops : list Z;
  ps_stack : list StackEntry
}.

(** [Packed = string | (StackEntry | string)[]]: a string stack entry and
    the encoded string are the same kind of value. *)
Inductive Packed : Type :=
| PString (s : JsString)
| PArray (items : list StackEntry).

(** The argument of [pack]: [PackStruct | ReflectionOp[]]. *)
Inductive PackInput : Type :=
| OfStruct (s : PackStruct)
| OfOps (ops : list Z).

(** [for (i = 0; i < encodedOPs.length; i++)
      decodedOps.push(encodedOPs.charCodeAt(i) - 33)]. *)
Fixpoint unpackOps (decodedOps : list Z) (encodedOPs : JsString) : list Z :=
  match encodedOPs with
  | [] => decodedOps
  | c :: rest => unpackOps (decodedOps ++ [c - 33]) rest
  end.

Definition pack (packOrOps : PackInput) : Packed :=
  let ops := match packOrOps with OfOps o => o | OfStruct s => ps_ops s end in
  let encodedOps := join (List.map (fun v => fromCharCode (v + 33)) ops) in
  match packOrOps with
  | OfStruct s =>
      match ps_stack s with
      | [] => PString encodedOps
      | _ :: _ => PArray (ps_stack s ++ [SeString encodedOps])
      end
  | OfOps _ => PString encodedOps
  end.

(** [pack[pack.length - 1]]: the last element, [undefined] on an empty
    array. *)
Definition lastItem (items : list StackEntry) : option StackEntry :=
  List.last (List.map Some items) None.

(** [pack.slice(0, -1)]. *)
Definition sliceButLast (items : list StackEntry) : list StackEntry :=
  List.removelast items.

Definition unpack (pack : Packed) : PackStruct :=
  let ops : list Z := [] in
  let stack : list StackEntry := [] in
  match pack with
  | PString s => mkPackStruct (unpackOps ops s) stack
  | PArray items =>
      match lastItem items with
      | Some (SeString encodedOPs) =>
          let stack :=
            if (1 <? Z.of_nat (List.length items))
            then stack ++ sliceButLast items else stack in
          mkPackStruct (unpackOps ops encodedOPs) stack
      | _ => mkPackStruct [] []
      end
  end.

(** ** Outcomes and the state monad of the compiler *)

(** A call returns, throws an [Error], or (for the functions that follow
    resolved declarations or loop) is cut off by the fuel of the model: its
    recursion is deeper, or its loop longer, than the fuel.  A call that is
    cut off whatever the fuel is one whose loop does not end, or whose
    recursion has no end of its own; the engine ends such a recursion with
    a [RangeError] when its call stack is exhausted. *)
Inductive Outcome (A : Type) : Type :=
| Returned (a : A)
| Thrown (message : string)
| OutOfFuel.

Arguments Returned {A} a.
Arguments Thrown {A} message.
Arguments OutOfFuel {A}.

(** A computation over a mutable state [S]. *)
Definition M (S A : Type) : Type := S -> Outcome (A * S).

Definition ret {S A : Type} (a : A) : M S A := fun s => Returned (a, s).

Definition bind {S A B : Type} (m : M S A) (k : A -> M S B) : M S B :=
  fun s =>
    match m s with
    | Returned (a, s') => k a s'
    | Thrown e => Thrown e
    | OutOfFuel => OutOfFuel
    end.

Definition throw {S A : Type} (message : string) : M S A :=
  fun _ => Thrown message.

Definition outOfFuel {S A : Type} : M S A := fun _ => OutOfFuel.

Definition get {S : Type} : M S S := fun s => Returned (s, s).

Definition put {S : Type} (s : S) : M S unit := fun _ => Returned (tt, s).

Definition modify {S : Type} (f : S -> S) : M S unit :=
  fun s => Returned (tt, f s).

Declare Scope compiler_scope.
Delimit Scope compiler_scope with compiler.
Notation "'let*' x ':=' m 'in' k" := (bind m (fun x => k))
  (at level 10, x name, m at level 100, k at level 200) : compiler_scope.
Notation "m '>>' k" := (bind m (fun _ => k))
  (at level 90, right associativity) : compiler_scope.

(** [if (c) m]. *)
Definition when {S : Type} (c : bool) (m : M S unit) : M S unit :=
  if c then m else ret tt.

(** [for (const x of xs) body(x)]. *)
Fixpoint forEach {S A : Type} (xs : list A) (body : A -> M S unit) : M S unit :=
  match xs with
  | [] => ret tt
  | x :: rest => bind (body x) (fun _ => forEach rest body)
  end.

(** ** Frames *)

(** [interface Frame { variables, opIndex, conditional?, previous? }]. *)
Inductive Frame : Type := mkFrame {
  variables : list (string * Z);
  opIndex : Z;
  conditional : bool;
  previous : option Frame
}.

(** [frame.variables.find(v => v.name === name)]. *)
Definition findByName (vars : list (string * Z)) (name : string)
  : option (string * Z) :=
  List.find (fun v => String.eqb (fst v) name) vars.

(** The result of [findVariable]. *)
Record VariableRef : Type := mkVariableRef {
  frameOffset : Z;
  stackIndex : Z
}.

Fixpoint findVariable (frame : Frame) (name : string) (frameOffset : Z)
  : option VariableRef :=
  match findByName (variables frame) name with
  | Some variable => Some (mkVariableRef frameOffset (snd variable))
  | None =>
      match previous frame with
      | Some p => findVariable p name (frameOffset + 1)
      | None => None
      end
  end.

(** A reference to a frame object of the chain that starts at the current
    frame: the number of [previous] links to follow. *)
Definition FrameRef : Type := nat.

(** [findConditionalFrame]: the reference of the nearest frame marked
    conditional. *)
Fixpoint findConditionalFrame (frame : Frame) : option FrameRef :=
  if conditional frame then Some O
  else match previous frame with
       | Some p => option_map S (findConditionalFrame p)
       | None => None
       end.

(** The frame object a reference points to. *)
Fixpoint frameAt (frame : Frame) (ref : FrameRef) : option Frame :=
  match ref with
  | O => Some frame
  | S r => match previous frame with
           | Some p => frameAt p r
           | None => None
           end
  end.

(** A mutation [f] of the frame object a reference points to; every holder
    of the chain sees it. *)
Fixpoint updateFrameAt (frame : Frame) (ref : FrameRef) (f : Frame -> Frame)
  : Frame :=
  match ref with
  | O => f frame
  | S r =>
      match previous frame with
      | Some p =>
          mkFrame (variables frame) (opIndex frame) (conditional frame)
                  (Some (updateFrameAt p r f))
      | None => frame
      end
  end.

(** The number of frames below the current one. *)
Fixpoint frameDepth (frame : Frame) : nat :=
  match previous frame with
  | Some p => S (frameDepth p)
  | None => O
  end.

(** [array.splice(start, 0, ...items)]: a negative [start] counts from the
    end, and [start] is clamped to the array. *)
Definition splice (l : list Z) (start : Z) (items : list Z) : list Z :=
  let len := Z.of_nat (List.length l) in
  let at_ := if start <? 0 then Z.max (len + start) 0 else Z.min start len in
  List.firstn (Z.to_nat at_) l ++ items ++ List.skipn (Z.to_nat at_) l.

(** [array.indexOf(entry)] with [===]: strings, numbers and booleans are
    compared by value, objects by identity.  An expression made by the node
    factory for this very call is identical to no element. *)
Definition strictEquals (element entry : StackEntry) : bool :=
  match element, entry with
  | SeString a, SeString b => bool_decide (a = b)
  | SeNumber a, SeNumber b => Z.eqb a b
  | SeBoolean a, SeBoolean b => Bool.eqb a b
  | SeThunk a, SeThunk b => Z.eqb a b
  | SeExpression (ENode a _), SeExpression (ENode b _) => Z.eqb a b
  | _, _ => false
  end.

Fixpoint indexOfFrom (stack : list StackEntry) (entry : StackEntry) (i : Z)
  : Z :=
  match stack with
  | [] => -1
  | e :: rest => if strictEquals e entry then i else indexOfFrom rest entry (i + 1)
  end.

Definition indexOf (stack : list StackEntry) (entry : StackEntry) : Z :=
  indexOfFrom stack entry 0.

(** ** The compiler program *)

Module CompilerProgram.

Record CoRoutine : Type := mkCoRoutine { co_ops : list Z }.

Record t : Type := mk {
  ops : list Z;
  stack : list StackEntry;
  mainOffset : Z;
  stackPosition : Z;
  frame : Frame;
  activeCoRoutines : list CoRoutine;
  coRoutines : list CoRoutine
}.

(** [new CompilerProgram()]. *)
Definition new : t :=
  mk [] [] 0 0 (mkFrame [] 0 false None) [] [].

Definition set_ops (p : t) (v : list Z) : t :=
  mk v (stack p) (mainOffset p) (stackPosition p) (frame p)
     (activeCoRoutines p) (coRoutines p).
Definition set_stack (p : t) (v : list StackEntry) : t :=
  mk (ops p) v (mainOffset p) (stackPosition p) (frame p)
     (activeCoRoutines p) (coRoutines p).
Definition set_mainOffset (p : t) (v : Z) : t :=
  mk (ops p) (stack p) v (stackPosition p) (frame p)
     (activeCoRoutines p) (coRoutines p).
Definition set_stackPosition (p : t) (v : Z) : t :=
  mk (ops p) (stack p) (mainOffset p) v (frame p)
     (activeCoRoutines p) (coRoutines p).
Definition set_frame (p : t) (v : Frame) : t :=
  mk (ops p) (stack p) (mainOffset p) (stackPosition p) v
     (activeCoRoutines p) (coRoutines p).
Definition set_activeCoRoutines (p : t) (v : list CoRoutine) : t :=
  mk (ops p) (stack p) (mainOffset p) (stackPosition p) (frame p)
     v (coRoutines p).
Definition set_coRoutines (p : t) (v : list CoRoutine) : t :=
  mk (ops p) (stack p) (mainOffset p) (stackPosition p) (frame p)
     (activeCoRoutines p) v.

(** [for (i = coRoutines.length - 1; i >= 0; i--)
      ops.unshift(...coRoutines[i].ops)], [i + 1] being [n]. *)
Fixpoint unshiftCoRoutines (cos : list CoRoutine) (n : nat) (ops : list Z)
  : list Z :=
  match n with
  | O => ops
  | S i =>
      match List.nth_error cos i with
      | Some co => unshiftCoRoutines cos i (co_ops co ++ ops)
      | None => unshiftCoRoutines cos i ops
      end
  end.

Definition buildPackStruct (p : t) : PackStruct :=
  let ops0 := ops p in
  let ops1 :=
    if negb (Nat.eqb (List.length (coRoutines p)) 0)
    then unshiftCoRoutines (coRoutines p) (List.length (coRoutines p)) ops0
    else ops0 in
  let ops2 :=
    if negb (Z.eqb (mainOffset p) 0)
    then [opcode op_jump; mainOffset p] ++ ops1
    else ops1 in
  mkPackStruct ops2 (stack p).

Definition isEmpty (p : t) : bool := Nat.eqb (List.length (ops p)) 0.

(** The active buffer: the last open coroutine, if any. *)
Definition lastCoRoutine (p : t) : option CoRoutine :=
  List.last (List.map Some (activeCoRoutines p)) None.

(** [activeCoRoutines[activeCoRoutines.length - 1].ops = f(...)]. *)
Definition updateLastCoRoutine (p : t) (f : list Z -> list Z) : t :=
  match lastCoRoutine p with
  | Some co =>
      set_activeCoRoutines p
        (List.removelast (activeCoRoutines p) ++ [mkCoRoutine (f (co_ops co))])
  | None => p
  end.

Definition pushOp (newOps : list Z) : M t unit :=
  fun p =>
    if negb (Nat.eqb (List.length (activeCoRoutines p)) 0)
    then Returned (tt, updateLastCoRoutine p (fun o => o ++ newOps))
    else Returned (tt, set_ops p (ops p ++ newOps)).

(** Only [frame.opIndex] is read. *)
Definition pushOpAtFrame (frame : Frame) (newOps : list Z) : M t unit :=
  fun p =>
    if negb (Nat.eqb (List.length (activeCoRoutines p)) 0)
    then Returned
           (tt, updateLastCoRoutine p (fun o => splice o (opIndex frame) newOps))
    else Returned (tt, set_ops p (splice (ops p) (opIndex frame) newOps)).

Definition pushStack (item : StackEntry) : M t Z :=
  fun p =>
    let p1 := set_stack p (stack p ++ [item]) in
    Returned (stackPosition p1, set_stackPosition p1 (stackPosition p1 + 1)).

Definition findOrAddStackEntry (entry : StackEntry) : M t Z :=
  fun p =>
    let index := indexOf (stack p) entry in
    if negb (Z.eqb index (-1)) then Returned (index, p)
    else pushStack entry p.

Definition increaseStackPosition : M t Z :=
  fun p => Returned (stackPosition p, set_stackPosition p (stackPosition p + 1)).

(** Returns (the reference of) the new current frame. *)
Definition pushFrame (implicit : bool) : M t FrameRef :=
  bind (when (negb implicit) (pushOp [opcode op_frame])) (fun _ =>
  fun p =>
    let opIndex :=
      match lastCoRoutine p with
      | Some co => Z.of_nat (List.length (co_ops co))
      | None => Z.of_nat (List.length (ops p))
      end in
    Returned (O, set_frame p (mkFrame [] opIndex false (Some (frame p))))).

Definition pushConditionalFrame : M t unit :=
  bind (pushFrame false) (fun ref =>
  modify (fun p =>
    set_frame p
      (updateFrameAt (frame p) ref
         (fun f => mkFrame (variables f) (opIndex f) true (previous f))))).

Definition popFrame : M t unit :=
  fun p =>
    match previous (frame p) with
    | Some prev => Returned (tt, set_frame p prev)
    | None => Returned (tt, p)
    end.

Definition pushCoRoutine : M t unit :=
  bind (pushFrame true) (fun _ =>
  modify (fun p =>
    set_activeCoRoutines p (activeCoRoutines p ++ [mkCoRoutine []]))).

Definition popCoRoutine : M t Z :=
  fun p =>
    match lastCoRoutine p with
    | None => Thrown "No active co routine found"
    | Some coRoutine =>
        let p1 := set_activeCoRoutines p (List.removelast (activeCoRoutines p)) in
        match popFrame p1 with
        | Returned (_, p2) =>
            let p3 :=
              if Z.eqb (mainOffset p2) 0 then set_mainOffset p2 2 else p2 in
            let startIndex := mainOffset p3 in
            let coRoutine' := mkCoRoutine (co_ops coRoutine ++ [opcode op_return]) in
            let p4 := set_coRoutines p3 (coRoutines p3 ++ [coRoutine']) in
            let p5 :=
              set_mainOffset p4
                (mainOffset p4 + Z.of_nat (List.length (co_ops coRoutine'))) in
            Returned (startIndex, p5)
        | Thrown e => Thrown e
        | OutOfFuel => OutOfFuel
        end
    end.

Definition findConditionalFrame : M t (option FrameRef) :=
  fun p => Returned (findConditionalFrame (frame p), p).

(** [pushVariable(name, frame = this.frame)].  The index given to the
    variable is the number of variables of the current frame.  The frame is
    one of the chain (the current frame, or the one [findConditionalFrame]
    returned); for a reference that leads below the root nothing is done. *)
Definition pushVariable (name : string) (frame_ : FrameRef) : M t Z :=
  fun p =>
    match frameAt (frame p) frame_ with
    | None => Returned (-1, p)
    | Some target =>
        match pushOpAtFrame target [opcode op_var] p with
        | Returned (_, p1) =>
            let index := Z.of_nat (List.length (variables (frame p1))) in
            let push := fun f => mkFrame (variables f ++ [(name, index)])
                                         (opIndex f) (conditional f) (previous f) in
            let p2 := set_frame p1 (updateFrameAt (frame p1) frame_ push) in
            Returned (Z.of_nat (List.length (variables (push target))) - 1, p2)
        | Thrown e => Thrown e
        | OutOfFuel => OutOfFuel
        end
    end.

Definition pushTemplateParameter (name : string) : M t Z :=
  bind (findOrAddStackEntry (SeString (codeUnits name))) (fun nameIdx =>
  bind (pushOp [opcode op_template; nameIdx]) (fun _ =>
  fun p =>
    let index := Z.of_nat (List.length (variables (frame p))) in
    let f := frame p in
    let f' := mkFrame (variables f ++ [(name, index)]) (opIndex f)
                      (conditional f) (previous f) in
    Returned (Z.of_nat (List.length (variables f')) - 1, set_frame p f'))).

Definition findVariable (name : string) : M t (option VariableRef) :=
  fun p => Returned (findVariable (frame p) name 0, p).

End CompilerProgram.

(** ** The syntax tree of the host compiler *)

Module SyntaxKind.
Inductive t : Type :=
| StringKeyword | NumberKeyword | BooleanKeyword | BigIntKeyword
| VoidKeyword | NullKeyword | NeverKeyword | AnyKeyword | UndefinedKeyword
| TrueKeyword | FalseKeyword
| ClassDeclaration | ClassExpression
| MethodDeclaration | Constructor | ArrowFunction | FunctionExpression
| FunctionType | FunctionDeclaration
| QuestionToken | MinusToken | PlusToken
| ReadonlyKeyword | KeyOfKeyword | UniqueKeyword
| ExtendsKeyword | ImplementsKeyword
| PublicKeyword | PrivateKeyword | ProtectedKeyword | AbstractKeyword
| StaticKeyword
| StringLiteral | NumericLiteral
| SourceFile | Block | ExpressionStatement | BinaryExpression
| PropertyAccessExpression | ObjectLiteralExpression | PropertyAssignment
| ArrayLiteralExpression
| TypeParameter
| Other (code : nat).

#[global] Instance eq_dec : EqDecision t.
Proof. solve_decision. Defined.

Definition eqb (a b : t) : bool := bool_decide (a = b).
End SyntaxKind.

(** [EntityName = Identifier | QualifiedName].  [id] is the identity of the
    identifier node. *)
Inductive EntityName : Type :=
| Identifier (id : Z) (text : string)
| QualifiedName (left : EntityName) (right : string).

Inductive PropertyName : Type :=
| PnIdentifier (text : string)
| PnStringLiteral (text : string)
| PnNumericLiteral (text : string)
| PnComputed (id : Z)
| PnPrivateIdentifier (text : string).

Inductive BindingName : Type :=
| BindingIdentifier (text : string)
| BindingPattern.

(** The literal of a [LiteralTypeNode]. *)
Record Literal : Type := mkLiteral {
  lit_kind : SyntaxKind.t;
  lit_id : Z;
  lit_text : string
}.

(** The nodes the compiler looks at.  [id] is the identity of a parsed node
    (nodes made by the node factory carry [-1]); a node of a kind that has
    no constructor of its own is a [Token] when it has no children and a
    [Generic] node otherwise. *)
Inductive Node : Type :=
| Token (kind : SyntaxKind.t)
| Name (name : EntityName)
| ParenthesizedType (type : Node)
| ClassLikeDeclaration (kind : SyntaxKind.t) (id : Z) (name : option string)
    (typeParameters : option (list TypeParameterDeclaration))
    (members : list Node)
| IntersectionType (types : list Node)
| UnionType (types : list Node)
| MappedType (typeParameter : TypeParameterDeclaration)
    (questionToken readonlyToken : option SyntaxKind.t) (type : option Node)
| TypeLiteral (id : Z) (members : list Node)
| InterfaceDeclaration (id : Z) (name : string)
    (typeParameters : option (list TypeParameterDeclaration))
    (heritageClauses : option (list HeritageClause)) (members : list Node)
| TypeAliasDeclaration (id : Z) (name : string)
    (typeParameters : option (list TypeParameterDeclaration)) (type : Node)
| EnumDeclaration (id : Z) (name : string)
| TypeReference (typeName : EntityName) (typeArguments : option (list Node))
| ArrayType (elementType : Node)
| PropertySignature (id : Z) (name : PropertyName) (questionToken : bool)
    (modifiers : list SyntaxKind.t) (type : option Node)
| PropertyDeclaration (id : Z) (name : PropertyName) (questionToken : bool)
    (modifiers : list SyntaxKind.t) (type : option Node)
    (initializer : option Node)
| ConditionalType (checkType extendsType trueType falseType : Node)
| InferType (typeParameter : string)
| FunctionLikeDeclaration (kind : SyntaxKind.t) (id : Z)
    (name : option PropertyName) (modifiers : list SyntaxKind.t)
    (typeParameters : option (list TypeParameterDeclaration))
    (parameters : list ParameterDeclaration) (type : option Node)
    (body : list Node)
| LiteralType (literal : Literal)
| IndexSignature (parameterType : option Node) (type : Node)
| TypeOperator (operator : SyntaxKind.t) (type : Node)
| IndexedAccessType (objectType indexType : Node)
| CallExpression (expression : Node) (typeArguments : option (list Node))
    (arguments : list Node)
| ValueExpression (value : Packed)
| VariableStatement (name : StackEntry) (initializer : option Node)
| Generic (kind : SyntaxKind.t) (children : list Node)
with TypeParameterDeclaration : Type :=
| mkTypeParameter (name : string) (constraint : option Node)
with ParameterDeclaration : Type :=
| mkParameter (name : BindingName) (questionToken : bool)
    (modifiers : list SyntaxKind.t) (type : option Node)
    (initializer : option Node)
with HeritageClause : Type :=
| mkHeritageClause (token : SyntaxKind.t) (types : list Node).

Definition tp_name (p : TypeParameterDeclaration) : string :=
  match p with mkTypeParameter name _ => name end.

Definition tp_constraint (p : TypeParameterDeclaration) : option Node :=
  match p with mkTypeParameter _ constraint => constraint end.

(** [member.name]. *)
Definition nameOf (node : Node) : option PropertyName :=
  match node with
  | PropertySignature _ name _ _ _ => Some name
  | PropertyDeclaration _ name _ _ _ _ => Some name
  | FunctionLikeDeclaration _ _ name _ _ _ _ _ => name
  | _ => None
  end.

(** The identity of a declaration node, the key of the hoist queues. *)
Definition identityOf (node : Node) : Z :=
  match node with
  | ClassLikeDeclaration _ id _ _ _ => id
  | TypeLiteral id _ => id
  | InterfaceDeclaration id _ _ _ _ => id
  | TypeAliasDeclaration id _ _ _ => id
  | EnumDeclaration id _ => id
  | PropertySignature id _ _ _ _ => id
  | PropertyDeclaration id _ _ _ _ _ => id
  | FunctionLikeDeclaration _ id _ _ _ _ _ _ => id
  | _ => -1
  end.

Definition isTypeAliasDeclaration (node : Node) : bool :=
  match node with TypeAliasDeclaration _ _ _ _ => true | _ => false end.

Definition isInterfaceDeclaration (node : Node) : bool :=
  match node with InterfaceDeclaration _ _ _ _ _ => true | _ => false end.

(** What [resolveDeclaration] returns: the declaration and, when the name
    was imported, (the identity of) its import specifier. *)
Record Resolved : Type := mkResolved {
  resolvedDeclaration : Node;
  resolvedImportSpecifier : option Z
}.

(** A JSDoc tag: [tag.tagName.text] and [tag.comment] when it is a string. *)
Record JSDocTag : Type := mkJSDocTag {
  tagName : string;
  comment : option string
}.

(** The argument of [parseReflectionMode]:
    [typeof reflectionModes[number] | '' | boolean], or [undefined]. *)
Inductive ModeInput : Type :=
| ModeBoolean (b : bool)
| ModeString (s : string)
| ModeUndefined.

(** What the walk up the directories finds in one directory: no
    [tsconfig.json], one that cannot be read or parsed, or one with its
    [reflection] key. *)
Inductive TsConfigProbe : Type :=
| NoTsConfig
| MalformedTsConfig
| TsConfig (reflection : ModeInput).

(** ** The transformer and the type walker *)

Module ReflectionTransformer.
(** The fields of the transformer that change while a file is
    transformed.  The two hoist queues are [Map]s keyed by the identity of
    the declaration node; [synthesized] holds the import specifiers whose
    flags were or-ed with [NodeFlags.Synthesized]. *)
Record t : Type := mk {
  sourceFile : Node;
  reflectionMode : option string;
  compileDeclarations : gmap Z EntityName;
  embedDeclarations : gmap Z EntityName;
  synthesized : gset Z
}.

Definition set_sourceFile (this : t) (v : Node) : t :=
  mk v (reflectionMode this) (compileDeclarations this)
     (embedDeclarations this) (synthesized this).
Definition set_compileDeclarations (this : t) (v : gmap Z EntityName) : t :=
  mk (sourceFile this) (reflectionMode this) v
     (embedDeclarations this) (synthesized this).
Definition set_embedDeclarations (this : t) (v : gmap Z EntityName) : t :=
  mk (sourceFile this) (reflectionMode this) (compileDeclarations this)
     v (synthesized this).
Definition set_synthesized (this : t) (v : gset Z) : t :=
  mk (sourceFile this) (reflectionMode this) (compileDeclarations this)
     (embedDeclarations this) v.

(** [new ReflectionTransformer(context)], then [withReflectionMode] when a
    mode is given. *)
Definition new (mode : option string) : t :=
  mk (Token (SyntaxKind.Other 0)) mode ∅ ∅ ∅.
End ReflectionTransformer.

(** The state of one walk: the transformer and the program being built. *)
Record WalkState : Type := mkWalk {
  this : ReflectionTransformer.t;
  program : CompilerProgram.t
}.

Definition W (A : Type) : Type := M WalkState A.

(** A method of the program, called on [program]. *)
Definition onProgram {A : Type} (m : M CompilerProgram.t A) : W A :=
  fun w =>
    match m (program w) with
    | Returned (a, p) => Returned (a, mkWalk (this w) p)
    | Thrown e => Thrown e
    | OutOfFuel => OutOfFuel
    end.

(** A change of the transformer's own fields. *)
Definition onThis (f : ReflectionTransformer.t -> ReflectionTransformer.t)
  : W unit :=
  fun w => Returned (tt, mkWalk (f (this w)) (program w)).

(** [for (const x of xs) acc = body(acc, x)]. *)
Fixpoint foldM {S A B : Type} (xs : list A) (acc : B) (body : B -> A -> M S B)
  : M S B :=
  match xs with
  | [] => ret acc
  | x :: rest => bind (body acc x) (fun acc' => foldM rest acc' body)
  end.

(** The table [knownClasses], by its own keys. *)
Definition knownClasses (name : string) : option ReflectionOp :=
  if String.eqb name "Int8Array" then Some op_int8Array
  else if String.eqb name "Uint8Array" then Some op_uint8Array
  else if String.eqb name "Uint8ClampedArray" then Some op_uint8ClampedArray
  else if String.eqb name "Int16Array" then Some op_int16Array
  else if String.eqb name "Uint16Array" then Some op_uint16Array
  else if String.eqb name "Int32Array" then Some op_int32Array
  else if String.eqb name "Uint32Array" then Some op_uint32Array
  else if String.eqb name "Float32Array" then Some op_float32Array
  else if String.eqb name "Float64Array" then Some op_float64Array
  else if String.eqb name "ArrayBuffer" then Some op_arrayBuffer
  else if String.eqb name "BigInt64Array" then Some op_bigInt64Array
  else if String.eqb name "Date" then Some op_date
  else if String.eqb name "String" then Some op_string
  else if String.eqb name "Number" then Some op_number
  else if String.eqb name "BigInt" then Some op_bigint
  else if String.eqb name "Boolean" then Some op_boolean
  else None.

(** The names that every object inherits from [Object.prototype]
    (ECMAScript 20.1.3 and B.2.2).  The table is an object literal, so that
    [this.knownClasses[name]] is, for these names, the inherited member: a
    function, or the prototype object itself for [__proto__]. *)
Definition objectPrototypeKeys : list string :=
  ["constructor"; "hasOwnProperty"; "isPrototypeOf"; "propertyIsEnumerable";
   "toLocaleString"; "toString"; "valueOf"; "__defineGetter__";
   "__defineSetter__"; "__lookupGetter__"; "__lookupSetter__"; "__proto__"]%string.

Definition inheritedFromObject (name : string) : bool :=
  List.existsb (String.eqb name) objectPrototypeKeys.

(** An inherited member where an op is expected.  It is an object, not a
    number.  The program only stores its ops, and [pack] alone reads them:
    it adds [33], which for an object gives a string that is no numeral,
    and [String.fromCharCode] of that is the code unit [0].  Among the
    numbers that the op lists hold here, it is the number that [pack]
    writes as the code unit [0]. *)
Definition inheritedMember : Z := -33.

(** [this.knownClasses[name]]: the op of the table, the inherited member for
    a name of [Object.prototype], [undefined] for any other name.  Every op
    of the table is a number other than [0] and an inherited member is an
    object, so that what is found is truthy. *)
Definition knownClassesLookup (name : string) : option Z :=
  match knownClasses name with
  | Some op => Some (opcode op)
  | None => if inheritedFromObject name then Some inheritedMember else None
  end.

(** The prefix of a hoisted binding: two underscores and U+2126, the ohm
    sign, as the source has it. *)
Definition hoistPrefix : JsString := [95; 95; 8486].

Fixpoint joinQualifiedName (name : EntityName) : JsString :=
  match name with
  | Identifier _ text => codeUnits text
  | QualifiedName l r => joinQualifiedName l ++ codeUnits "_" ++ codeUnits r
  end.

(** An identifier node for an identifier, a plain string for a qualified
    name. *)
Definition getDeclarationVariableName (typeName : EntityName) : StackEntry :=
  match typeName with
  | Identifier _ text => SeExpression (EIdentifier (hoistPrefix ++ codeUnits text))
  | QualifiedName _ _ => SeString (hoistPrefix ++ joinQualifiedName typeName)
  end.

(** [createAccessorForEntityName], and the name itself for an identifier. *)
Fixpoint accessorOf (e : EntityName) : Expression :=
  match e with
  | Identifier id text => ENode id text
  | QualifiedName l r => EPropertyAccess (accessorOf l) r
  end.

Definition parseReflectionMode (mode : ModeInput) : string :=
  match mode with
  | ModeBoolean b => if b then "default" else "never"
  | ModeString s => if String.eqb s "" then "never" else s
  | ModeUndefined => "never"
  end.

(** The first tag named [reflection] whose comment is a string. *)
Definition findReflectionTag (tags : list JSDocTag) : option string :=
  match List.find
          (fun tag => String.eqb (tagName tag) "reflection"
                      && match comment tag with Some _ => true | None => false end)
          tags with
  | Some tag => comment tag
  | None => None
  end.

(** The [do ... while (current)] loop over a node and its ancestors. *)
Fixpoint findReflectionTagInChain (chain : list (list JSDocTag)) : option string :=
  match chain with
  | [] => None
  | tags :: parents =>
      match findReflectionTag tags with
      | Some c => Some c
      | None => findReflectionTagInChain parents
      end
  end.

(** The [while (currentDir)] loop over the directories. *)
Fixpoint findReflectionInTsConfigs (probes : list TsConfigProbe) : option string :=
  match probes with
  | [] => None
  | TsConfig ModeUndefined :: up => findReflectionInTsConfigs up
  | TsConfig reflection :: _ => Some (parseReflectionMode reflection)
  | _ :: up => findReflectionInTsConfigs up
  end.

Section Host.
(** Helpers of [reflection-ast], which is not part of the sources read
    here, and the services of the host compiler. *)
Variable getNameAsString : option PropertyName -> string.
Variable getPropertyName : option PropertyName -> StackEntry.
Variable hasModifier : list SyntaxKind.t -> SyntaxKind.t -> bool.
Variable extractJSDocAttribute : Node -> string -> string.
(** [resolveDeclaration] asks the host type checker for the symbol at a
    name and follows import specifiers through the module graph; its
    answer is an input here. *)
Variable resolveDeclaration : Node -> option Resolved.
(** [getJSDocTags] of a node, of its parent, and so on up to the root. *)
Variable getJSDocTags : Node -> list (list JSDocTag).
(** What the directories hold, from the directory of the source file up. *)
Variable tsConfigs : list TsConfigProbe.
(** Members of the enum [TypeNumberBrand] of [./type]. *)
Variable TypeNumberBrand_integer : Z.
Variable TypeNumberBrand_int8 : Z.
Variable TypeNumberBrand_int16 : Z.

(** The mode of the configuration [findReflectionConfig] returns. *)
Definition findReflectionConfig (this : ReflectionTransformer.t) (node : Node)
  : string :=
  match findReflectionTagInChain (getJSDocTags node) with
  | Some c =>
      parseReflectionMode
        (if String.eqb c "" then ModeBoolean true else ModeString c)
  | None =>
      match ReflectionTransformer.reflectionMode this with
      | Some mode => mode
      | None =>
          match findReflectionInTsConfigs tsConfigs with
          | Some mode => mode
          | None => "never"
          end
      end
  end.

Definition pushOp (ops : list Z) : W unit :=
  onProgram (CompilerProgram.pushOp ops).

(** The loop over [declaration.members] with the local array [members] of
    the members seen so far. *)
Fixpoint emitMembers (rec : Node -> W unit) (declared members : list Node)
  : W (list Node) :=
  match declared with
  | [] => ret members
  | member :: rest =>
      let name := getNameAsString (nameOf member) in
      if negb (String.eqb name "")
         && List.existsb
              (fun v => String.eqb (getNameAsString (nameOf v)) name) members
      then emitMembers rec rest members
      else bind (rec member) (fun _ => emitMembers rec rest (members ++ [member]))
  end.

Definition membersOf (declaration : Node) : list Node :=
  match declaration with
  | TypeLiteral _ members => members
  | InterfaceDeclaration _ _ _ _ members => members
  | ClassLikeDeclaration _ _ _ _ members => members
  | _ => []
  end.

(** The closure [extractMembers] of the interface case. *)
Fixpoint extractMembers (fuel : nat) (rec : Node -> W unit)
    (declaration : Node) (members : list Node) : W (list Node) :=
  match fuel with
  | O => outOfFuel
  | S fuel' =>
      bind (emitMembers rec (membersOf declaration) members) (fun members =>
      match declaration with
      | InterfaceDeclaration _ _ _ (Some heritageClauses) _ =>
          foldM heritageClauses members (fun members heritage =>
            match heritage with
            | mkHeritageClause token types =>
                if SyntaxKind.eqb token SyntaxKind.ExtendsKeyword
                then
                  foldM types members (fun members extendType =>
                    match extendType with
                    | Name (Identifier _ _) =>
                        match resolveDeclaration extendType with
                        | None => ret members
                        | Some resolved =>
                            if isInterfaceDeclaration (resolvedDeclaration resolved)
                            then extractMembers fuel' rec
                                   (resolvedDeclaration resolved) members
                            else ret members
                        end
                    | _ => ret members
                    end)
                else ret members
            end)
      | _ => ret members
      end)
  end.

(** [ensureImportIsEmitted]. *)
Definition ensureImportIsEmitted (resolved : Resolved) : W unit :=
  match resolvedImportSpecifier resolved with
  | Some spec =>
      onThis (fun t =>
        ReflectionTransformer.set_synthesized t
          ({[ spec ]} ∪ ReflectionTransformer.synthesized t))
  | None => ret tt
  end.

Definition extractPackStructOfTypeReference (rec : Node -> W unit)
    (typeName : EntityName) (typeArguments : option (list Node)) : W unit :=
  let text := match typeName with Identifier _ t => Some t | _ => None end in
  let isName (s : string) :=
    match text with Some t => String.eqb t s | None => false end in
  match (match text with Some t => knownClassesLookup t | None => None end) with
  | Some op => pushOp [op]
  | None =>
  if isName "Promise" then
    bind (match typeArguments with
          | Some (first :: _) => rec first
          | _ => pushOp [opcode op_any]
          end) (fun _ =>
    pushOp [opcode op_promise])
  else if isName "integer" then
    pushOp [opcode op_numberBrand; TypeNumberBrand_integer]
  else if isName "int8" then
    pushOp [opcode op_numberBrand; TypeNumberBrand_int8]
  else if isName "int16" then
    pushOp [opcode op_numberBrand; TypeNumberBrand_int16]
  else
    bind (match text with
          | Some t => onProgram (CompilerProgram.findVariable t)
          | None => ret None
          end) (fun variable =>
    match variable with
    | Some variable =>
        pushOp [opcode op_loads; frameOffset variable; stackIndex variable]
    | None =>
        match resolveDeclaration (Name typeName) with
        | None => pushOp [opcode op_any]
        | Some resolved =>
            let declaration := resolvedDeclaration resolved in
            match declaration with
            | TypeAliasDeclaration _ _ _ _
            | InterfaceDeclaration _ _ _ _ _ =>
                bind (onProgram (CompilerProgram.pushStack
                                   (getDeclarationVariableName typeName)))
                     (fun index =>
                bind (match resolvedImportSpecifier resolved with
                      | Some _ =>
                          onThis (fun t =>
                            ReflectionTransformer.set_embedDeclarations t
                              (<[identityOf declaration := typeName]>
                                 (ReflectionTransformer.embedDeclarations t)))
                      | None =>
                          onThis (fun t =>
                            ReflectionTransformer.set_compileDeclarations t
                              (<[identityOf declaration := typeName]>
                                 (ReflectionTransformer.compileDeclarations t)))
                      end) (fun _ =>
                match typeArguments with
                | Some typeArguments =>
                    bind (forEach typeArguments rec) (fun _ =>
                    pushOp [opcode op_inlineCall; index;
                            Z.of_nat (List.length typeArguments)])
                | None => pushOp [opcode op_inline; index]
                end))
            | TypeLiteral _ _ =>
                onThis (fun t =>
                  ReflectionTransformer.set_embedDeclarations t
                    (<[identityOf declaration := typeName]>
                       (ReflectionTransformer.embedDeclarations t)))
            | MappedType _ _ _ _ => rec declaration
            | EnumDeclaration _ _ =>
                bind (ensureImportIsEmitted resolved) (fun _ =>
                let arrow := EArrowFunction (accessorOf typeName) in
                bind (onProgram (CompilerProgram.findOrAddStackEntry
                                   (SeExpression arrow))) (fun index =>
                pushOp [opcode op_enum; index]))
            | ClassLikeDeclaration SyntaxKind.ClassDeclaration _ _ _ _ =>
                bind (ensureImportIsEmitted resolved) (fun _ =>
                bind (match typeArguments with
                      | Some typeArguments => forEach typeArguments rec
                      | None => ret tt
                      end) (fun _ =>
                bind (onProgram (CompilerProgram.pushStack
                        (SeExpression (EArrowFunction (accessorOf typeName)))))
                     (fun index =>
                bind (pushOp [opcode op_classReference]) (fun _ =>
                pushOp [index]))))
            | _ => rec declaration
            end
        end
    end)
  end.

(** The modifier bits of a mapped type. *)
Definition mappedModifier (questionToken readonlyToken : option SyntaxKind.t)
  : Z :=
  let modifier := 0 in
  let modifier :=
    match questionToken with
    | Some kind =>
        let modifier :=
          if SyntaxKind.eqb kind SyntaxKind.QuestionToken
          then Z.lor modifier MappedModifier.optional else modifier in
        if SyntaxKind.eqb kind SyntaxKind.MinusToken
        then Z.lor modifier MappedModifier.removeOptional else modifier
    | None => modifier
    end in
  match readonlyToken with
  | Some kind =>
      let modifier :=
        if SyntaxKind.eqb kind SyntaxKind.ReadonlyKeyword
        then Z.lor modifier MappedModifier.readonly else modifier in
      if SyntaxKind.eqb kind SyntaxKind.MinusToken
      then Z.lor modifier MappedModifier.removeReadonly else modifier
  | None => modifier
  end.

(** [for (const typeParameter of typeParameters)
      program.pushTemplateParameter(...)]. *)
Definition pushTemplateParameters
    (typeParameters : option (list TypeParameterDeclaration))
    (nameOfParameter : TypeParameterDeclaration -> string) : W unit :=
  match typeParameters with
  | Some typeParameters =>
      forEach typeParameters (fun typeParameter =>
        bind (onProgram (CompilerProgram.pushTemplateParameter
                           (nameOfParameter typeParameter)))
             (fun _ => ret tt))
  | None => ret tt
  end.

(** The case of [infer X]. *)
Definition extractInferType (name : string) : W unit :=
  bind (onProgram CompilerProgram.findConditionalFrame) (fun frame =>
  match frame with
  | Some frame =>
      bind (onProgram (CompilerProgram.findVariable name)) (fun variable =>
      bind (match variable with
            | Some variable => ret variable
            | None =>
                bind (onProgram (CompilerProgram.pushVariable name frame))
                     (fun _ =>
                bind (onProgram (CompilerProgram.findVariable name))
                     (fun variable =>
                match variable with
                | Some variable => ret variable
                | None => throw "Could not find inserted infer variable"
                end))
            end) (fun variable =>
      pushOp [opcode op_infer; frameOffset variable; stackIndex variable]))
  | None => pushOp [opcode op_never]
  end).

(** One parameter of a function-like node; [functionModifiers] are the
    modifiers of the function, which the [readonly] test looks at. *)
Definition extractParameter (rec : Node -> W unit)
    (functionModifiers : list SyntaxKind.t) (parameter : ParameterDeclaration)
  : W unit :=
  match parameter with
  | mkParameter BindingPattern _ _ _ _ => ret tt
  | mkParameter (BindingIdentifier text) questionToken modifiers type _ =>
      bind (match type with
            | Some type => rec type
            | None => pushOp [opcode op_any]
            end) (fun _ =>
      bind (onProgram (CompilerProgram.findOrAddStackEntry
              (SeString (codeUnits (getNameAsString (Some (PnIdentifier text)))))))
           (fun index =>
      bind (pushOp [opcode op_parameter; index]) (fun _ =>
      bind (when questionToken (pushOp [opcode op_optional])) (fun _ =>
      bind (when (hasModifier modifiers SyntaxKind.PublicKeyword)
                 (pushOp [opcode op_public])) (fun _ =>
      bind (when (hasModifier modifiers SyntaxKind.PrivateKeyword)
                 (pushOp [opcode op_private])) (fun _ =>
      bind (when (hasModifier modifiers SyntaxKind.ProtectedKeyword)
                 (pushOp [opcode op_protected])) (fun _ =>
      when (hasModifier functionModifiers SyntaxKind.ReadonlyKeyword)
           (pushOp [opcode op_readonly]))))))))
  end.

(** [if (description) program.pushOp(ReflectionOp.description, ...)]. *)
Definition pushDescription (node : Node) : W unit :=
  let description := extractJSDocAttribute node "description" in
  if String.eqb description "" then ret tt
  else
    bind (onProgram (CompilerProgram.findOrAddStackEntry
                       (SeString (codeUnits description)))) (fun index =>
    pushOp [opcode op_description; index]).

Fixpoint extractPackStructOfType (fuel : nat) (node : Node) {struct fuel}
  : W unit :=
  match fuel with
  | O => outOfFuel
  | S fuel' =>
    let rec := extractPackStructOfType fuel' in
    match node with
    | ParenthesizedType type => rec type
    | Token SyntaxKind.StringKeyword => pushOp [opcode op_string]
    | Token SyntaxKind.NumberKeyword => pushOp [opcode op_number]
    | Token SyntaxKind.BooleanKeyword => pushOp [opcode op_boolean]
    | Token SyntaxKind.BigIntKeyword => pushOp [opcode op_bigint]
    | Token SyntaxKind.VoidKeyword => pushOp [opcode op_void]
    | Token SyntaxKind.NullKeyword => pushOp [opcode op_null]
    | Token SyntaxKind.NeverKeyword => pushOp [opcode op_never]
    | Token SyntaxKind.AnyKeyword => pushOp [opcode op_any]
    | Token SyntaxKind.UndefinedKeyword => pushOp [opcode op_undefined]
    | Token SyntaxKind.TrueKeyword =>
        bind (onProgram (CompilerProgram.pushStack (SeExpression ETrue)))
             (fun index => pushOp [opcode op_literal; index])
    | Token SyntaxKind.FalseKeyword =>
        bind (onProgram (CompilerProgram.pushStack (SeExpression EFalse)))
             (fun index => pushOp [opcode op_literal; index])
    | ClassLikeDeclaration _ _ _ typeParameters members =>
        bind (fun w => Returned (CompilerProgram.isEmpty (program w), w))
             (fun empty =>
        bind (when (negb empty)
                (bind (onProgram (CompilerProgram.pushFrame false))
                      (fun _ => ret tt))) (fun _ =>
        bind (pushTemplateParameters typeParameters
                (fun typeParameter =>
                   getNameAsString (Some (PnIdentifier (tp_name typeParameter)))))
             (fun _ =>
        bind (emitMembers rec members []) (fun _ =>
        bind (pushOp [opcode op_class]) (fun _ =>
        when (negb empty) (onProgram CompilerProgram.popFrame))))))
    | IntersectionType types =>
        bind (fun w => Returned (CompilerProgram.isEmpty (program w), w))
             (fun empty =>
        bind (when (negb empty)
                (bind (onProgram (CompilerProgram.pushFrame false))
                      (fun _ => ret tt))) (fun _ =>
        bind (forEach types rec) (fun _ =>
        pushOp [opcode op_intersection])))
    | MappedType typeParameter questionToken readonlyToken type =>
        bind (onProgram (CompilerProgram.pushFrame false)) (fun _ =>
        bind (onProgram (CompilerProgram.pushVariable (tp_name typeParameter) O))
             (fun _ =>
        bind (match tp_constraint typeParameter with
              | Some constraint => rec constraint
              | None => pushOp [opcode op_never]
              end) (fun _ =>
        bind (onProgram CompilerProgram.pushCoRoutine) (fun _ =>
        let modifier := mappedModifier questionToken readonlyToken in
        bind (match type with
              | Some type => rec type
              | None => pushOp [opcode op_never]
              end) (fun _ =>
        bind (onProgram CompilerProgram.popCoRoutine) (fun coRoutineIndex =>
        bind (pushOp [opcode op_mappedType; coRoutineIndex; modifier]) (fun _ =>
        onProgram CompilerProgram.popFrame)))))))
    | TypeLiteral _ _
    | InterfaceDeclaration _ _ _ _ _ =>
        bind (onProgram (CompilerProgram.pushFrame false)) (fun _ =>
        bind (extractMembers fuel' rec node []) (fun _ =>
        bind (pushOp [opcode op_objectLiteral]) (fun _ =>
        onProgram CompilerProgram.popFrame)))
    | TypeReference typeName typeArguments =>
        extractPackStructOfTypeReference rec typeName typeArguments
    | ArrayType elementType =>
        bind (rec elementType) (fun _ => pushOp [opcode op_array])
    | PropertySignature _ name questionToken modifiers type =>
        match type with
        | Some type =>
            bind (rec type) (fun _ =>
            bind (onProgram (CompilerProgram.findOrAddStackEntry
                               (getPropertyName (Some name)))) (fun index =>
            bind (pushOp [opcode op_propertySignature; index]) (fun _ =>
            bind (when questionToken (pushOp [opcode op_optional])) (fun _ =>
            bind (when (hasModifier modifiers SyntaxKind.ReadonlyKeyword)
                       (pushOp [opcode op_readonly])) (fun _ =>
            pushDescription node)))))
        | None => ret tt
        end
    | PropertyDeclaration id name questionToken modifiers type initializer =>
        match type with
        | Some type =>
            bind get (fun w =>
            if String.eqb (findReflectionConfig (this w) node) "never"
            then ret tt
            else
            bind (rec type) (fun _ =>
            bind (onProgram (CompilerProgram.findOrAddStackEntry
                               (getPropertyName (Some name)))) (fun index =>
            bind (pushOp [opcode op_property; index]) (fun _ =>
            bind (when questionToken (pushOp [opcode op_optional])) (fun _ =>
            bind (when (hasModifier modifiers SyntaxKind.ReadonlyKeyword)
                       (pushOp [opcode op_readonly])) (fun _ =>
            bind (when (hasModifier modifiers SyntaxKind.PrivateKeyword)
                       (pushOp [opcode op_private])) (fun _ =>
            bind (when (hasModifier modifiers SyntaxKind.ProtectedKeyword)
                       (pushOp [opcode op_protected])) (fun _ =>
            bind (when (hasModifier modifiers SyntaxKind.AbstractKeyword)
                       (pushOp [opcode op_abstract])) (fun _ =>
            bind (match initializer with
                  | Some _ =>
                      bind (onProgram (CompilerProgram.findOrAddStackEntry
                              (SeExpression (EArrowFunction (EInitializerOf id)))))
                           (fun index =>
                      pushOp [opcode op_defaultValue; index])
                  | None => ret tt
                  end) (fun _ =>
            pushDescription node))))))))))
        | None => ret tt
        end
    | ConditionalType checkType extendsType trueType falseType =>
        bind (onProgram CompilerProgram.pushConditionalFrame) (fun _ =>
        bind (rec checkType) (fun _ =>
        bind (rec extendsType) (fun _ =>
        bind (pushOp [opcode op_extends]) (fun _ =>
        bind (rec trueType) (fun _ =>
        bind (rec falseType) (fun _ =>
        bind (pushOp [opcode op_condition]) (fun _ =>
        onProgram CompilerProgram.popFrame)))))))
    | InferType typeParameter => extractInferType typeParameter
    | FunctionLikeDeclaration kind _ name modifiers _ parameters type _ =>
        bind get (fun w =>
        if String.eqb (findReflectionConfig (this w) node) "never"
        then ret tt
        else
        bind (when (negb (CompilerProgram.isEmpty (program w)))
                (bind (onProgram (CompilerProgram.pushFrame false))
                      (fun _ => ret tt))) (fun _ =>
        bind (forEach parameters (extractParameter rec modifiers)) (fun _ =>
        bind (match type with
              | Some type => rec type
              | None => pushOp [opcode op_any]
              end) (fun _ =>
        let isConstructor := SyntaxKind.eqb kind SyntaxKind.Constructor in
        let isMethod := SyntaxKind.eqb kind SyntaxKind.MethodDeclaration in
        let name := if isConstructor then SeString (codeUnits "constructor")
                    else getPropertyName name in
        bind (onProgram (CompilerProgram.findOrAddStackEntry name)) (fun index =>
        bind (pushOp [if isMethod || isConstructor
                      then opcode op_method else opcode op_function; index])
             (fun _ =>
        if isMethod then
          bind (when (hasModifier modifiers SyntaxKind.PrivateKeyword)
                     (pushOp [opcode op_private])) (fun _ =>
          bind (when (hasModifier modifiers SyntaxKind.ProtectedKeyword)
                     (pushOp [opcode op_protected])) (fun _ =>
          when (hasModifier modifiers SyntaxKind.AbstractKeyword)
               (pushOp [opcode op_abstract])))
        else ret tt))))))
    | LiteralType literal =>
        if SyntaxKind.eqb (lit_kind literal) SyntaxKind.NullKeyword
        then pushOp [opcode op_null]
        else
          bind (onProgram (CompilerProgram.findOrAddStackEntry
                  (SeExpression (ENode (lit_id literal) (lit_text literal)))))
               (fun index => pushOp [opcode op_literal; index])
    | UnionType types =>
        match types with
        | [] => ret tt
        | [single] => rec single
        | _ =>
            bind (fun w => Returned (CompilerProgram.isEmpty (program w), w))
                 (fun empty =>
            bind (when (negb empty)
                    (bind (onProgram (CompilerProgram.pushFrame false))
                          (fun _ => ret tt))) (fun _ =>
            bind (forEach types rec) (fun _ =>
            bind (pushOp [opcode op_union]) (fun _ =>
            when (negb empty) (onProgram CompilerProgram.popFrame)))))
        end
    | IndexSignature parameterType type =>
        bind (match parameterType with
              | Some parameterType => rec parameterType
              | None => pushOp [opcode op_any]
              end) (fun _ =>
        bind (rec type) (fun _ =>
        pushOp [opcode op_indexSignature]))
    | TypeOperator operator type =>
        if SyntaxKind.eqb operator SyntaxKind.KeyOfKeyword
        then bind (rec type) (fun _ => pushOp [opcode op_keyof])
        else ret tt
    | IndexedAccessType objectType indexType =>
        bind (rec objectType) (fun _ =>
        bind (rec indexType) (fun _ =>
        pushOp [opcode op_query]))
    | _ => pushOp [opcode op_any]
    end
  end.

(** *** The tree rewriter *)

(** A computation of the transformer itself. *)
Definition T (A : Type) : Type := M ReflectionTransformer.t A.

Definition packOpsAndStack (packStruct : PackStruct) : option Node :=
  if Nat.eqb (List.length (ps_ops packStruct)) 0 then None
  else Some (ValueExpression (pack (OfStruct packStruct))).

(** Runs the walker on a new program and finalizes it. *)
Definition compileType (fuel : nat) (prepare : W unit) (type : Node)
  : T (option Node) :=
  fun this_ =>
    match bind prepare (fun _ => extractPackStructOfType fuel type)
               (mkWalk this_ CompilerProgram.new) with
    | Returned (_, w) =>
        Returned (packOpsAndStack (CompilerProgram.buildPackStruct (program w)),
                  this w)
    | Thrown e => Thrown e
    | OutOfFuel => OutOfFuel
    end.

Definition getTypeOfType (fuel : nat) (type : Node) : T (option Node) :=
  fun this_ =>
    if String.eqb (findReflectionConfig this_ type) "never"
    then Returned (None, this_)
    else compileType fuel (ret tt) type this_.

Definition identifier (text : string) : Node := Name (Identifier (-1) text).

Definition decorateClass (fuel : nat) (node : Node) : T Node :=
  fun this_ =>
    if String.eqb (findReflectionConfig this_ node) "never"
    then Returned (node, this_)
    else
      bind (getTypeOfType fuel node) (fun type =>
        let __type :=
          PropertyDeclaration (-1) (PnIdentifier "__type") false
            [SyntaxKind.StaticKeyword] None type in
        match node with
        | ClassLikeDeclaration kind id name typeParameters members =>
            ret (ClassLikeDeclaration kind id name typeParameters
                   (members ++ [__type]))
        | _ => ret node
        end) this_.

(** [Object.assign(expression, { __type: encodedType })]. *)
Definition objectAssign (expression encodedType : Node) : Node :=
  CallExpression
    (Generic SyntaxKind.PropertyAccessExpression
       [identifier "Object"; identifier "assign"])
    None
    [expression;
     Generic SyntaxKind.ObjectLiteralExpression
       [Generic SyntaxKind.PropertyAssignment
          [identifier "__type"; encodedType]]].

Definition decorateFunctionExpression (fuel : nat) (expression : Node)
  : T Node :=
  bind (getTypeOfType fuel expression) (fun encodedType =>
  match encodedType with
  | None => ret expression
  | Some encodedType => ret (objectAssign expression encodedType)
  end).

(** [declaration.name] of a function declaration: an identifier, or
    [undefined] ([export default function () {}]).  A function declaration
    has no other kind of name ([name?: Identifier]); a token stands for
    one. *)
Definition declarationName (declaration : Node) : option Node :=
  match nameOf declaration with
  | Some (PnIdentifier text) =>
      Some (Name (Identifier (identityOf declaration) text))
  | Some _ => Some (Token (SyntaxKind.Other 0))
  | None => None
  end.

(** [createPropertyAccessExpression(declaration.name!, '__type')] fails in
    the node factory, with a [TypeError], when the declaration has no
    name. *)
Definition decorateFunctionDeclaration (fuel : nat) (declaration : Node)
  : T (list Node) :=
  bind (getTypeOfType fuel declaration) (fun encodedType =>
  match encodedType with
  | None => ret [declaration]
  | Some encodedType =>
      match declarationName declaration with
      | Some name =>
          ret [declaration;
               Generic SyntaxKind.ExpressionStatement
                 [Generic SyntaxKind.BinaryExpression
                    [Generic SyntaxKind.PropertyAccessExpression
                       [name; identifier "__type"];
                     encodedType]]]
      | None => throw "TypeError"
      end
  end).

Definition decorateArrow (fuel : nat) (expression : Node) : T Node :=
  bind (getTypeOfType fuel expression) (fun encodedType =>
  match encodedType with
  | None => ret expression
  | Some encodedType => ret (objectAssign expression encodedType)
  end).

(** The host's [visitNode]: the visitor must answer with one node. *)
Definition visitNode (visitor : Node -> T (list Node)) (node : Node) : T Node :=
  bind (visitor node) (fun visited =>
  match visited with
  | [single] => ret single
  | _ => throw "Too many nodes written to output."
  end).

(** The host's [visitNodes]: arrays returned by the visitor are spread. *)
Definition visitNodes (visitor : Node -> T (list Node)) (nodes : list Node)
  : T (list Node) :=
  foldM nodes [] (fun visited node =>
    bind (visitor node) (fun result => ret (visited ++ result))).

Definition visitOptional (visitor : Node -> T (list Node))
    (node : option Node) : T (option Node) :=
  match node with
  | Some node => bind (visitNode visitor node) (fun n => ret (Some n))
  | None => ret None
  end.

(** The host's [visitEachChild], on the children that can hold a class,
    a function, a call or a declaration; type annotations hold none and
    come back as they are. *)
Definition visitEachChild (visitor : Node -> T (list Node)) (node : Node)
  : T Node :=
  match node with
  | ClassLikeDeclaration kind id name typeParameters members =>
      bind (visitNodes visitor members) (fun members =>
      ret (ClassLikeDeclaration kind id name typeParameters members))
  | FunctionLikeDeclaration kind id name modifiers typeParameters parameters
      type body =>
      bind (foldM parameters [] (fun visited parameter =>
              match parameter with
              | mkParameter pname questionToken pmodifiers ptype initializer =>
                  bind (visitOptional visitor initializer) (fun initializer =>
                  ret (visited ++ [mkParameter pname questionToken pmodifiers
                                     ptype initializer]))
              end)) (fun parameters =>
      bind (visitNodes visitor body) (fun body =>
      ret (FunctionLikeDeclaration kind id name modifiers typeParameters
             parameters type body)))
  | PropertyDeclaration id name questionToken modifiers type initializer =>
      bind (visitOptional visitor initializer) (fun initializer =>
      ret (PropertyDeclaration id name questionToken modifiers type initializer))
  | CallExpression expression typeArguments arguments =>
      bind (visitNode visitor expression) (fun expression =>
      bind (visitNodes visitor arguments) (fun arguments =>
      ret (CallExpression expression typeArguments arguments)))
  | Generic kind children =>
      bind (visitNodes visitor children) (fun children =>
      ret (Generic kind children))
  | _ => ret node
  end.

Definition autoTypeFunctions : list string :=
  ["valuesOf"; "propertiesOf"; "typeOf"].

(** [typeParameters.findIndex(v => v.name.text === name)]. *)
Fixpoint findIndexFrom (typeParameters : list TypeParameterDeclaration)
    (name : string) (i : nat) : option nat :=
  match typeParameters with
  | [] => None
  | p :: rest =>
      if String.eqb (tp_name p) name then Some i
      else findIndexFrom rest name (S i)
  end.

(** The name [X] of a parameter typed [ReceiveType<X>]. *)
Definition receiveTypeName (type : option Node) : option string :=
  match type with
  | Some (TypeReference (Identifier _ text) (Some typeArguments)) =>
      if String.eqb text "ReceiveType" then
        match typeArguments with
        | TypeReference (Identifier _ name) _ :: _ => Some name
        | _ => None
        end
      else None
  | _ => None
  end.

(** The outcome of the loop over the parameters of the called function:
    either the call is given up ([return node]) or the arguments go on.  A
    type parameter without a type argument at its position makes
    [getTypeOfType(undefined)] fail in the host. *)
Fixpoint injectReceiveTypes (fuel : nat)
    (typeParameters : list TypeParameterDeclaration)
    (callTypeArguments : list Node)
    (parameters : list ParameterDeclaration) (i : nat)
    (args : list Node) (replaced : bool) : T (option (list Node * bool)) :=
  match parameters with
  | [] => ret (Some (args, replaced))
  | mkParameter _ _ _ type _ :: rest =>
      let args :=
        match List.nth_error args i with
        | Some _ => args
        | None => args ++ [identifier "undefined"]
        end in
      match receiveTypeName type with
      | Some name =>
          match findIndexFrom typeParameters name 0 with
          | Some index =>
              match List.nth_error callTypeArguments index with
              | Some typeArgument =>
                  bind (getTypeOfType fuel typeArgument) (fun type =>
                  match type with
                  | None => ret None
                  | Some type =>
                      injectReceiveTypes fuel typeParameters callTypeArguments
                        rest (S i) (<[i := type]> args) true
                  end)
              | None => throw "TypeError"
              end
          | None =>
              injectReceiveTypes fuel typeParameters callTypeArguments
                rest (S i) args replaced
          end
      | None =>
          injectReceiveTypes fuel typeParameters callTypeArguments
            rest (S i) args replaced
      end
  end.

(** The case of a call expression with type arguments. *)
Definition decorateCall (fuel : nat) (node expression : Node)
    (typeArguments arguments : list Node) : T Node :=
  let isAuto :=
    match expression with
    | Name (Identifier _ text) =>
        List.existsb (String.eqb text) autoTypeFunctions
    | _ => false
    end in
  if isAuto then
    let args :=
      match arguments with
      | [] => [Generic SyntaxKind.ArrayLiteralExpression []]
      | _ => arguments
      end in
    match typeArguments with
    | first :: _ =>
        bind (getTypeOfType fuel first) (fun type =>
        match type with
        | None => ret node
        | Some type =>
            ret (CallExpression expression (Some typeArguments) (args ++ [type]))
        end)
    | [] => throw "TypeError"
    end
  else
    match resolveDeclaration expression with
    | Some (mkResolved
              (FunctionLikeDeclaration SyntaxKind.FunctionDeclaration _ _ _
                 (Some typeParameters) parameters _ _) _) =>
        bind (injectReceiveTypes fuel typeParameters typeArguments
                parameters 0 arguments false) (fun result =>
        match result with
        | None => ret node
        | Some (args, true) =>
            ret (CallExpression expression (Some typeArguments) args)
        | Some (_, false) => ret node
        end)
    | _ => ret node
    end.

(** The first visitor of [transformSourceFile]. *)
Fixpoint visitor (fuel : nat) (depth : nat) (node : Node) {struct depth}
  : T (list Node) :=
  match depth with
  | O => outOfFuel
  | S depth' =>
      bind (visitEachChild (visitor fuel depth') node) (fun node =>
      match node with
      | ClassLikeDeclaration _ _ _ _ _ =>
          bind (decorateClass fuel node) (fun n => ret [n])
      | FunctionLikeDeclaration SyntaxKind.FunctionExpression _ _ _ _ _ _ _ =>
          bind (decorateFunctionExpression fuel node) (fun n => ret [n])
      | FunctionLikeDeclaration SyntaxKind.FunctionDeclaration _ _ _ _ _ _ _ =>
          decorateFunctionDeclaration fuel node
      | FunctionLikeDeclaration SyntaxKind.ArrowFunction _ _ _ _ _ _ _ =>
          bind (decorateArrow fuel node) (fun n => ret [n])
      | CallExpression expression (Some typeArguments) arguments =>
          bind (decorateCall fuel node expression typeArguments arguments)
               (fun n => ret [n])
      | _ => ret [node]
      end)
  end.

(** [typeProgram.pushTemplateParameter(param.name.text)] for every type
    parameter, then the body: the program of one hoisted declaration. *)
Definition compileDeclaration (fuel : nat) (node : Node) : T (option Node) :=
  match node with
  | TypeAliasDeclaration _ _ typeParameters type =>
      compileType fuel (pushTemplateParameters typeParameters tp_name) type
  | InterfaceDeclaration _ _ typeParameters _ _ =>
      compileType fuel (pushTemplateParameters typeParameters tp_name) node
  | _ => ret None
  end.

(** The visitor [compileDeclarations] of the hoisting pass. *)
Fixpoint compileDeclarationsVisitor (fuel : nat) (depth : nat) (node : Node)
    {struct depth} : T (list Node) :=
  match depth with
  | O => outOfFuel
  | S depth' =>
      bind (visitEachChild (compileDeclarationsVisitor fuel depth') node)
           (fun node =>
      bind get (fun this_ =>
      match ReflectionTransformer.compileDeclarations this_ !! identityOf node with
      | Some d =>
          if isTypeAliasDeclaration node || isInterfaceDeclaration node then
            bind (modify (fun t =>
                    ReflectionTransformer.set_compileDeclarations t
                      (delete (identityOf node)
                         (ReflectionTransformer.compileDeclarations t))))
                 (fun _ =>
            bind (compileDeclaration fuel node) (fun typeProgramExpression =>
            ret [node;
                 VariableStatement (getDeclarationVariableName d)
                   typeProgramExpression]))
          else ret [node]
      | None => ret [node]
      end))
  end.

(** [while (this.compileDeclarations.size > 0)
      this.sourceFile = visitNode(this.sourceFile, compileDeclarations)].
    The branch [if (this.embedDeclarations.size) { }] that follows the loop
    in the source is empty: nothing is done with [embedDeclarations]. *)
Fixpoint hoistLoop (fuel depth : nat) (loops : nat) : T unit :=
  bind get (fun this_ =>
  if bool_decide (ReflectionTransformer.compileDeclarations this_ = ∅)
  then ret tt
  else
    match loops with
    | O => outOfFuel
    | S loops' =>
        bind (visitNode (compileDeclarationsVisitor fuel depth)
                (ReflectionTransformer.sourceFile this_)) (fun sourceFile =>
        bind (modify (fun t => ReflectionTransformer.set_sourceFile t sourceFile))
             (fun _ =>
        hoistLoop fuel depth loops'))
    end).

Definition transformSourceFile (fuel depth loops : nat) (sourceFile : Node)
  : T Node :=
  bind (modify (fun t => ReflectionTransformer.set_sourceFile t sourceFile))
       (fun _ =>
  bind get (fun this_ =>
  if String.eqb (findReflectionConfig this_ sourceFile) "never"
  then ret sourceFile
  else
    bind (visitNode (visitor fuel depth)
            (ReflectionTransformer.sourceFile this_)) (fun visited =>
    bind (modify (fun t => ReflectionTransformer.set_sourceFile t visited))
         (fun _ =>
    bind (hoistLoop fuel depth loops) (fun _ =>
    bind get (fun this_ => ret (ReflectionTransformer.sourceFile this_))))))).

End Host.

(** ** Reading an op sequence *)

(** The table [OPs]: the number of inline operands of an op. *)
Definition OPs (op : Z) : option nat :=
  if List.existsb (Z.eqb op)
       [opcode op_literal; opcode op_pointer; opcode op_arg;
        opcode op_classReference; opcode op_propertySignature;
        opcode op_property; opcode op_jump; opcode op_enum;
        opcode op_template; opcode op_call; opcode op_inline;
        opcode op_defaultValue; opcode op_parameter; opcode op_method;
        opcode op_description; opcode op_numberBrand]
  then Some 1%nat
  else if List.existsb (Z.eqb op)
            [opcode op_mappedType; opcode op_inlineCall; opcode op_loads;
             opcode op_infer]
  then Some 2%nat
  else None.

(** The loop of [debugPackStruct]: each op with the operands that follow
    it. *)
Fixpoint instructionsFrom (fuel : nat) (ops : list Z) : list (Z * list Z) :=
  match fuel with
  | O => []
  | S fuel' =>
      match ops with
      | [] => []
      | op :: rest =>
          let params := match OPs op with Some n => n | None => O end in
          (op, List.firstn params rest)
            :: instructionsFrom fuel' (List.skipn params rest)
      end
  end.

Definition instructions (ops : list Z) : list (Z * list Z) :=
  instructionsFrom (List.length ops) ops.

(** The operands of the instructions with a given op. *)
Definition operandsOf (op : ReflectionOp) (ops : list Z) : list (list Z) :=
  List.map snd (List.filter (fun i => Z.eqb (fst i) (opcode op)) (instructions ops)).

(** ** Histories of a compiler program *)

(** The fields of a [CompilerProgram] are protected: a program changes only
    through calls of its methods. *)
Inductive Call : Type :=
| CallPushOp (ops : list Z)
| CallPushOpAtFrame (frame : Frame) (ops : list Z)
| CallPushStack (item : StackEntry)
| CallFindOrAddStackEntry (entry : StackEntry)
| CallIncreaseStackPosition
| CallPushFrame (implicit : bool)
| CallPushConditionalFrame
| CallPopFrame
| CallPushCoRoutine
| CallPopCoRoutine
| CallPushVariable (name : string) (frame : FrameRef)
| CallPushTemplateParameter (name : string).

Definition discard {S A : Type} (m : M S A) : M S unit :=
  bind m (fun _ => ret tt).

Definition perform (c : Call) : M CompilerProgram.t unit :=
  match c with
  | CallPushOp ops => CompilerProgram.pushOp ops
  | CallPushOpAtFrame frame ops => CompilerProgram.pushOpAtFrame frame ops
  | CallPushStack item => discard (CompilerProgram.pushStack item)
  | CallFindOrAddStackEntry entry =>
      discard (CompilerProgram.findOrAddStackEntry entry)
  | CallIncreaseStackPosition => discard CompilerProgram.increaseStackPosition
  | CallPushFrame implicit => discard (CompilerProgram.pushFrame implicit)
  | CallPushConditionalFrame => CompilerProgram.pushConditionalFrame
  | CallPopFrame => CompilerProgram.popFrame
  | CallPushCoRoutine => CompilerProgram.pushCoRoutine
  | CallPopCoRoutine => discard CompilerProgram.popCoRoutine
  | CallPushVariable name frame => discard (CompilerProgram.pushVariable name frame)
  | CallPushTemplateParameter name =>
      discard (CompilerProgram.pushTemplateParameter name)
  end.

(** A program is reachable when a sequence of calls that all return leads to
    it from a new program. *)
Definition reachable (p : CompilerProgram.t) : Prop :=
  exists calls : list Call,
    forEach calls perform CompilerProgram.new = Returned (tt, p).

(** The buffer that receives pushed ops: the ops of the last open
    coroutine, or the main buffer when none is open. *)
Definition activeBuffer (p : CompilerProgram.t) : list Z :=
  match CompilerProgram.lastCoRoutine p with
  | Some co => CompilerProgram.co_ops co
  | None => CompilerProgram.ops p
  end.

(** What a change [f] of the active buffer does to a program. *)
Definition editBuffer (f : list Z -> list Z) (p : CompilerProgram.t)
  : CompilerProgram.t :=
  if negb (Nat.eqb (List.length (CompilerProgram.activeCoRoutines p)) 0)
  then CompilerProgram.updateLastCoRoutine p f
  else CompilerProgram.set_ops p (f (CompilerProgram.ops p)).

(** [frame.variables.push({ index, name })]. *)
Definition bindVariable (name : string) (index : Z) (f : Frame) : Frame :=
  mkFrame (variables f ++ [(name, index)]) (opIndex f) (conditional f)
          (previous f).


(** The ops of the completed coroutines, in the order of completion. *)
Definition coRoutineOps (p : CompilerProgram.t) : list Z :=
  List.concat (List.map CompilerProgram.co_ops (CompilerProgram.coRoutines p)).

(** ** Trees that the first visitor leaves alone *)

(** The initializers of the parameters of a function. *)
Definition parameterInitializers (parameters : list ParameterDeclaration)
  : list Node :=
  List.concat
    (List.map (fun p => match p with
                        | mkParameter _ _ _ _ (Some initializer) => [initializer]
                        | mkParameter _ _ _ _ None => []
                        end) parameters).


(** ** Hoisted bindings in a tree *)

Definition isVariableStatement (node : Node) : bool :=
  match node with VariableStatement _ _ => true | _ => false end.

(** A type alias or interface declaration of identity [i]. *)
Definition isDeclaration (i : Z) (node : Node) : bool :=
  (isTypeAliasDeclaration node || isInterfaceDeclaration node)
  && Z.eqb (identityOf node) i.

(** In the list, a declaration of identity [i] is immediately followed by a
    variable statement. *)
Fixpoint bindingFollows (i : Z) (nodes : list Node) : bool :=
  match nodes with
  | [] => false
  | d :: rest =>
      (isDeclaration i d
       && match rest with
          | b :: _ => isVariableStatement b
          | [] => false
          end)
      || bindingFollows i rest
  end.

(** The children of a node that the host visits as an array. *)
Definition nodeArray (node : Node) : list Node :=
  match node with
  | ClassLikeDeclaration _ _ _ _ members => members
  | FunctionLikeDeclaration _ _ _ _ _ _ _ body => body
  | CallExpression _ _ arguments => arguments
  | Generic _ children => children
  | _ => []
  end.

(** The children of a node that the host visits one by one. *)
Definition singleChildren (node : Node) : list Node :=
  match node with
  | FunctionLikeDeclaration _ _ _ _ _ parameters _ _ =>
      parameterInitializers parameters
  | PropertyDeclaration _ _ _ _ _ (Some initializer) => [initializer]
  | CallExpression expression _ _ => [expression]
  | _ => []
  end.

(** [hoisted i node]: somewhere in the tree, the declaration of identity [i]
    is immediately followed by a variable statement. *)
Inductive hoisted (i : Z) : Node -> Prop :=
| hoisted_here (node : Node) :
    bindingFollows i (nodeArray node) = true -> hoisted i node
| hoisted_in_array (node child : Node) :
    In child (nodeArray node) -> hoisted i child -> hoisted i node
| hoisted_in_child (node child : Node) :
    In child (singleChildren node) -> hoisted i child -> hoisted i node.

(** The same for the nodes a visitor returns. *)
Definition hoistedAmong (i : Z) (nodes : list Node) : Prop :=
  bindingFollows i nodes = true \/ exists n, In n nodes /\ hoisted i n.

(** [queued i this]: the declaration of identity [i] is in the compile-local
    queue. *)
Definition queued (i : Z) (this_ : ReflectionTransformer.t) : Prop :=
  is_Some (ReflectionTransformer.compileDeclarations this_ !! i).

#[global] Instance Expression_eq_dec : EqDecision Expression.
Proof. solve_decision. Defined.

#[global] Instance StackEntry_eq_dec : EqDecision StackEntry.
Proof. solve_decision. Defined.

(** The number of top-level statements of a source file that bind the
    hoisted name of [name]. *)
Definition hoistedBindings (name : EntityName) (sourceFile : Node) : nat :=
  List.length
    (List.filter
       (fun statement =>
          match statement with
          | VariableStatement n _ =>
              bool_decide (n = getDeclarationVariableName name)
          | _ => false
          end)
       (nodeArray sourceFile)).

(** ** Vocabulary of the properties *)

(** A call raises when its outcome is a thrown [Error]. *)
Definition raises {S A : Type} (m : M S A) (s : S) : Prop :=
  exists message : string, m s = Thrown message.

(** The main offset counts the two values of the [jump] prelude and the
    ops of the completed coroutines; it is [0] while there is none. *)
Definition offsetInvariant (p : CompilerProgram.t) : Prop :=
  match CompilerProgram.coRoutines p with
  | [] => CompilerProgram.mainOffset p = 0
  | _ :: _ =>
      CompilerProgram.mainOffset p = 2 + Z.of_nat (List.length (coRoutineOps p))
  end.

(** A computation that leaves the completed coroutines and the main
    offset alone. *)
Definition keepsCompleted {A : Type} (m : M CompilerProgram.t A) : Prop :=
  forall p a p', m p = Returned (a, p') ->
    CompilerProgram.coRoutines p' = CompilerProgram.coRoutines p
    /\ CompilerProgram.mainOffset p' = CompilerProgram.mainOffset p.

(** A walker computation that takes nothing out of the compile-local
    queue. *)
Definition keepsQueue {A : Type} (m : W A) : Prop :=
  forall w a w', m w = Returned (a, w') ->
    forall i, queued i (this w) -> queued i (this w').

(** The same for a computation of the transformer. *)
Definition keepsQueueT {A : Type} (m : T A) : Prop :=
  forall t a t', m t = Returned (a, t') ->
    forall i, queued i t -> queued i t'.

(** What the hoisting visitor may return for [node]: the node as it is
    after its children were visited, followed or not by one variable
    statement.  A type alias or interface declaration comes back as it is, a
    variable statement comes back alone, and what was hoisted stays so. *)
Definition visitShape (node : Node) (result : list Node) : Prop :=
  exists node',
    (result = [node']
     \/ exists name initializer,
          result = [node'; VariableStatement name initializer])
    /\ (isTypeAliasDeclaration node || isInterfaceDeclaration node = true ->
        node' = node)
    /\ (isVariableStatement node = true -> result = [node])
    /\ (forall i, hoisted i node -> hoisted i node').

(** A declaration that leaves the queue during a visit is hoisted in what
    the visit returns. *)
Definition visitQueue (t t' : ReflectionTransformer.t) (result : list Node)
  : Prop :=
  forall i, queued i t -> queued i t' \/ hoistedAmong i result.

(** The specification of a visitor. *)
Definition hoistingVisitor (v : Node -> T (list Node)) : Prop :=
  forall node t result t',
    v node t = Returned (result, t') ->
    visitShape node result /\ visitQueue t t' result.

(** ** Vocabulary of the invariants *)

(** The stack position is the length of the stack: [pushStack] then returns
    the index of the entry it pushed. *)
Definition stackAligned (p : CompilerProgram.t) : Prop :=
  CompilerProgram.stackPosition p
  = Z.of_nat (List.length (CompilerProgram.stack p)).

(** The number of coroutines that are open. *)
Definition openCoRoutines (p : CompilerProgram.t) : nat :=
  List.length (CompilerProgram.activeCoRoutines p).

(** [within Q mayThrow m]: when [m] returns, the states before and after
    are related by [Q]; [m] throws only if [mayThrow] holds. *)
Definition within (Q : WalkState -> WalkState -> Prop) (mayThrow : Prop)
    {A : Type} (m : W A) : Prop :=
  forall w,
    match m w with
    | Returned (_, w') => Q w w'
    | Thrown _ => mayThrow
    | OutOfFuel => True
    end.

(** A relation between programs, as a relation between the states of a
    walk. *)
Definition onPrograms (R : CompilerProgram.t -> CompilerProgram.t -> Prop)
    (w w' : WalkState) : Prop :=
  R (program w) (program w').

(** The calls the walker makes on a program: it never makes room on the
    stack with [increaseStackPosition], and it reaches [pushOpAtFrame] only
    through [pushVariable]. *)
Definition walkerCall (c : Call) : bool :=
  match c with
  | CallPushOpAtFrame _ _ | CallIncreaseStackPosition => false
  | _ => true
  end.

(** [l'] is [l] with more at its end. *)
Definition extends {A : Type} (l l' : list A) : Prop :=
  exists rest, l' = l ++ rest.

(** What stays of a program's stack and of its completed coroutines: both
    only grow at their end, and an aligned stack stays aligned. *)
Definition appendOnly (p p' : CompilerProgram.t) : Prop :=
  extends (CompilerProgram.stack p) (CompilerProgram.stack p')
  /\ extends (CompilerProgram.coRoutines p) (CompilerProgram.coRoutines p')
  /\ (stackAligned p -> stackAligned p').

(** As many coroutines are open after as before. *)
Definition balanced (w w' : WalkState) : Prop :=
  openCoRoutines (program w') = openCoRoutines (program w).

(** What a call that only edits ops and frames leaves alone: the stack and
    its position, the completed coroutines, the main offset, and the number
    of open coroutines. *)
Definition sameStore (p p' : CompilerProgram.t) : Prop :=
  CompilerProgram.stack p' = CompilerProgram.stack p
  /\ CompilerProgram.stackPosition p' = CompilerProgram.stackPosition p
  /\ CompilerProgram.coRoutines p' = CompilerProgram.coRoutines p
  /\ CompilerProgram.mainOffset p' = CompilerProgram.mainOffset p
  /\ openCoRoutines p' = openCoRoutines p.

Definition keepsStore {A : Type} (m : M CompilerProgram.t A) : Prop :=
  forall p a p', m p = Returned (a, p') -> sameStore p p'.


(** [noneQueued queue depth node]: down to [depth] levels, no type alias
    and no interface declaration of the tree is in the queue. *)
Fixpoint noneQueued (queue : gmap Z EntityName) (depth : nat) (node : Node)
  : bool :=
  match depth with
  | O => false
  | S depth' =>
      negb ((isTypeAliasDeclaration node || isInterfaceDeclaration node)
            && bool_decide (is_Some (queue !! identityOf node)))
      && List.forallb (noneQueued queue depth') (nodeArray node)
      && List.forallb (noneQueued queue depth') (singleChildren node)
  end.

(** What a walk may do to the transformer: add to the two queues and to
    the set of imports to keep, and nothing else. *)
Definition growsOnly (t t' : ReflectionTransformer.t) : Prop :=
  ReflectionTransformer.sourceFile t' = ReflectionTransformer.sourceFile t
  /\ ReflectionTransformer.reflectionMode t'
     = ReflectionTransformer.reflectionMode t
  /\ (forall i, is_Some (ReflectionTransformer.compileDeclarations t !! i) ->
                is_Some (ReflectionTransformer.compileDeclarations t' !! i))
  /\ (forall i, is_Some (ReflectionTransformer.embedDeclarations t !! i) ->
                is_Some (ReflectionTransformer.embedDeclarations t' !! i))
  /\ ReflectionTransformer.synthesized t ⊆ ReflectionTransformer.synthesized t'.

(** Whether a callee is one of [valuesOf], [propertiesOf] and [typeOf]. *)
Definition isAutoTypeFunction (expression : Node) : bool :=
  match expression with
  | Name (Identifier _ text) => List.existsb (String.eqb text) autoTypeFunctions
  | _ => false
  end.


(** ** Walks that stay inside the tree *)

(** [finishes m]: the call is not cut off; it returns or throws. *)
Definition finishes {A : Type} (m : W A) : Prop :=
  forall w, m w <> OutOfFuel.

Definition optionToList {A : Type} (o : option A) : list A :=
  match o with Some a => [a] | None => [] end.

(** The type of a parameter, when the walker looks at it. *)
Definition typeOfParameter (parameter : ParameterDeclaration) : list Node :=
  match parameter with
  | mkParameter (BindingIdentifier _) _ _ (Some type) _ => [type]
  | _ => []
  end.

(** The nodes below a node that the walker may go on with. *)
Definition walkedChildren (node : Node) : list Node :=
  match node with
  | ParenthesizedType type => [type]
  | ClassLikeDeclaration _ _ _ _ members => members
  | IntersectionType types => types
  | UnionType types => types
  | MappedType typeParameter _ _ type =>
      optionToList (tp_constraint typeParameter) ++ optionToList type
  | TypeLiteral _ members => members
  | InterfaceDeclaration _ _ _ _ members => members
  | TypeReference _ typeArguments =>
      match typeArguments with Some typeArguments => typeArguments | None => [] end
  | ArrayType elementType => [elementType]
  | PropertySignature _ _ _ _ type => optionToList type
  | PropertyDeclaration _ _ _ _ type _ => optionToList type
  | ConditionalType checkType extendsType trueType falseType =>
      [checkType; extendsType; trueType; falseType]
  | FunctionLikeDeclaration _ _ _ _ _ parameters type _ =>
      List.flat_map typeOfParameter parameters ++ optionToList type
  | IndexSignature parameterType type => optionToList parameterType ++ [type]
  | TypeOperator _ type => [type]
  | IndexedAccessType objectType indexType => [objectType; indexType]
  | _ => []
  end.

(** The declarations that a type reference names without walking them. *)
Definition referencedByName (declaration : Node) : bool :=
  match declaration with
  | TypeAliasDeclaration _ _ _ _
  | InterfaceDeclaration _ _ _ _ _
  | TypeLiteral _ _
  | EnumDeclaration _ _
  | ClassLikeDeclaration SyntaxKind.ClassDeclaration _ _ _ _ => true
  | _ => false
  end.

(** Whether the walker may, at this node, go on with a declaration that the
    resolver found: the declaration of a type reference that is not
    referenced by name, or an interface that an interface extends. *)
Definition followsResolver (resolveDeclaration : Node -> option Resolved)
    (node : Node) : bool :=
  match node with
  | TypeReference typeName _ =>
      match resolveDeclaration (Name typeName) with
      | Some resolved => negb (referencedByName (resolvedDeclaration resolved))
      | None => false
      end
  | InterfaceDeclaration _ _ _ (Some heritageClauses) _ =>
      List.existsb
        (fun heritage =>
           match heritage with
           | mkHeritageClause _ types =>
               List.existsb
                 (fun extendType =>
                    match resolveDeclaration extendType with
                    | Some resolved =>
                        isInterfaceDeclaration (resolvedDeclaration resolved)
                    | None => false
                    end) types
           end) heritageClauses
  | _ => false
  end.

(** [walkable resolveDeclaration depth node]: the walk of [node] is at most
    [depth] calls deep and follows the resolver nowhere.  The closure
    [extractMembers] of a type literal or an interface is one call deeper
    than the node itself. *)
Fixpoint walkable (resolveDeclaration : Node -> option Resolved)
    (depth : nat) (node : Node) : bool :=
  match depth with
  | O => false
  | S depth' =>
      negb (followsResolver resolveDeclaration node)
      && match node, depth' with
         | TypeLiteral _ _, O => false
         | InterfaceDeclaration _ _ _ _ _, O => false
         | _, _ => true
         end
      && List.forallb (walkable resolveDeclaration depth') (walkedChildren node)
  end.
(** ** Resolving an imported name through the module graph *)

Module Resolution.

(** An element of [export { propertyName as name }]: [element.name.text]
    and, when it is there, [element.propertyName.text]. *)
Record ExportSpecifier : Type := mkExportSpecifier {
  exportedName : string;
  propertyName : option string
}.

(** [statement.exportClause]: named exports, or [* as name]. *)
Inductive ExportClause : Type :=
| NamedExports (elements : list ExportSpecifier)
| NamespaceExport (name : string).

(** [importOrExport.moduleSpecifier], a string literal or another
    expression. *)
Inductive ModuleSpecifier : Type :=
| StringLiteralSpecifier (text : string)
| OtherSpecifier.

(** An import or export declaration, as far as it is read here; [id] is
    the identity of the node. *)
Record ImportOrExport : Type := mkImportOrExport {
  nodeId : Z;
  moduleSpecifier : option ModuleSpecifier;
  exportClause : option ExportClause
}.

(** A symbol of the host with its declarations, if it has any. *)
Record Symbol : Type := mkSymbol {
  declarations : option (list Node)
}.

Inductive Statement : Type :=
| ExportDeclaration (declaration : ImportOrExport)
| OtherStatement.

(** A source file: its table of locals, when the node has one, and its
    statements. *)
Record SourceFile : Type := mkSourceFile {
  locals : option (gmap string Symbol);
  statements : list Statement
}.

Definition findDeclarationInFile (sourceFile : SourceFile)
    (declarationName : string) : option Node :=
  match locals sourceFile with
  | Some locals =>
      match locals !! declarationName with
      | Some declarationSymbol =>
          match declarations declarationSymbol with
          | Some (first :: _) => Some first
          | _ => None
          end
      | None => None
      end
  | None => None
  end.

(** [for (const x of xs) { const found = f(x); if (found) return found; }
     return;]. *)
Fixpoint firstFound {A B : Type} (xs : list A) (f : A -> Outcome (option B))
  : Outcome (option B) :=
  match xs with
  | [] => Returned None
  | x :: rest =>
      match f x with
      | Returned (Some found) => Returned (Some found)
      | Returned None => firstFound rest f
      | Thrown e => Thrown e
      | OutOfFuel => OutOfFuel
      end
  end.

(** Whether a statement is an export declaration that may pass on [name]:
    [export * from] may pass on any name, [export { ... } from] the names
    of its elements, and [export * as ns from] none. *)
Definition mentions (name : string) (statement : Statement) : bool :=
  match statement with
  | OtherStatement => false
  | ExportDeclaration declaration =>
      match exportClause declaration with
      | None => true
      | Some (NamedExports elements) =>
          List.existsb (fun element => String.eqb (exportedName element) name)
            elements
      | Some (NamespaceExport _) => false
      end
  end.

(** The message of the error that the engine throws when its call stack is
    exhausted. *)
Definition stackOverflow : string :=
  "RangeError: Maximum call stack size exceeded".

Section Resolver.
(** [resolver.getExternalModuleFileFromDeclaration], a service of the host
    compiler. *)
Variable getExternalModuleFileFromDeclaration : ImportOrExport -> option SourceFile.

(** [resolveImportSpecifier] calls itself for every re-export it follows.
    [room] is the number of nested calls that the call stack of the engine
    still has room for: a call for which there is none throws the
    [RangeError] of the engine. *)
Fixpoint resolveImportSpecifier (room : nat) (declarationName : string)
    (importOrExport : ImportOrExport) : Outcome (option Node) :=
  match room with
  | O => Thrown stackOverflow
  | S room' =>
      match moduleSpecifier importOrExport with
      | Some (StringLiteralSpecifier _) =>
          match getExternalModuleFileFromDeclaration importOrExport with
          | None => Returned None
          | Some source =>
              match findDeclarationInFile source declarationName with
              | Some declaration => Returned (Some declaration)
              | None =>
                  firstFound (statements source) (fun statement =>
                    match statement with
                    | OtherStatement => Returned None
                    | ExportDeclaration statement =>
                        match exportClause statement with
                        | Some (NamedExports elements) =>
                            firstFound elements (fun element =>
                              if String.eqb (exportedName element)
                                   declarationName
                              then
                                resolveImportSpecifier room'
                                  (match propertyName element with
                                   | Some name => name
                                   | None => declarationName
                                   end)
                                  statement
                              else Returned None)
                        | Some (NamespaceExport _) => Returned None
                        | None =>
                            resolveImportSpecifier room' declarationName
                              statement
                        end
                    end)
              end
          end
      | _ => Returned None
      end
  end.

(** [declares e declaration]: the module that [e] names declares
    [declaration] as the first declaration of one of its locals. *)
Definition declares (e : ImportOrExport) (declaration : Node) : Prop :=
  exists source name,
    getExternalModuleFileFromDeclaration e = Some source
    /\ findDeclarationInFile source name = Some declaration.

(** [reexports e e']: the module that [e] names has the export
    declaration [e'] among its statements. *)
Definition reexports (e e' : ImportOrExport) : Prop :=
  exists source,
    getExternalModuleFileFromDeclaration e = Some source
    /\ In (ExportDeclaration e') (statements source).

(** The export declarations reached from [e] through re-exports. *)
Inductive reaches (e : ImportOrExport) : ImportOrExport -> Prop :=
| reaches_here : reaches e e
| reaches_through (middle e' : ImportOrExport) :
    reaches e middle -> reexports middle e' -> reaches e e'.

(** [exported name e k declaration]: the search for [name] from [e]
    finds [declaration] after [k] re-exports, each the first statement of
    its module that mentions the name: the module of [e] declares it, or
    passes it on with [export * from] or with
    [export { inner as name } from], after statements that are no export
    declarations, that are [export * as ns from], or that are
    [export { ... } from] without the name. *)
Inductive exported : string -> ImportOrExport -> nat -> Node -> Prop :=
| exported_here (name : string) (e : ImportOrExport) (text : string)
    (source : SourceFile) (declaration : Node) :
    moduleSpecifier e = Some (StringLiteralSpecifier text) ->
    getExternalModuleFileFromDeclaration e = Some source ->
    findDeclarationInFile source name = Some declaration ->
    exported name e O declaration
| exported_star (name : string) (e e' : ImportOrExport) (text : string)
    (source : SourceFile) (before after : list Statement) (k : nat)
    (declaration : Node) :
    moduleSpecifier e = Some (StringLiteralSpecifier text) ->
    getExternalModuleFileFromDeclaration e = Some source ->
    findDeclarationInFile source name = None ->
    statements source = before ++ ExportDeclaration e' :: after ->
    Forall (fun statement => mentions name statement = false) before ->
    exportClause e' = None ->
    exported name e' k declaration ->
    exported name e (S k) declaration
| exported_named (name : string) (e e' : ImportOrExport) (text : string)
    (source : SourceFile) (before after : list Statement)
    (elements others later : list ExportSpecifier)
    (element : ExportSpecifier) (k : nat) (declaration : Node) :
    moduleSpecifier e = Some (StringLiteralSpecifier text) ->
    getExternalModuleFileFromDeclaration e = Some source ->
    findDeclarationInFile source name = None ->
    statements source = before ++ ExportDeclaration e' :: after ->
    Forall (fun statement => mentions name statement = false) before ->
    exportClause e' = Some (NamedExports elements) ->
    elements = others ++ element :: later ->
    Forall (fun other => exportedName other <> name) others ->
    exportedName element = name ->
    exported (match propertyName element with
              | Some inner => inner
              | None => name
              end) e' k declaration ->
    exported name e (S k) declaration.

(** [onCycle name loop]: the module of each [e] of [loop] does not declare
    [name], and the first of its statements that mentions the name is an
    [export * from] that is in [loop] as well. *)
Definition onCycle (name : string) (loop : ImportOrExport -> Prop) : Prop :=
  forall e, loop e ->
    exists text source before e' after,
      moduleSpecifier e = Some (StringLiteralSpecifier text)
      /\ getExternalModuleFileFromDeclaration e = Some source
      /\ findDeclarationInFile source name = None
      /\ statements source = before ++ ExportDeclaration e' :: after
      /\ Forall (fun statement => mentions name statement = false) before
      /\ exportClause e' = None
      /\ loop e'.

End Resolver.

End Resolution.


(** ** A host for the worked inputs *)

Module Sample.
Local Open Scope string_scope.

Definition getNameAsString (name : option PropertyName) : string :=
  match name with
  | Some (PnIdentifier text) => text
  | Some (PnStringLiteral text) => text
  | Some (PnNumericLiteral text) => text
  | Some (PnPrivateIdentifier text) => text
  | _ => ""
  end.

Definition getPropertyName (name : option PropertyName) : StackEntry :=
  match name with
  | Some (PnComputed id) => SeExpression (EArrowFunction (ENode id ""))
  | _ => SeString (codeUnits (getNameAsString name))
  end.

Definition hasModifier (modifiers : list SyntaxKind.t) (kind : SyntaxKind.t)
  : bool :=
  List.existsb (SyntaxKind.eqb kind) modifiers.

Definition extractJSDocAttribute (node : Node) (attribute : string) : string :=
  "".

(** No JSDoc tag anywhere. *)
Definition noTags (node : Node) : list (list JSDocTag) := [[]].

(** A transformer created [withReflectionMode('default')]. *)
Definition transformer : ReflectionTransformer.t :=
  ReflectionTransformer.new (Some "default").

(** The walker and the transformer over this host, for a given answer of
    the declaration resolver; the members of [TypeNumberBrand] are taken
    to be [0], [1] and [2]. *)
Definition walk (resolveDeclaration : Node -> option Resolved)
  : nat -> Node -> W unit :=
  extractPackStructOfType getNameAsString getPropertyName hasModifier
    extractJSDocAttribute resolveDeclaration noTags [] 0 1 2.

Definition transform (resolveDeclaration : Node -> option Resolved)
    (getJSDocTags : Node -> list (list JSDocTag))
  : nat -> nat -> nat -> Node -> T Node :=
  transformSourceFile getNameAsString getPropertyName hasModifier
    extractJSDocAttribute resolveDeclaration getJSDocTags [] 0 1 2.

(** A resolver that finds no declaration. *)
Definition unresolved (name : Node) : option Resolved := None.

Definition keyword (kind : SyntaxKind.t) : Node := Token kind.

Definition parameter (name : string) (type : Node) : ParameterDeclaration :=
  mkParameter (BindingIdentifier name) false [] (Some type) None.

(** [function f(a: string, b: string & number) {}]. *)
Definition functionWithIntersection : Node :=
  FunctionLikeDeclaration SyntaxKind.FunctionDeclaration 1
    (Some (PnIdentifier "f")) [] None
    [parameter "a" (keyword SyntaxKind.StringKeyword);
     parameter "b" (IntersectionType [keyword SyntaxKind.StringKeyword;
                                      keyword SyntaxKind.NumberKeyword])]
    None [].

(** [function f(a: string, b: string | number) {}]. *)
Definition functionWithUnion : Node :=
  FunctionLikeDeclaration SyntaxKind.FunctionDeclaration 1
    (Some (PnIdentifier "f")) [] None
    [parameter "a" (keyword SyntaxKind.StringKeyword);
     parameter "b" (UnionType [keyword SyntaxKind.StringKeyword;
                               keyword SyntaxKind.NumberKeyword])]
    None [].

(** [string extends (infer X | { a: infer X }) ? X : never]. *)
Definition conditionalWithTwoInfers : Node :=
  ConditionalType
    (keyword SyntaxKind.StringKeyword)
    (UnionType
       [InferType "X";
        TypeLiteral 5
          [PropertySignature 6 (PnIdentifier "a") false []
             (Some (InferType "X"))]])
    (TypeReference (Identifier 7 "X") None)
    (keyword SyntaxKind.NeverKeyword).

(** The program the walker leaves behind, if it returns. *)
Definition walked (resolveDeclaration : Node -> option Resolved)
    (fuel : nat) (node : Node) : Outcome CompilerProgram.t :=
  match walk resolveDeclaration fuel node (mkWalk transformer CompilerProgram.new) with
  | Returned (_, w) => Returned (program w)
  | Thrown e => Thrown e
  | OutOfFuel => OutOfFuel
  end.


(** A resolver that knows the given declarations by name. *)
Definition resolveIn (declarations : list (string * Resolved)) (name : Node)
  : option Resolved :=
  match name with
  | Name (Identifier _ text) =>
      option_map snd
        (List.find (fun d => String.eqb (fst d) text) declarations)
  | _ => None
  end.

Definition reference (id : Z) (name : string) : Node :=
  TypeReference (Identifier id name) None.

Definition sourceFileOf (statements : list Node) : Node :=
  Generic SyntaxKind.SourceFile statements.

(** [type A = A[];] *)
Definition selfReferentialAlias : Node :=
  TypeAliasDeclaration 1 "A" None (ArrayType (reference 2 "A")).

(** [function f(a: A) {}] *)
Definition functionOfA : Node :=
  FunctionLikeDeclaration SyntaxKind.FunctionDeclaration 3
    (Some (PnIdentifier "f")) [] None [parameter "a" (reference 4 "A")]
    None [].

(** [function f(a: A) {}  type A = A[];] *)
Definition recursiveFile : Node :=
  sourceFileOf [functionOfA; selfReferentialAlias].

Definition recursiveResolver : Node -> option Resolved :=
  resolveIn [("A", mkResolved selfReferentialAlias None)].

(** [f.__type = ...], the statement the first visitor adds after [f]. *)
Definition typeOfFunctionOfA : Node :=
  Generic SyntaxKind.ExpressionStatement
    [Generic SyntaxKind.BinaryExpression
       [Generic SyntaxKind.PropertyAccessExpression
          [Name (Identifier 3 "f"); identifier "__type"];
        ValueExpression
          (PArray [SeExpression (EIdentifier (hoistPrefix ++ codeUnits "A")%list);
                   SeString (codeUnits "a"); SeString (codeUnits "f");
                   SeString [99; 33; 47; 34; 34; 44; 35]])]].

(** The hoisted binding of [A], whose program is [inline 0, array]. *)
Definition bindingOfA : Node :=
  VariableStatement (SeExpression (EIdentifier (hoistPrefix ++ codeUnits "A")%list))
    (Some (ValueExpression
             (PArray [SeExpression (EIdentifier (hoistPrefix ++ codeUnits "A")%list);
                      SeString [99; 33; 65]]))).

(** The file after the first visitor and [k] hoisting passes. *)
Definition recursiveFileAfter (k : nat) : Node :=
  sourceFileOf ([functionOfA; typeOfFunctionOfA; selfReferentialAlias]
                  ++ List.repeat bindingOfA k)%list.

(** The transformer at that point: [A] is in the compile-local queue, under
    the name of the reference that put it there last. *)
Definition recursiveStateAfter (k : nat) (name : EntityName)
  : ReflectionTransformer.t :=
  ReflectionTransformer.mk (recursiveFileAfter k) (Some "default")
    {[ 1 := name ]} ∅ ∅.

(** The hoisting visitor and loop over this host. *)
Definition hoistingPass (resolveDeclaration : Node -> option Resolved)
  : nat -> nat -> Node -> T (list Node) :=
  compileDeclarationsVisitor getNameAsString getPropertyName hasModifier
    extractJSDocAttribute resolveDeclaration noTags [] 0 1 2.

Definition hoisting (resolveDeclaration : Node -> option Resolved)
  : nat -> nat -> nat -> T unit :=
  hoistLoop getNameAsString getPropertyName hasModifier
    extractJSDocAttribute resolveDeclaration noTags [] 0 1 2.

(** [type A = string;] and [type B = A;] *)
Definition aliasA : Node :=
  TypeAliasDeclaration 11 "A" None (keyword SyntaxKind.StringKeyword).

Definition aliasB : Node :=
  TypeAliasDeclaration 12 "B" None (reference 13 "A").

(** [type I = number;], declared in another file and imported here. *)
Definition importedI : Node :=
  TypeAliasDeclaration 20 "I" None (keyword SyntaxKind.NumberKeyword).

(** [function g(x: A, y: B, i: I) {}] *)
Definition functionOfABI : Node :=
  FunctionLikeDeclaration SyntaxKind.FunctionDeclaration 14
    (Some (PnIdentifier "g")) [] None
    [parameter "x" (reference 15 "A"); parameter "y" (reference 16 "B");
     parameter "i" (reference 17 "I")]
    None [].

(** [import { I } from './i';  type A = string;  type B = A;
     function g(x: A, y: B, i: I) {}] (the import is left out: the
    transformer does not look at it). *)
Definition aliasesFile : Node :=
  sourceFileOf [aliasA; aliasB; functionOfABI].

Definition aliasesResolver : Node -> option Resolved :=
  resolveIn [("A", mkResolved aliasA None); ("B", mkResolved aliasB None);
             ("I", mkResolved importedI (Some 21))].

(** The transformer after the first visitor went over [aliasesFile]: the
    visited file is its source file, and [A] and [B] are in the
    compile-local queue. *)
Definition aliasesVisited : ReflectionTransformer.t :=
  match visitNode
          (visitor getNameAsString getPropertyName hasModifier
             extractJSDocAttribute aliasesResolver noTags [] 0 1 2 10 10)
          aliasesFile
          (ReflectionTransformer.set_sourceFile transformer aliasesFile) with
  | Returned (visited, t) => ReflectionTransformer.set_sourceFile t visited
  | _ => transformer
  end.

(** What [transformSourceFile] returns, and the queues it leaves. *)
Definition transformed (resolveDeclaration : Node -> option Resolved)
    (getJSDocTags : Node -> list (list JSDocTag)) (fuel depth loops : nat)
    (sourceFile : Node) : Outcome (Node * ReflectionTransformer.t) :=
  transform resolveDeclaration getJSDocTags fuel depth loops sourceFile
    transformer.

Definition reflectionTag (mode : string) : JSDocTag :=
  mkJSDocTag "reflection" (Some mode).

(** [m = () => {}], a property whose initializer is an arrow function. *)
Definition arrow : Node :=
  FunctionLikeDeclaration SyntaxKind.ArrowFunction 32 None [] None [] None [].


(** The tags of
    [/** @reflection never */ class C { /** @reflection always */ m = ...}]:
    the parsed class sees [never], and the arrow function sees [always]
    before it.  A node that the node factory made, as the class that
    [visitEachChild] builds around a member that has changed, has no JSDoc
    and no parent: it sees no tag. *)
Definition taggedClass (node : Node) : list (list JSDocTag) :=
  match node with
  | ClassLikeDeclaration _ 30 _ _
      [PropertyDeclaration 31 _ _ _ _
         (Some (FunctionLikeDeclaration SyntaxKind.ArrowFunction 32 _ _ _ _ _ _))] =>
      [[reflectionTag "never"]]
  | FunctionLikeDeclaration SyntaxKind.ArrowFunction 32 _ _ _ _ _ _ =>
      [[]; [reflectionTag "always"]; [reflectionTag "never"]]
  | _ => [[]]
  end.



End Sample.

(** ** Worked walks *)

Module Worked.

(** The state a walk over the sample host leaves, started on a new
    program. *)
Definition walkedState (resolveDeclaration : Node -> option Resolved)
    (fuel : nat) (node : Node) : WalkState :=
  match Sample.walk resolveDeclaration fuel node
          (mkWalk Sample.transformer CompilerProgram.new) with
  | Returned (_, w) => w
  | _ => mkWalk Sample.transformer CompilerProgram.new
  end.

(** After [string extends (infer X | { a: infer X }) ? X : never]. *)
Definition afterConditional : WalkState :=
  Eval vm_compute in
    walkedState Sample.unresolved 10 Sample.conditionalWithTwoInfers.

(** After [function f(a: string, b: string | number) {}]. *)
Definition afterFunction : WalkState :=
  Eval vm_compute in
    walkedState Sample.unresolved 10 Sample.functionWithUnion.

End Worked.

Module WorkedPrograms.

(** [pushOp(string); pushCoRoutine(); pushOp(number)]. *)
Definition coRoutineCalls : list Call :=
  [CallPushOp [opcode op_string]; CallPushCoRoutine;
   CallPushOp [opcode op_number]].

(** The program after these calls: one coroutine is open. *)
Definition openCoRoutine : CompilerProgram.t :=
  Eval vm_compute in
    match forEach coRoutineCalls perform CompilerProgram.new with
    | Returned (_, p) => p
    | _ => CompilerProgram.new
    end.

(** The same program after [popCoRoutine()]. *)
Definition closedCoRoutine : CompilerProgram.t :=
  Eval vm_compute in
    match CompilerProgram.popCoRoutine openCoRoutine with
    | Returned (_, p) => p
    | _ => CompilerProgram.new
    end.

End WorkedPrograms.

Module WorkedMembers.



End WorkedMembers.

Module WorkedModules.
Import Resolution.

(** [type T = string;], declared in [./b]. *)
Definition declarationOfT : Node :=
  TypeAliasDeclaration 50 "T" None (Token SyntaxKind.StringKeyword).

(** [import { T } from './a';] *)
Definition importFromA : ImportOrExport :=
  mkImportOrExport 1 (Some (StringLiteralSpecifier "./a")) None.

(** [export * from './b';], a statement of [./a]. *)
Definition starFromB : ImportOrExport :=
  mkImportOrExport 2 (Some (StringLiteralSpecifier "./b")) None.

(** [export * from './c';], a statement of [./d]. *)
Definition starFromC : ImportOrExport :=
  mkImportOrExport 4 (Some (StringLiteralSpecifier "./c")) None.

(** [export * from './d';], a statement of [./c]. *)
Definition starFromD : ImportOrExport :=
  mkImportOrExport 5 (Some (StringLiteralSpecifier "./d")) None.

(** [export * as all from './b';], a statement of [./a]. *)
Definition namespaceFromB : ImportOrExport :=
  mkImportOrExport 6 (Some (StringLiteralSpecifier "./b"))
    (Some (NamespaceExport "all")).

(** [export { U as V } from './b';], a statement of [./a]. *)
Definition namedFromB : ImportOrExport :=
  mkImportOrExport 7 (Some (StringLiteralSpecifier "./b"))
    (Some (NamedExports [mkExportSpecifier "V" (Some "U"%string)])).

(** [./a]: a statement that is no export declaration, then
    [export * as all from './b'; export { U as V } from './b';
     export * from './b';]. *)
Definition fileA : SourceFile :=
  mkSourceFile (Some ∅)
    [OtherStatement; ExportDeclaration namespaceFromB;
     ExportDeclaration namedFromB; ExportDeclaration starFromB].

Definition fileB : SourceFile :=
  mkSourceFile (Some {[ "T"%string := mkSymbol (Some [declarationOfT]) ]}) [].

(** [./c] and [./d] re-export each other and declare nothing. *)
Definition fileC : SourceFile :=
  mkSourceFile (Some ∅) [ExportDeclaration starFromD].

Definition fileD : SourceFile :=
  mkSourceFile (Some ∅) [ExportDeclaration starFromC].

(** The module each declaration names. *)
Definition moduleOf (e : ImportOrExport) : option SourceFile :=
  match moduleSpecifier e with
  | Some (StringLiteralSpecifier text) =>
      if String.eqb text "./a" then Some fileA
      else if String.eqb text "./b" then Some fileB
      else if String.eqb text "./c" then Some fileC
      else if String.eqb text "./d" then Some fileD
      else None
  | _ => None
  end.

End WorkedModules.

Module WorkedCalls.

(** [function g<T>(a: string, type?: ReceiveType<T>) {}]. *)
Definition genericFunction : Node :=
  FunctionLikeDeclaration SyntaxKind.FunctionDeclaration 60
    (Some (PnIdentifier "g")) [] (Some [mkTypeParameter "T" None])
    [Sample.parameter "a" (Token SyntaxKind.StringKeyword);
     mkParameter (BindingIdentifier "type") true []
       (Some (TypeReference (Identifier 61 "ReceiveType")
                (Some [TypeReference (Identifier 62 "T") None])))
       None]
    None [].

Definition callee : Node := Name (Identifier 63 "g").

(** [g<string>()]. *)
Definition call : Node :=
  CallExpression callee (Some [Token SyntaxKind.StringKeyword]) [].

Definition resolver : Node -> option Resolved :=
  Sample.resolveIn [("g"%string, mkResolved genericFunction None)].

(** What [decorateCall] makes of the call. *)
Definition decorated : Node * ReflectionTransformer.t :=
  Eval vm_compute in
    match decorateCall Sample.getNameAsString Sample.getPropertyName
            Sample.hasModifier Sample.extractJSDocAttribute resolver
            Sample.noTags [] 0 1 2 10 call callee
            [Token SyntaxKind.StringKeyword] [] Sample.transformer with
    | Returned r => r
    | _ => (call, Sample.transformer)
    end.

End WorkedCalls.

(** * Properties *)

(** ** Sequencing *)

(** A computation that returns hands its value and state to what follows. *)
Lemma bind_eq {S A B : Type} (m : M S A) (k : A -> M S B) (s s' : S) (a : A) :
  m s = Returned (a, s') -> bind m k s = k a s'.
Proof. intros H. unfold bind. now rewrite H. Qed.

(** A thrown error skips what follows. *)
Lemma bind_thrown {S A B : Type} (m : M S A) (k : A -> M S B) (s : S)
    (message : string) :
  m s = Thrown message -> bind m k s = Thrown message.
Proof. intros H. unfold bind. now rewrite H. Qed.

Lemma bind_outOfFuel {S A B : Type} (m : M S A) (k : A -> M S B) (s : S) :
  m s = OutOfFuel -> bind m k s = OutOfFuel.
Proof. intros H. unfold bind. now rewrite H. Qed.

(** What is known of a sequence that returned. *)
Lemma bind_returned {S A B : Type} (m : M S A) (k : A -> M S B) (s s' : S)
    (b : B) :
  bind m k s = Returned (b, s') ->
  exists a s1, m s = Returned (a, s1) /\ k a s1 = Returned (b, s').
Proof.
  unfold bind. destruct (m s) as [[a s1]| |]; try discriminate.
  intros H. now exists a, s1.
Qed.

(** ** Packing and unpacking *)

Section Encoding.

Lemma unpackOps_app (decoded : list Z) (encoded : JsString) :
  unpackOps decoded encoded = decoded ++ List.map (fun c => c - 33) encoded.
Proof.
  revert decoded; induction encoded as [|c rest IH]; intros decoded; simpl.
  - now rewrite app_nil_r.
  - rewrite IH, <- app_assoc. reflexivity.
Qed.

(** The encoded string of [pack], code unit by code unit. *)
Lemma encode_units (ops : list Z) :
  join (List.map (fun v => fromCharCode (v + 33)) ops)
  = List.map (fun v => ToUint16 (v + 33)) ops.
Proof.
  unfold join. induction ops as [|v ops IH]; simpl; [reflexivity|].
  now rewrite IH.
Qed.

(** Decoding undoes encoding as long as [v + 33] is a code unit. *)
Lemma decode_encode (ops : list Z) :
  Forall (fun v => 0 <= v + 33 < 65536) ops ->
  unpackOps [] (join (List.map (fun v => fromCharCode (v + 33)) ops)) = ops.
Proof.
  intros Hrange. rewrite unpackOps_app, encode_units. simpl.
  induction Hrange as [|v ops Hv _ IH]; simpl; [reflexivity|].
  rewrite IH. f_equal. unfold ToUint16. rewrite Z.mod_small by lia. lia.
Qed.

Lemma lastItem_snoc (items : list StackEntry) (x : StackEntry) :
  lastItem (items ++ [x]) = Some x.
Proof.
  unfold lastItem. rewrite List.map_app. simpl. apply List.last_last.
Qed.

Lemma sliceButLast_snoc (items : list StackEntry) (x : StackEntry) :
  sliceButLast (items ++ [x]) = items.
Proof. unfold sliceButLast. apply List.removelast_last. Qed.

Lemma packSize_value : packSize = 64.
Proof. reflexivity. Qed.

End Encoding.

(** C1. For every pack structure whose op values (inline operands included)
    lie in the packable range [0, packSize), [unpack (pack struct)] is the
    structure itself: the same op sequence and the same stack entries in the
    same order. *)
Theorem unpack_pack_roundtrip (struct : PackStruct) :
  Forall (fun v => 0 <= v < packSize) (ps_ops struct) ->
  unpack (pack (OfStruct struct)) = struct.
Proof.
  intros Hrange.
  assert (Hunits : Forall (fun v => 0 <= v + 33 < 65536) (ps_ops struct)).
  { eapply Forall_impl; [exact Hrange|]. simpl. intros v.
    rewrite packSize_value. lia. }
  destruct struct as [ops stack]. cbn [ps_ops] in *.
  unfold pack. cbn [ps_ops ps_stack].
  destruct stack as [|e stack'] eqn:Estack.
  - unfold unpack. now rewrite decode_encode.
  - rewrite <- Estack. unfold unpack. rewrite lastItem_snoc.
    rewrite decode_encode by assumption.
    rewrite sliceButLast_snoc, List.length_app.
    replace (1 <? Z.of_nat (List.length stack + List.length [SeString (join (List.map (fun v => fromCharCode (v + 33)) ops))])) with true.
    + reflexivity.
    + symmetry. apply Z.ltb_lt. rewrite Estack. simpl. lia.
Qed.

Lemma unpack_pack_roundtrip_witness :
  unpack (pack (OfStruct (mkPackStruct [3; 15; 0; 18] [SeString (codeUnits "title")])))
  = mkPackStruct [3; 15; 0; 18] [SeString (codeUnits "title")].
Proof.
  apply unpack_pack_roundtrip. simpl.
  repeat constructor; vm_compute; congruence.
Defined.

(** C10. [unpack] returns a pack structure for every payload and throws on
    none.  On an array whose last element is not a string (the empty array
    included) it returns the empty pack structure, and on an array that
    holds the encoded string alone it returns the decoded ops with an empty
    stack. *)
Theorem unpack_total (items : list StackEntry) (encoded : JsString)
    (Hlast : forall s : JsString, lastItem items <> Some (SeString s)) :
  unpack (PArray items) = mkPackStruct [] []
  /\ unpack (PArray [SeString encoded])
     = mkPackStruct (List.map (fun c => c - 33) encoded) [].
Proof.
  split.
  - unfold unpack. destruct (lastItem items) as [[e|t|s|n|b]|] eqn:E;
      try reflexivity.
    exfalso. exact (Hlast s eq_refl).
  - unfold unpack. simpl. now rewrite unpackOps_app.
Qed.

Lemma unpack_total_witness :
  unpack (PArray [SeString [36]; SeNumber 7]) = mkPackStruct [] []
  /\ unpack (PArray [SeString [36; 37]]) = mkPackStruct [3; 4] [].
Proof.
  apply (unpack_total [SeString [36]; SeNumber 7] [36; 37]).
  intros s. vm_compute. congruence.
Defined.

(** ** The compiler program *)

Section ProgramFacts.

Lemma unshiftCoRoutines_firstn (cos : list CompilerProgram.CoRoutine)
    (n : nat) (ops : list Z) :
  (n <= List.length cos)%nat ->
  CompilerProgram.unshiftCoRoutines cos n ops
  = List.concat (List.map CompilerProgram.co_ops (List.firstn n cos)) ++ ops.
Proof.
  revert ops. induction n as [|i IH]; intros ops Hn; simpl; [reflexivity|].
  destruct (List.nth_error cos i) as [co|] eqn:Hco.
  - rewrite IH by lia.
    assert (Hfirst : List.firstn (S i) cos = List.firstn i cos ++ [co]).
    { clear IH Hn ops. revert i Hco.
      induction cos as [|c cos IHc]; intros [|i] Hco; simpl in *;
        try discriminate.
      - now inversion Hco.
      - f_equal. now apply IHc. }
    change (match cos with [] => [] | a :: l => a :: List.firstn i l end)
      with (List.firstn (S i) cos).
    rewrite Hfirst, List.map_app, List.concat_app. simpl.
    rewrite app_nil_r, <- app_assoc. reflexivity.
  - apply List.nth_error_None in Hco. lia.
Qed.

Lemma unshiftCoRoutines_all (cos : list CompilerProgram.CoRoutine)
    (ops : list Z) :
  CompilerProgram.unshiftCoRoutines cos (List.length cos) ops
  = List.concat (List.map CompilerProgram.co_ops cos) ++ ops.
Proof.
  rewrite unshiftCoRoutines_firstn by lia. now rewrite List.firstn_all.
Qed.

Lemma updateLastCoRoutine_completed (p : CompilerProgram.t)
    (f : list Z -> list Z) :
  CompilerProgram.coRoutines (CompilerProgram.updateLastCoRoutine p f)
  = CompilerProgram.coRoutines p
  /\ CompilerProgram.mainOffset (CompilerProgram.updateLastCoRoutine p f)
     = CompilerProgram.mainOffset p.
Proof.
  unfold CompilerProgram.updateLastCoRoutine.
  destruct (CompilerProgram.lastCoRoutine p); split; reflexivity.
Qed.

Lemma keepsCompleted_bind {A B : Type} (m : M CompilerProgram.t A)
    (k : A -> M CompilerProgram.t B) :
  keepsCompleted m -> (forall a, keepsCompleted (k a)) ->
  keepsCompleted (bind m k).
Proof.
  intros Hm Hk p b p' H. unfold bind in H.
  destruct (m p) as [[a p1]| |] eqn:E; try discriminate.
  destruct (Hm _ _ _ E) as [H1 H2]. destruct (Hk a _ _ _ H) as [H3 H4].
  split; congruence.
Qed.

Lemma keepsCompleted_ret {A : Type} (a : A) : keepsCompleted (ret a).
Proof. intros p b p' H. inversion H. auto. Qed.

Lemma keepsCompleted_pushOp ops : keepsCompleted (CompilerProgram.pushOp ops).
Proof.
  intros p a p' H. unfold CompilerProgram.pushOp in H.
  destruct (negb _); inversion H; subst; clear H.
  - apply updateLastCoRoutine_completed.
  - split; reflexivity.
Qed.

Lemma keepsCompleted_pushOpAtFrame frame ops :
  keepsCompleted (CompilerProgram.pushOpAtFrame frame ops).
Proof.
  intros p a p' H. unfold CompilerProgram.pushOpAtFrame in H.
  destruct (negb _); inversion H; subst; clear H.
  - apply updateLastCoRoutine_completed.
  - split; reflexivity.
Qed.

Lemma keepsCompleted_pushStack item :
  keepsCompleted (CompilerProgram.pushStack item).
Proof. intros p a p' H. inversion H. split; reflexivity. Qed.

Lemma keepsCompleted_findOrAddStackEntry entry :
  keepsCompleted (CompilerProgram.findOrAddStackEntry entry).
Proof.
  intros p a p' H. unfold CompilerProgram.findOrAddStackEntry in H.
  destruct (negb _).
  - inversion H. auto.
  - eapply keepsCompleted_pushStack; eauto.
Qed.

Lemma keepsCompleted_pushFrame implicit :
  keepsCompleted (CompilerProgram.pushFrame implicit).
Proof.
  apply keepsCompleted_bind.
  - destruct implicit; simpl.
    + apply keepsCompleted_ret.
    + apply keepsCompleted_pushOp.
  - intros _ p a p' H. inversion H. split; reflexivity.
Qed.

Lemma keepsCompleted_modify_frame (f : CompilerProgram.t -> Frame) :
  keepsCompleted (modify (fun p => CompilerProgram.set_frame p (f p))).
Proof. intros p a p' H. inversion H. split; reflexivity. Qed.

Lemma keepsCompleted_popFrame : keepsCompleted CompilerProgram.popFrame.
Proof.
  intros p a p' H. unfold CompilerProgram.popFrame in H.
  destruct (previous _); inversion H; split; reflexivity.
Qed.

Lemma keepsCompleted_pushVariable name frame :
  keepsCompleted (CompilerProgram.pushVariable name frame).
Proof.
  intros p a p' H. unfold CompilerProgram.pushVariable in H.
  destruct (frameAt _ _) as [target|]; [|inversion H; auto].
  destruct (CompilerProgram.pushOpAtFrame target _ p) as [[u p1]| |] eqn:E;
    try discriminate.
  apply keepsCompleted_pushOpAtFrame in E. inversion H; subst. exact E.
Qed.

Lemma keepsCompleted_pushTemplateParameter name :
  keepsCompleted (CompilerProgram.pushTemplateParameter name).
Proof.
  apply keepsCompleted_bind; [apply keepsCompleted_findOrAddStackEntry|].
  intros idx. apply keepsCompleted_bind; [apply keepsCompleted_pushOp|].
  intros _ p a p' H. inversion H. split; reflexivity.
Qed.

Lemma offsetInvariant_keeps (p p' : CompilerProgram.t) :
  CompilerProgram.coRoutines p' = CompilerProgram.coRoutines p ->
  CompilerProgram.mainOffset p' = CompilerProgram.mainOffset p ->
  offsetInvariant p -> offsetInvariant p'.
Proof.
  unfold offsetInvariant, coRoutineOps. intros -> ->. auto.
Qed.

Lemma offsetInvariant_popCoRoutine (p p' : CompilerProgram.t) (start : Z) :
  CompilerProgram.popCoRoutine p = Returned (start, p') ->
  offsetInvariant p -> offsetInvariant p'.
Proof.
  unfold CompilerProgram.popCoRoutine. intros H Hinv.
  destruct (CompilerProgram.lastCoRoutine p) as [co|]; [|discriminate].
  destruct (CompilerProgram.popFrame _) as [[u p2]| |] eqn:Epop;
    try discriminate.
  apply keepsCompleted_popFrame in Epop. simpl in Epop.
  destruct Epop as [Hcos Hoff].
  inversion H; subst; clear H.
  unfold offsetInvariant, coRoutineOps in *. rewrite <- Hcos, <- Hoff in Hinv.
  destruct (CompilerProgram.mainOffset p2 =? 0) eqn:Ez; simpl.
  - apply Z.eqb_eq in Ez.
    destruct (CompilerProgram.coRoutines p2) as [|c cs] eqn:Ecs; simpl.
    + simpl. rewrite ?app_nil_r, ?List.length_app. simpl. lia.
    + rewrite Ez in Hinv. exfalso. lia.
  - apply Z.eqb_neq in Ez.
    destruct (CompilerProgram.coRoutines p2) as [|c cs] eqn:Ecs; simpl.
    + contradiction.
    + rewrite Hinv. simpl.
      rewrite List.map_app, List.concat_app. simpl.
      rewrite ?app_nil_r, ?List.length_app. simpl.
      rewrite ?List.length_app. simpl. lia.
Qed.

Lemma offsetInvariant_perform (c : Call) (p p' : CompilerProgram.t) :
  perform c p = Returned (tt, p') -> offsetInvariant p -> offsetInvariant p'.
Proof.
  intros H Hinv.
  assert (Hkeep : forall (A : Type) (m : M CompilerProgram.t A),
             keepsCompleted m -> discard m p = Returned (tt, p') ->
             offsetInvariant p').
  { intros A m Hm Hd. unfold discard in Hd.
    apply (keepsCompleted_bind m (fun _ => ret tt) Hm
             (fun _ => keepsCompleted_ret tt)) in Hd.
    destruct Hd. eapply offsetInvariant_keeps; eauto. }
  assert (Hkeep' : forall (m : M CompilerProgram.t unit),
             keepsCompleted m -> m p = Returned (tt, p') ->
             offsetInvariant p').
  { intros m Hm Hd. apply Hm in Hd. destruct Hd.
    eapply offsetInvariant_keeps; eauto. }
  destruct c; simpl in H.
  - eapply Hkeep'; [apply keepsCompleted_pushOp|eauto].
  - eapply Hkeep'; [apply keepsCompleted_pushOpAtFrame|eauto].
  - eapply Hkeep; [apply keepsCompleted_pushStack|eauto].
  - eapply Hkeep; [apply keepsCompleted_findOrAddStackEntry|eauto].
  - unfold discard, bind, CompilerProgram.increaseStackPosition, ret in H.
    inversion H; subst. exact Hinv.
  - eapply Hkeep; [apply keepsCompleted_pushFrame|eauto].
  - eapply Hkeep'; [|eauto]. apply keepsCompleted_bind.
    + apply keepsCompleted_pushFrame.
    + intros ref. apply keepsCompleted_modify_frame.
  - eapply Hkeep'; [apply keepsCompleted_popFrame|eauto].
  - eapply Hkeep'; [|eauto]. apply keepsCompleted_bind.
    + apply keepsCompleted_pushFrame.
    + intros _ q a q' Hq. inversion Hq. split; reflexivity.
  - unfold discard, bind in H.
    destruct (CompilerProgram.popCoRoutine p) as [[s p1]| |] eqn:E;
      try discriminate.
    inversion H; subst. eapply offsetInvariant_popCoRoutine; eauto.
  - eapply Hkeep; [apply keepsCompleted_pushVariable|eauto].
  - eapply Hkeep; [apply keepsCompleted_pushTemplateParameter|eauto].
Qed.

Lemma offsetInvariant_forEach (calls : list Call) (p p' : CompilerProgram.t) :
  forEach calls perform p = Returned (tt, p') ->
  offsetInvariant p -> offsetInvariant p'.
Proof.
  revert p. induction calls as [|c calls IH]; intros p H Hinv; simpl in H.
  - inversion H; subst. exact Hinv.
  - unfold bind in H.
    destruct (perform c p) as [[[] p1]| |] eqn:E; try discriminate.
    eapply IH; [exact H|]. eapply offsetInvariant_perform; eauto.
Qed.

Lemma offsetInvariant_reachable (p : CompilerProgram.t) :
  reachable p -> offsetInvariant p.
Proof.
  intros [calls H]. eapply offsetInvariant_forEach; [exact H|]. reflexivity.
Qed.

End ProgramFacts.

(** C6. In the pack structure built from a reachable program with at least
    one completed coroutine, the ops are [jump, mainOffset], then the
    completed coroutines in their order of completion, then the main
    buffer, and [mainOffset] is the index of the first value after the last
    coroutine; without a completed coroutine the ops are the main buffer. *)
Theorem buildPackStruct_layout (p : CompilerProgram.t) (Hreach : reachable p) :
  (CompilerProgram.coRoutines p <> [] ->
     ps_ops (CompilerProgram.buildPackStruct p)
     = [opcode op_jump; CompilerProgram.mainOffset p]
         ++ coRoutineOps p ++ CompilerProgram.ops p
     /\ CompilerProgram.mainOffset p
        = Z.of_nat (List.length ([opcode op_jump; CompilerProgram.mainOffset p]
                                   ++ coRoutineOps p)))
  /\ (CompilerProgram.coRoutines p = [] ->
        ps_ops (CompilerProgram.buildPackStruct p) = CompilerProgram.ops p).
Proof.
  apply offsetInvariant_reachable in Hreach.
  unfold offsetInvariant in Hreach. unfold CompilerProgram.buildPackStruct.
  split.
  - intros Hne. destruct (CompilerProgram.coRoutines p) as [|c cs] eqn:Ecs;
      [contradiction|].
    rewrite <- Ecs. rewrite unshiftCoRoutines_all.
    assert (Hlen : Z.of_nat (List.length (coRoutineOps p)) >= 0) by lia.
    replace (CompilerProgram.mainOffset p =? 0) with false
      by (symmetry; apply Z.eqb_neq; lia).
    rewrite Ecs at 1. simpl negb. cbn [ps_ops]. split.
    + reflexivity.
    + rewrite List.length_app. simpl List.length. lia.
  - intros He. rewrite He in *. simpl. rewrite Hreach. reflexivity.
Qed.

Lemma buildPackStruct_layout_witness :
  exists p : CompilerProgram.t,
    CompilerProgram.coRoutines p <> []
    /\ ps_ops (CompilerProgram.buildPackStruct p)
       = [opcode op_jump; CompilerProgram.mainOffset p]
           ++ coRoutineOps p ++ CompilerProgram.ops p
    /\ CompilerProgram.mainOffset p = 4.
Proof.
  pose (calls := [CallPushOp [opcode op_string]; CallPushCoRoutine;
                  CallPushOp [opcode op_number]; CallPopCoRoutine;
                  CallPushOp [opcode op_array]]).
  destruct (forEach calls perform CompilerProgram.new) as [[[] p]| |] eqn:E;
    try (vm_compute in E; discriminate).
  exists p.
  assert (Hreach : reachable p) by (exists calls; exact E).
  vm_compute in E. inversion E; subst p.
  split; [discriminate|].
  split.
  - apply (buildPackStruct_layout _ Hreach). discriminate.
  - reflexivity.
Defined.

(** C5, as the code has it.  Closing a coroutine when none is open throws
    ('No active co routine found'), and the error cuts the walk short.
    Popping a frame when only the root frame is left returns and leaves the
    program as it is, and [pack] checks no range: every value [v] is written
    as the code unit [(v + 33) mod 65536]. *)
Theorem invariant_violations (p q : CompilerProgram.t) (ops : list Z)
    (this_ : ReflectionTransformer.t) (rest : Z -> W unit)
    (Hclosed : CompilerProgram.activeCoRoutines p = [])
    (Hroot : previous (CompilerProgram.frame q) = None) :
  CompilerProgram.popCoRoutine p = Thrown "No active co routine found"
  /\ bind (onProgram CompilerProgram.popCoRoutine) rest (mkWalk this_ p)
     = Thrown "No active co routine found"
  /\ CompilerProgram.popFrame q = Returned (tt, q)
  /\ pack (OfOps ops) = PString (List.map (fun v => (v + 33) mod 65536) ops).
Proof.
  assert (H1 : CompilerProgram.popCoRoutine p = Thrown "No active co routine found").
  { unfold CompilerProgram.popCoRoutine, CompilerProgram.lastCoRoutine.
    now rewrite Hclosed. }
  repeat split.
  - exact H1.
  - unfold bind, onProgram. simpl. now rewrite H1.
  - unfold CompilerProgram.popFrame. now rewrite Hroot.
  - unfold pack. now rewrite encode_units.
Qed.

Lemma invariant_violations_witness :
  CompilerProgram.popCoRoutine CompilerProgram.new
  = Thrown "No active co routine found"
  /\ CompilerProgram.popFrame CompilerProgram.new
     = Returned (tt, CompilerProgram.new).
Proof.
  destruct (invariant_violations CompilerProgram.new CompilerProgram.new []
              Sample.transformer (fun _ => ret tt) eq_refl eq_refl)
    as (H1 & _ & H3 & _).
  split; [exact H1 | exact H3].
Defined.

(** C5 as stated fails: popping the frame of a new program, which has no
    open frame, raises nothing, and neither does packing op values beyond
    the ceiling of 64. *)
Lemma not_every_violation_raises :
  previous (CompilerProgram.frame CompilerProgram.new) = None
  /\ ~ raises CompilerProgram.popFrame CompilerProgram.new
  /\ packSize <= opcode op_extends
  /\ pack (OfOps [opcode op_extends; 65600]) = PString [101; 97].
Proof.
  split; [reflexivity|]. split.
  - intros [message H]. discriminate H.
  - split; [vm_compute; congruence | reflexivity].
Qed.

(** ** Frames and variables *)

Section FrameFacts.

(** Induction along the [previous] links of a frame. *)
Lemma Frame_chain_ind (P : Frame -> Prop) :
  (forall vars index cond, P (mkFrame vars index cond None)) ->
  (forall vars index cond prev,
      P prev -> P (mkFrame vars index cond (Some prev))) ->
  forall f, P f.
Proof.
  intros Hroot Hstep. fix IH 1. intros [vars index cond [prev|]].
  - apply Hstep. apply IH.
  - apply Hroot.
Qed.

Lemma findVariable_offset (f : Frame) (X : string) (o : Z) :
  findVariable f X o
  = option_map (fun v => mkVariableRef (frameOffset v + o) (stackIndex v))
      (findVariable f X 0).
Proof.
  revert o. induction f as [vars index cond|vars index cond prev IH]
    using Frame_chain_ind; intros o; simpl.
  - destruct (findByName vars X); reflexivity.
  - destruct (findByName vars X); [reflexivity|].
    rewrite (IH (o + 1)), (IH (0 + 1)).
    destruct (findVariable prev X 0) as [[fo si]|]; simpl; [|reflexivity].
    f_equal. f_equal. lia.
Qed.

Lemma findByName_snoc (vars : list (string * Z)) (X : string) (index : Z) :
  findByName vars X = None ->
  findByName (vars ++ [(X, index)]) X = Some (X, index).
Proof.
  unfold findByName. induction vars as [|[n i] vars IH]; simpl.
  - intros _. now rewrite String.eqb_refl.
  - destruct (String.eqb n X); [discriminate|]. exact IH.
Qed.

Lemma findVariable_None_here (f : Frame) (X : string) (o : Z) :
  findVariable f X o = None -> findByName (variables f) X = None.
Proof.
  destruct f as [vars index cond prev]. simpl.
  destruct (findByName vars X); [discriminate|reflexivity].
Qed.

(** Binding [X] in the frame at [ref], when no frame of the chain binds
    it yet, makes it found there. *)
Lemma findVariable_bound (ref : FrameRef) (f target : Frame) (X : string)
    (index o : Z) :
  frameAt f ref = Some target ->
  findVariable f X o = None ->
  findVariable (updateFrameAt f ref (bindVariable X index)) X o
  = Some (mkVariableRef (o + Z.of_nat ref) index).
Proof.
  revert f o. induction ref as [|r IH]; intros f o Hat Hnone.
  - simpl. pose proof (findVariable_None_here _ _ _ Hnone) as Hhere.
    destruct f as [vars idx cond prev]. simpl in *.
    rewrite (findByName_snoc _ _ _ Hhere). simpl. f_equal. f_equal. lia.
  - destruct f as [vars idx cond [prev|]]; simpl in *; [|discriminate].
    destruct (findByName vars X); [discriminate|].
    rewrite (IH prev (o + 1) Hat Hnone). f_equal. f_equal. lia.
Qed.

Lemma findConditionalFrame_frameAt (f : Frame) (c : FrameRef) :
  findConditionalFrame f = Some c ->
  exists target, frameAt f c = Some target /\ conditional target = true.
Proof.
  revert c. induction f as [vars index cond|vars index cond prev IH]
    using Frame_chain_ind; intros c; simpl.
  - destruct cond; [|discriminate]. intros H. inversion H; subst.
    eexists; split; reflexivity.
  - destruct cond.
    + intros H. inversion H; subst. eexists; split; reflexivity.
    + destruct (findConditionalFrame prev) as [r|]; [|discriminate].
      simpl. intros H. inversion H; subst. simpl. apply IH. reflexivity.
Qed.


Lemma lastCoRoutine_snoc (p : CompilerProgram.t)
    (cos : list CompilerProgram.CoRoutine) (co : CompilerProgram.CoRoutine) :
  CompilerProgram.lastCoRoutine
    (CompilerProgram.set_activeCoRoutines p (cos ++ [co])) = Some co.
Proof.
  unfold CompilerProgram.lastCoRoutine. simpl.
  rewrite List.map_app. simpl. apply List.last_last.
Qed.

Lemma lastCoRoutine_None (p : CompilerProgram.t) :
  CompilerProgram.lastCoRoutine p = None ->
  CompilerProgram.activeCoRoutines p = [].
Proof.
  unfold CompilerProgram.lastCoRoutine.
  destruct (CompilerProgram.activeCoRoutines p) as [|c cs] using List.rev_ind;
    [reflexivity|].
  rewrite List.map_app. simpl. rewrite List.last_last. discriminate.
Qed.

Lemma lastCoRoutine_Some (p : CompilerProgram.t) (co : CompilerProgram.CoRoutine) :
  CompilerProgram.lastCoRoutine p = Some co ->
  CompilerProgram.activeCoRoutines p <> [].
Proof.
  unfold CompilerProgram.lastCoRoutine. intros H E. rewrite E in H.
  discriminate.
Qed.


Lemma editBuffer_rest (f : list Z -> list Z) (p : CompilerProgram.t) :
  CompilerProgram.frame (editBuffer f p) = CompilerProgram.frame p
  /\ CompilerProgram.stack (editBuffer f p) = CompilerProgram.stack p
  /\ CompilerProgram.stackPosition (editBuffer f p)
     = CompilerProgram.stackPosition p
  /\ CompilerProgram.coRoutines (editBuffer f p) = CompilerProgram.coRoutines p
  /\ CompilerProgram.mainOffset (editBuffer f p) = CompilerProgram.mainOffset p.
Proof.
  unfold editBuffer, CompilerProgram.updateLastCoRoutine.
  destruct (negb _); [destruct (CompilerProgram.lastCoRoutine p)|];
    repeat split; reflexivity.
Qed.

Lemma pushOp_editBuffer (ops : list Z) (p : CompilerProgram.t) :
  CompilerProgram.pushOp ops p = Returned (tt, editBuffer (fun o => o ++ ops) p).
Proof.
  unfold CompilerProgram.pushOp, editBuffer. destruct (negb _); reflexivity.
Qed.

Lemma pushOpAtFrame_editBuffer (frame : Frame) (ops : list Z)
    (p : CompilerProgram.t) :
  CompilerProgram.pushOpAtFrame frame ops p
  = Returned (tt, editBuffer (fun o => splice o (opIndex frame) ops) p).
Proof.
  unfold CompilerProgram.pushOpAtFrame, editBuffer.
  destruct (negb _); reflexivity.
Qed.

End FrameFacts.

(** ** The walker *)

Section WalkerFacts.
Variable getNameAsString : option PropertyName -> string.
Variable getPropertyName : option PropertyName -> StackEntry.
Variable hasModifier : list SyntaxKind.t -> SyntaxKind.t -> bool.
Variable extractJSDocAttribute : Node -> string -> string.
Variable resolveDeclaration : Node -> option Resolved.
Variable getJSDocTags : Node -> list (list JSDocTag).
Variable tsConfigs : list TsConfigProbe.
Variable TypeNumberBrand_integer : Z.
Variable TypeNumberBrand_int8 : Z.
Variable TypeNumberBrand_int16 : Z.

Let walk : nat -> Node -> W unit :=
  extractPackStructOfType getNameAsString getPropertyName hasModifier
    extractJSDocAttribute resolveDeclaration getJSDocTags tsConfigs
    TypeNumberBrand_integer TypeNumberBrand_int8 TypeNumberBrand_int16.

Lemma onProgram_pushOp (ops : list Z) (w : WalkState) :
  pushOp ops w
  = Returned (tt, mkWalk (this w) (editBuffer (fun o => o ++ ops) (program w))).
Proof.
  unfold pushOp, onProgram. now rewrite pushOp_editBuffer.
Qed.

(** A type reference for whose name [this.knownClasses[name]] is
    [undefined] (no name of the table and none that the table inherits),
    that is not [Promise], no numeric brand and no bound variable, and for
    which the declaration resolver finds nothing, makes the walker return
    after it appended the single op [any] to the active buffer; nothing
    else changes and nothing is thrown. *)
Lemma unresolved_reference_emits_any (fuel : nat) (typeName : EntityName)
    (typeArguments : option (list Node)) (w : WalkState)
    (Hclass : forall id text, typeName = Identifier id text ->
                knownClassesLookup text = None /\ text <> "Promise"%string)
    (Hbrand : forall id text, typeName = Identifier id text ->
                text <> "integer"%string /\ text <> "int8"%string
                /\ text <> "int16"%string)
    (Hvariable : forall id text, typeName = Identifier id text ->
                   findVariable (CompilerProgram.frame (program w)) text 0 = None)
    (Hresolve : resolveDeclaration (Name typeName) = None) :
  walk (S fuel) (TypeReference typeName typeArguments) w
  = Returned (tt, mkWalk (this w)
                    (editBuffer (fun o => o ++ [opcode op_any]) (program w))).
Proof.
  destruct w as [t p]. simpl in *.
  unfold walk. simpl. unfold extractPackStructOfTypeReference.
  destruct typeName as [id text|l r].
  - destruct (Hclass id text eq_refl) as [Hk Hp].
    destruct (Hbrand id text eq_refl) as (Hi & Hi8 & Hi16).
    rewrite Hk.
    apply String.eqb_neq in Hp, Hi, Hi8, Hi16.
    rewrite Hp, Hi, Hi8, Hi16.
    unfold bind, onProgram, CompilerProgram.findVariable.
    cbn [program this].
    rewrite (Hvariable id text eq_refl). rewrite Hresolve.
    now rewrite onProgram_pushOp.
  - unfold bind, ret. rewrite Hresolve. now rewrite onProgram_pushOp.
Qed.


End WalkerFacts.

Lemma unresolved_reference_emits_any_witness :
  Sample.walk Sample.unresolved 1 (TypeReference (Identifier 1 "Foo") None)
    (mkWalk Sample.transformer CompilerProgram.new)
  = Returned (tt, mkWalk Sample.transformer
                    (editBuffer (fun o => o ++ [opcode op_any])
                       CompilerProgram.new)).
Proof.
  apply (unresolved_reference_emits_any Sample.getNameAsString
           Sample.getPropertyName Sample.hasModifier
           Sample.extractJSDocAttribute Sample.unresolved Sample.noTags []
           0 1 2 O (Identifier 1 "Foo") None
           (mkWalk Sample.transformer CompilerProgram.new)).
  - intros id text H. inversion H; subst. split; [reflexivity|discriminate].
  - intros id text H. inversion H; subst. repeat split; discriminate.
  - intros id text H. reflexivity.
  - reflexivity.
Defined.


(** C7 fails on the code.  In [function f(a: constructor) {}] the name
    [constructor] is no known class, no numeric brand and no bound
    variable, and the resolver finds no declaration for it; but the lookup
    in the table finds the member that the table inherits under that name,
    and the walker pushes that member, and not the op [any]. *)
Theorem inherited_name_is_taken_for_known_class :
  knownClasses "constructor" = None
  /\ exists p : CompilerProgram.t,
       Sample.walked Sample.unresolved 10
         (TypeReference (Identifier 1 "constructor") None) = Returned p
       /\ CompilerProgram.ops p = [inheritedMember]
       /\ CompilerProgram.ops p <> [opcode op_any].
Proof.
  split; [reflexivity|]. eexists. split; [vm_compute; reflexivity|].
  split; [reflexivity|]. discriminate.
Qed.


(** C4 fails on the code.  Walking [function f(a: string, b: string &
    number) {}] pushes one frame, for the intersection, and pops none: when
    the walker returns, that frame is still the current one.  The same
    function with a union in place of the intersection ends on the root
    frame. *)
Theorem intersection_frame_is_not_popped :
  exists p q : CompilerProgram.t,
    Sample.walked Sample.unresolved 10 Sample.functionWithIntersection
    = Returned p
    /\ CompilerProgram.ops p = [3; 14; 0; 39; 3; 4; 34; 14; 1; 1; 11; 2]
    /\ List.length (operandsOf op_frame (CompilerProgram.ops p)) = 1%nat
    /\ frameDepth (CompilerProgram.frame p) = 1%nat
    /\ CompilerProgram.frame p
       = mkFrame [] 4 false (Some (CompilerProgram.frame CompilerProgram.new))
    /\ Sample.walked Sample.unresolved 10 Sample.functionWithUnion = Returned q
    /\ CompilerProgram.ops q = [3; 14; 0; 39; 3; 4; 33; 14; 1; 1; 11; 2]
    /\ frameDepth (CompilerProgram.frame q) = 0%nat.
Proof.
  eexists. eexists. split; [vm_compute; reflexivity|].
  do 4 (split; [reflexivity|]).
  split; [vm_compute; reflexivity|]. split; reflexivity.
Qed.

(** ** The tree rewriter *)

Section RewriterFacts.
Variable getNameAsString : option PropertyName -> string.
Variable getPropertyName : option PropertyName -> StackEntry.
Variable hasModifier : list SyntaxKind.t -> SyntaxKind.t -> bool.
Variable extractJSDocAttribute : Node -> string -> string.
Variable resolveDeclaration : Node -> option Resolved.
Variable getJSDocTags : Node -> list (list JSDocTag).
Variable tsConfigs : list TsConfigProbe.
Variable TypeNumberBrand_integer : Z.
Variable TypeNumberBrand_int8 : Z.
Variable TypeNumberBrand_int16 : Z.

Let mode : ReflectionTransformer.t -> Node -> string :=
  findReflectionConfig getJSDocTags tsConfigs.

Let walk : nat -> Node -> W unit :=
  extractPackStructOfType getNameAsString getPropertyName hasModifier
    extractJSDocAttribute resolveDeclaration getJSDocTags tsConfigs
    TypeNumberBrand_integer TypeNumberBrand_int8 TypeNumberBrand_int16.

Let typeOf : nat -> Node -> T (option Node) :=
  getTypeOfType getNameAsString getPropertyName hasModifier
    extractJSDocAttribute resolveDeclaration getJSDocTags tsConfigs
    TypeNumberBrand_integer TypeNumberBrand_int8 TypeNumberBrand_int16.




(** Visiting a list of nodes each of which the visitor returns as it is. *)
Lemma visitNodes_unchanged (v : Node -> T (list Node)) (nodes : list Node)
    (this_ : ReflectionTransformer.t) :
  (forall n, In n nodes -> v n this_ = Returned ([n], this_)) ->
  visitNodes v nodes this_ = Returned (nodes, this_).
Proof.
  unfold visitNodes. intros Hall.
  enough (H : forall acc,
             foldM nodes acc
               (fun visited node =>
                  bind (v node) (fun result => ret (visited ++ result))) this_
             = Returned (acc ++ nodes, this_)) by apply (H []).
  induction nodes as [|n nodes IH]; intros acc; cbn [foldM].
  - now rewrite app_nil_r.
  - rewrite (bind_eq _ _ _ _ (acc ++ [n])
               (bind_eq _ _ _ _ _ (Hall n (or_introl eq_refl)))).
    rewrite IH; [now rewrite <- app_assoc|].
    intros m Hm. apply Hall. now right.
Qed.

Lemma visitOptional_unchanged (v : Node -> T (list Node)) (node : option Node)
    (this_ : ReflectionTransformer.t) :
  (forall n, node = Some n -> v n this_ = Returned ([n], this_)) ->
  visitOptional v node this_ = Returned (node, this_).
Proof.
  intros H. destruct node as [n|]; [|reflexivity].
  unfold visitOptional, visitNode.
  rewrite (bind_eq _ _ _ _ n (bind_eq _ _ _ _ _ (H n eq_refl))).
  reflexivity.
Qed.

Lemma visitParameters_unchanged (v : Node -> T (list Node))
    (parameters : list ParameterDeclaration) (this_ : ReflectionTransformer.t) :
  (forall n, In n (parameterInitializers parameters) ->
             v n this_ = Returned ([n], this_)) ->
  foldM parameters []
    (fun visited parameter =>
       match parameter with
       | mkParameter pname questionToken pmodifiers ptype initializer =>
           bind (visitOptional v initializer) (fun initializer =>
           ret (visited ++ [mkParameter pname questionToken pmodifiers ptype
                              initializer]))
       end) this_
  = Returned (parameters, this_).
Proof.
  intros Hall.
  enough (H : forall acc,
             foldM parameters acc
               (fun visited parameter =>
                  match parameter with
                  | mkParameter pname questionToken pmodifiers ptype initializer =>
                      bind (visitOptional v initializer) (fun initializer =>
                      ret (visited ++ [mkParameter pname questionToken pmodifiers
                                         ptype initializer]))
                  end) this_
             = Returned (acc ++ parameters, this_)) by apply (H []).
  induction parameters as [|[pname q pm pt init] parameters IH];
    intros acc; cbn [foldM].
  - now rewrite app_nil_r.
  - assert (Hinit : visitOptional v init this_ = Returned (init, this_)).
    { apply visitOptional_unchanged. intros n ->. apply Hall.
      unfold parameterInitializers. simpl. now left. }
    rewrite (bind_eq _ _ _ _ (acc ++ [mkParameter pname q pm pt init])
               (bind_eq _ _ _ _ _ Hinit)).
    rewrite IH; [now rewrite <- app_assoc|].
    intros m Hm. apply Hall. unfold parameterInitializers. simpl.
    apply List.in_or_app. now right.
Qed.



End RewriterFacts.



(** ** The hoisting pass *)

Section VisitFacts.
Variable v : Node -> T (list Node).

(** The accumulator of [visitNodes] only collects what the visitor returns. *)
Lemma foldM_visited (nodes acc : list Node) (s : ReflectionTransformer.t) :
  foldM nodes acc
    (fun visited node => bind (v node) (fun result => ret (visited ++ result))) s
  = match visitNodes v nodes s with
    | Returned (r, s') => Returned (acc ++ r, s')
    | Thrown e => Thrown e
    | OutOfFuel => OutOfFuel
    end.
Proof.
  unfold visitNodes.
  set (step := fun visited node =>
                 bind (v node) (fun result => ret (visited ++ result))).
  assert (Hstep : forall acc n s,
             step acc n s
             = match v n s with
               | Returned (r, s1) => Returned (acc ++ r, s1)
               | Thrown e => Thrown e
               | OutOfFuel => OutOfFuel
               end).
  { intros acc0 n s0. unfold step, bind, ret. now destruct (v n s0) as [[]| |]. }
  revert acc s. induction nodes as [|n nodes IH]; intros acc s; cbn [foldM].
  - unfold ret. now rewrite app_nil_r.
  - pose proof (Hstep acc n s) as H1. pose proof (Hstep [] n s) as H2.
    destruct (v n s) as [[r s1]| |].
    + rewrite (bind_eq _ _ _ _ _ H1), (bind_eq _ _ _ _ _ H2).
      rewrite (IH (acc ++ r)), (IH ([] ++ r)).
      destruct (foldM nodes [] step s1) as [[rs s2]| |]; try reflexivity.
      now rewrite <- app_assoc.
    + now rewrite (bind_thrown _ _ _ _ H1), (bind_thrown _ _ _ _ H2).
    + now rewrite (bind_outOfFuel _ _ _ H1), (bind_outOfFuel _ _ _ H2).
Qed.

Lemma visitNodes_cons (n : Node) (nodes : list Node)
    (s : ReflectionTransformer.t) :
  visitNodes v (n :: nodes) s
  = match v n s with
    | Returned (r, s1) =>
        match visitNodes v nodes s1 with
        | Returned (rs, s2) => Returned (r ++ rs, s2)
        | Thrown e => Thrown e
        | OutOfFuel => OutOfFuel
        end
    | Thrown e => Thrown e
    | OutOfFuel => OutOfFuel
    end.
Proof.
  unfold visitNodes at 1. cbn [foldM].
  destruct (v n s) as [[r s1]| |] eqn:E.
  - rewrite (bind_eq _ _ _ s1 ([] ++ r))
      by (now rewrite (bind_eq _ _ _ _ _ E)).
    apply foldM_visited.
  - apply bind_thrown. now apply bind_thrown.
  - apply bind_outOfFuel. now apply bind_outOfFuel.
Qed.

Lemma visitNodes_app (front back : list Node) (s : ReflectionTransformer.t) :
  visitNodes v (front ++ back) s
  = match visitNodes v front s with
    | Returned (r1, s1) =>
        match visitNodes v back s1 with
        | Returned (r2, s2) => Returned (r1 ++ r2, s2)
        | Thrown e => Thrown e
        | OutOfFuel => OutOfFuel
        end
    | Thrown e => Thrown e
    | OutOfFuel => OutOfFuel
    end.
Proof.
  revert s. induction front as [|n front IH]; intros s.
  - simpl app. change (visitNodes v [] s) with (Returned ([] : list Node, s)).
    cbv iota. destruct (visitNodes v back s) as [[r s']| |]; reflexivity.
  - change ((n :: front) ++ back) with (n :: (front ++ back)).
    rewrite !visitNodes_cons.
    destruct (v n s) as [[r s1]| |]; try reflexivity.
    rewrite IH.
    destruct (visitNodes v front s1) as [[r1 s2]| |]; try reflexivity.
    destruct (visitNodes v back s2) as [[r2 s3]| |]; try reflexivity.
    now rewrite app_assoc.
Qed.

End VisitFacts.

Section SelfReference.
(** Budgets that are large enough for one pass over the file. *)
Variable f : nat.
Variable d : nat.

Let fuel : nat := S (S f).
Let inner : nat := S (S (S (S d))).
Let depth : nat := S inner.

Let pass : nat -> Node -> T (list Node) :=
  Sample.hoistingPass Sample.recursiveResolver fuel.

(** The names under which [A] is queued: the reference in [f] and the
    reference in the alias itself. *)
Let queuedName (name : EntityName) : Prop :=
  name = Identifier 4 "A" \/ name = Identifier 2 "A".

(** One pass over the file: [A] is compiled, its binding is emitted once
    more, and the reference to [A] in its own body puts it back in the
    queue. *)
Lemma hoisting_pass_requeues (k : nat) (name : EntityName) :
  queuedName name ->
  visitNode (pass depth) (Sample.recursiveFileAfter k)
    (Sample.recursiveStateAfter k name)
  = Returned (Sample.recursiveFileAfter (S k),
              Sample.recursiveStateAfter k (Identifier 2 "A")).
Proof.
  intros Hname.
  set (front := [Sample.functionOfA; Sample.typeOfFunctionOfA;
                 Sample.selfReferentialAlias]).
  set (s1 := Sample.recursiveStateAfter k (Identifier 2 "A")).
  assert (Hfront : visitNodes (pass inner) front
                     (Sample.recursiveStateAfter k name)
                   = Returned (front ++ [Sample.bindingOfA], s1)).
  { unfold s1, Sample.recursiveStateAfter, pass, fuel, inner.
    generalize (Sample.recursiveFileAfter k). intros file.
    destruct Hname as [-> | ->]; vm_compute; reflexivity. }
  assert (Hback : visitNodes (pass inner) (List.repeat Sample.bindingOfA k) s1
                  = Returned (List.repeat Sample.bindingOfA k, s1)).
  { apply visitNodes_unchanged. intros n Hn.
    apply List.repeat_spec in Hn. subst n.
    unfold s1, Sample.recursiveStateAfter, pass, fuel, inner.
    generalize (Sample.recursiveFileAfter k). intros file.
    vm_compute. reflexivity. }
  assert (Hall : visitNodes (pass inner)
                   (front ++ List.repeat Sample.bindingOfA k)
                   (Sample.recursiveStateAfter k name)
                 = Returned (front ++ Sample.bindingOfA
                               :: List.repeat Sample.bindingOfA k, s1)).
  { rewrite visitNodes_app, Hfront, Hback. now rewrite <- app_assoc. }
  unfold visitNode, pass, depth, Sample.hoistingPass.
  unfold Sample.recursiveFileAfter at 1. unfold Sample.sourceFileOf at 1.
  cbn [compileDeclarationsVisitor visitEachChild].
  fold (Sample.hoistingPass Sample.recursiveResolver fuel inner).
  fold (pass inner). fold front.
  rewrite (bind_eq _ _ (Sample.recursiveStateAfter k name) s1
             [Sample.recursiveFileAfter (S k)]).
  - reflexivity.
  - rewrite (bind_eq _ _ (Sample.recursiveStateAfter k name) s1
               (Sample.recursiveFileAfter (S k))).
    + unfold bind, get. unfold s1, Sample.recursiveStateAfter.
      cbn [ReflectionTransformer.compileDeclarations identityOf
           Sample.recursiveFileAfter Sample.sourceFileOf].
      reflexivity.
    + rewrite (bind_eq _ _ _ _ _ Hall). reflexivity.
Qed.

Lemma hoisting_never_ends (loops k : nat) (name : EntityName) :
  queuedName name ->
  Sample.hoisting Sample.recursiveResolver fuel depth loops
    (Sample.recursiveStateAfter k name) = OutOfFuel.
Proof.
  revert k name. induction loops as [|loops IH]; intros k name Hname.
  - destruct Hname as [-> | ->]; reflexivity.
  - unfold Sample.hoisting. cbn [hoistLoop].
    fold (Sample.hoisting Sample.recursiveResolver fuel depth loops).
    unfold bind at 1. unfold get at 1.
    replace (bool_decide
               (ReflectionTransformer.compileDeclarations
                  (Sample.recursiveStateAfter k name) = ∅)) with false
      by (destruct Hname as [-> | ->]; reflexivity).
    fold (Sample.hoistingPass Sample.recursiveResolver fuel depth).
    fold (pass depth).
    change (ReflectionTransformer.sourceFile (Sample.recursiveStateAfter k name))
      with (Sample.recursiveFileAfter k).
    rewrite (bind_eq _ _ _ _ _ (hoisting_pass_requeues k name Hname)).
    unfold bind at 1. unfold modify at 1.
    change (ReflectionTransformer.set_sourceFile
              (Sample.recursiveStateAfter k (Identifier 2 "A"))
              (Sample.recursiveFileAfter (S k)))
      with (Sample.recursiveStateAfter (S k) (Identifier 2 "A")).
    apply IH. now right.
Qed.

(** With such budgets the transformer reaches the hoisting loop and never
    leaves it. *)
Lemma transform_never_ends (loops : nat) :
  Sample.transformed Sample.recursiveResolver Sample.noTags fuel depth loops
    Sample.recursiveFile = OutOfFuel.
Proof.
  unfold Sample.transformed, Sample.transform, transformSourceFile.
  rewrite (bind_eq _ _ _
             (ReflectionTransformer.set_sourceFile Sample.transformer
                Sample.recursiveFile) tt) by reflexivity.
  unfold bind at 1. unfold get at 1.
  replace (String.eqb _ "never") with false by reflexivity.
  rewrite (bind_eq _ _ _
             (ReflectionTransformer.mk Sample.recursiveFile
                (Some "default"%string) {[ 1 := Identifier 4 "A" ]} ∅ ∅)
             (Sample.recursiveFileAfter 0))
    by (unfold fuel, depth, inner; vm_compute; reflexivity).
  unfold bind at 1. unfold modify at 1.
  unfold bind at 1.
  change (ReflectionTransformer.set_sourceFile _ _)
    with (Sample.recursiveStateAfter 0 (Identifier 4 "A")).
  fold (Sample.hoisting Sample.recursiveResolver fuel depth loops).
  rewrite hoisting_never_ends; [reflexivity|]. now left.
Qed.

End SelfReference.

(** C3 fails on the code.  For [function f(a: A) {}  type A = A[];] the
    transformer does not return, whatever budget the walker and the
    visitors are given and however many iterations the hoisting loop is
    allowed: each pass compiles [A], emits one more binding and, through
    the reference to [A] in its own body, puts [A] back in the queue. *)
Theorem hoisting_loops_on_self_reference (fuel depth loops : nat) :
  Sample.transformed Sample.recursiveResolver Sample.noTags fuel depth loops
    Sample.recursiveFile = OutOfFuel.
Proof.
  destruct fuel as [|[|f]]; destruct depth as [|[|[|[|[|d]]]]];
    lazymatch goal with
    | |- Sample.transformed _ _ (S (S _)) (S (S (S (S (S _))))) _ _ = _ =>
        apply transform_never_ends
    | _ => destruct loops; vm_compute; reflexivity
    end.
Qed.

(** ** The compile-local queue *)

Section QueueClosure.

Lemma keepsQueue_ret {A : Type} (a : A) : keepsQueue (ret a).
Proof. intros w b w' H i Hi. inversion H; subst. exact Hi. Qed.

Lemma keepsQueue_throw {A : Type} (message : string) :
  keepsQueue (throw (A := A) message).
Proof. intros w b w' H. discriminate. Qed.

Lemma keepsQueue_outOfFuel {A : Type} : keepsQueue (outOfFuel (A := A)).
Proof. intros w b w' H. discriminate. Qed.

Lemma keepsQueue_get : keepsQueue get.
Proof. intros w b w' H i Hi. inversion H; subst. exact Hi. Qed.

Lemma keepsQueue_read {A : Type} (f : WalkState -> A) :
  keepsQueue (fun w => Returned (f w, w)).
Proof. intros w b w' H i Hi. inversion H; subst. exact Hi. Qed.

Lemma keepsQueue_bind {A B : Type} (m : W A) (k : A -> W B) :
  keepsQueue m -> (forall a, keepsQueue (k a)) -> keepsQueue (bind m k).
Proof.
  intros Hm Hk w b w' H i Hi.
  destruct (bind_returned _ _ _ _ _ H) as (a & w1 & H1 & H2).
  eapply Hk; [exact H2|]. eapply Hm; eauto.
Qed.

Lemma keepsQueue_when (c : bool) (m : W unit) :
  keepsQueue m -> keepsQueue (when c m).
Proof. intros Hm. destruct c; simpl; [exact Hm | apply keepsQueue_ret]. Qed.

Lemma keepsQueue_forEach {A : Type} (xs : list A) (body : A -> W unit) :
  (forall x, keepsQueue (body x)) -> keepsQueue (forEach xs body).
Proof.
  intros Hbody. induction xs as [|x xs IH]; cbn [forEach].
  - apply keepsQueue_ret.
  - apply keepsQueue_bind; [apply Hbody | intros _; exact IH].
Qed.

Lemma keepsQueue_foldM {A B : Type} (xs : list A) (acc : B)
    (body : B -> A -> W B) :
  (forall b x, keepsQueue (body b x)) -> keepsQueue (foldM xs acc body).
Proof.
  intros Hbody. revert acc. induction xs as [|x xs IH]; intros acc; cbn [foldM].
  - apply keepsQueue_ret.
  - apply keepsQueue_bind; [apply Hbody | intros acc'; apply IH].
Qed.

Lemma keepsQueue_onProgram {A : Type} (m : M CompilerProgram.t A) :
  keepsQueue (onProgram m).
Proof.
  intros w a w' H i Hi. unfold onProgram in H.
  destruct (m (program w)) as [[b p]| |]; inversion H; subst. exact Hi.
Qed.

Lemma keepsQueue_pushOp (ops : list Z) : keepsQueue (pushOp ops).
Proof. apply keepsQueue_onProgram. Qed.

(** A change of the transformer that takes nothing out of the queue. *)
Lemma keepsQueue_onThis (f : ReflectionTransformer.t -> ReflectionTransformer.t) :
  (forall t i, queued i t -> queued i (f t)) -> keepsQueue (onThis f).
Proof.
  intros Hf w a w' H i Hi. inversion H; subst. simpl. now apply Hf.
Qed.

Lemma queued_set_embedDeclarations t m i :
  queued i t -> queued i (ReflectionTransformer.set_embedDeclarations t m).
Proof. exact (fun H => H). Qed.

Lemma queued_set_synthesized t m i :
  queued i t -> queued i (ReflectionTransformer.set_synthesized t m).
Proof. exact (fun H => H). Qed.

Lemma queued_insert t (k : Z) (name : EntityName) i :
  queued i t ->
  queued i (ReflectionTransformer.set_compileDeclarations t
              (<[k := name]> (ReflectionTransformer.compileDeclarations t))).
Proof.
  unfold queued. simpl. intros H.
  destruct (decide (k = i)) as [->|Hne].
  - rewrite lookup_insert_eq. eauto.
  - now rewrite lookup_insert_ne.
Qed.

End QueueClosure.

(** One step of a proof that a computation keeps the queue. *)
Ltac keeps_queue_step :=
  first
    [ apply keepsQueue_ret
    | apply keepsQueue_throw
    | apply keepsQueue_outOfFuel
    | apply keepsQueue_get
    | apply keepsQueue_pushOp
    | apply keepsQueue_onProgram
    | apply keepsQueue_read
    | apply keepsQueue_onThis; intros ? ?;
      first [ apply queued_set_embedDeclarations
            | apply queued_set_synthesized
            | apply queued_insert ]
    | apply keepsQueue_when
    | apply keepsQueue_forEach; intros ?
    | apply keepsQueue_foldM; intros ? ?
    | apply keepsQueue_bind; [|intros ?]
    | match goal with
      | |- keepsQueue (match ?x with _ => _ end) => destruct x
      | |- keepsQueue (if ?c then _ else _) => destruct c
      end ].

Ltac keeps_queue := repeat keeps_queue_step.

Section QueueWalker.
Variable getNameAsString : option PropertyName -> string.
Variable getPropertyName : option PropertyName -> StackEntry.
Variable hasModifier : list SyntaxKind.t -> SyntaxKind.t -> bool.
Variable extractJSDocAttribute : Node -> string -> string.
Variable resolveDeclaration : Node -> option Resolved.
Variable getJSDocTags : Node -> list (list JSDocTag).
Variable tsConfigs : list TsConfigProbe.
Variable TypeNumberBrand_integer : Z.
Variable TypeNumberBrand_int8 : Z.
Variable TypeNumberBrand_int16 : Z.

Let walk : nat -> Node -> W unit :=
  extractPackStructOfType getNameAsString getPropertyName hasModifier
    extractJSDocAttribute resolveDeclaration getJSDocTags tsConfigs
    TypeNumberBrand_integer TypeNumberBrand_int8 TypeNumberBrand_int16.

Lemma keepsQueue_emitMembers (rec : Node -> W unit)
    (declared members : list Node) :
  (forall n, keepsQueue (rec n)) ->
  keepsQueue (emitMembers getNameAsString rec declared members).
Proof.
  intros Hrec. revert members.
  induction declared as [|member declared IH]; intros members;
    cbn [emitMembers].
  - apply keepsQueue_ret.
  - destruct (_ && _); [apply IH|].
    apply keepsQueue_bind; [apply Hrec | intros _; apply IH].
Qed.

Lemma keepsQueue_extractMembers (fuel : nat) (rec : Node -> W unit)
    (declaration : Node) (members : list Node) :
  (forall n, keepsQueue (rec n)) ->
  keepsQueue (extractMembers getNameAsString resolveDeclaration fuel rec
                declaration members).
Proof.
  intros Hrec. revert declaration members.
  induction fuel as [|fuel IH]; intros declaration members;
    cbn [extractMembers].
  - apply keepsQueue_outOfFuel.
  - apply keepsQueue_bind; [now apply keepsQueue_emitMembers|].
    intros members'. keeps_queue; apply IH.
Qed.

Lemma keepsQueue_reference (rec : Node -> W unit) (typeName : EntityName)
    (typeArguments : option (list Node)) :
  (forall n, keepsQueue (rec n)) ->
  keepsQueue (extractPackStructOfTypeReference resolveDeclaration
                TypeNumberBrand_integer TypeNumberBrand_int8
                TypeNumberBrand_int16 rec typeName typeArguments).
Proof.
  intros Hrec. unfold extractPackStructOfTypeReference, ensureImportIsEmitted.
  keeps_queue; try apply Hrec.
Qed.

Lemma keepsQueue_extractInferType (name : string) :
  keepsQueue (extractInferType name).
Proof. unfold extractInferType. keeps_queue. Qed.

Lemma keepsQueue_pushDescription (node : Node) :
  keepsQueue (pushDescription extractJSDocAttribute node).
Proof. unfold pushDescription. keeps_queue. Qed.

Lemma keepsQueue_pushTemplateParameters
    (typeParameters : option (list TypeParameterDeclaration))
    (nameOfParameter : TypeParameterDeclaration -> string) :
  keepsQueue (pushTemplateParameters typeParameters nameOfParameter).
Proof. unfold pushTemplateParameters. keeps_queue. Qed.

Lemma keepsQueue_extractParameter (rec : Node -> W unit)
    (functionModifiers : list SyntaxKind.t) (parameter : ParameterDeclaration) :
  (forall n, keepsQueue (rec n)) ->
  keepsQueue (extractParameter getNameAsString hasModifier rec
                functionModifiers parameter).
Proof.
  intros Hrec. unfold extractParameter. keeps_queue; apply Hrec.
Qed.

(** The walker only ever adds to the compile-local queue. *)
Lemma keepsQueue_walk (fuel : nat) (node : Node) : keepsQueue (walk fuel node).
Proof.
  revert node. induction fuel as [|fuel IH]; intros node.
  - apply keepsQueue_outOfFuel.
  - unfold walk. cbn [extractPackStructOfType]. fold (walk fuel).
    destruct node;
      repeat first
        [ apply IH
        | apply keepsQueue_pushTemplateParameters
        | apply keepsQueue_emitMembers; intros ?
        | apply keepsQueue_extractMembers; intros ?
        | apply keepsQueue_reference; intros ?
        | apply keepsQueue_extractInferType
        | apply keepsQueue_pushDescription
        | apply keepsQueue_extractParameter; intros ?
        | keeps_queue_step ].
Qed.

End QueueWalker.

(** ** Hoisted bindings across a pass *)

Section BindingFacts.

Lemma bindingFollows_app_l (i : Z) (front back : list Node) :
  bindingFollows i front = true -> bindingFollows i (front ++ back) = true.
Proof.
  induction front as [|d rest IH]; [discriminate|].
  cbn [bindingFollows app]. intros H. apply orb_prop in H.
  destruct H as [H|H].
  - apply andb_prop in H. destruct H as [Hd Hb].
    destruct rest as [|b rest]; [discriminate|].
    cbn [app]. now rewrite Hd, Hb.
  - rewrite (IH H). apply orb_true_r.
Qed.

Lemma bindingFollows_app_r (i : Z) (front back : list Node) :
  bindingFollows i back = true -> bindingFollows i (front ++ back) = true.
Proof.
  intros H. induction front as [|d rest IH]; [exact H|].
  cbn [bindingFollows app]. rewrite IH. apply orb_true_r.
Qed.

Lemma hoistedAmong_app_l (i : Z) (front back : list Node) :
  hoistedAmong i front -> hoistedAmong i (front ++ back).
Proof.
  intros [H|(n & Hn & Hh)].
  - left. now apply bindingFollows_app_l.
  - right. exists n. split; [|exact Hh]. apply List.in_or_app. now left.
Qed.

Lemma hoistedAmong_app_r (i : Z) (front back : list Node) :
  hoistedAmong i back -> hoistedAmong i (front ++ back).
Proof.
  intros [H|(n & Hn & Hh)].
  - left. now apply bindingFollows_app_r.
  - right. exists n. split; [|exact Hh]. apply List.in_or_app. now right.
Qed.

Lemma hoistedAmong_single (i : Z) (n : Node) :
  hoistedAmong i [n] -> hoisted i n.
Proof.
  intros [H|(m & [<-|[]] & Hh)]; [|exact Hh].
  cbn in H. rewrite andb_false_r in H. discriminate.
Qed.

(** What is hoisted among the array of a node is hoisted in the node. *)
Lemma hoisted_of_array (i : Z) (node : Node) :
  hoistedAmong i (nodeArray node) -> hoisted i node.
Proof.
  intros [H|(n & Hn & Hh)].
  - now apply hoisted_here.
  - now apply hoisted_in_array with n.
Qed.

Lemma isDeclaration_kind (i : Z) (node : Node) :
  isDeclaration i node = true ->
  isTypeAliasDeclaration node || isInterfaceDeclaration node = true.
Proof. unfold isDeclaration. intros H. now apply andb_prop in H. Qed.

End BindingFacts.

Section VisitSpecs.
Variable v : Node -> T (list Node).
Hypothesis Hv : hoistingVisitor v.

Lemma visitNodes_spec (nodes results : list Node)
    (t t' : ReflectionTransformer.t) :
  visitNodes v nodes t = Returned (results, t') ->
  (forall i, bindingFollows i nodes = true -> bindingFollows i results = true)
  /\ (forall i n, In n nodes -> hoisted i n -> hoistedAmong i results)
  /\ visitQueue t t' results
  /\ (forall b rest, nodes = b :: rest -> isVariableStatement b = true ->
        exists results', results = b :: results').
Proof.
  revert results t t'. induction nodes as [|n nodes IH]; intros results t t' H.
  - inversion H; subst. repeat split.
    + intros i Hi. exact Hi.
    + intros i n [].
    + intros i Hi. now left.
    + intros b rest Hnil. discriminate.
  - rewrite visitNodes_cons in H.
    destruct (v n t) as [[r t1]| |] eqn:En; try discriminate.
    destruct (visitNodes v nodes t1) as [[rs t2]| |] eqn:Ens; try discriminate.
    inversion H; subst; clear H.
    destruct (Hv _ _ _ _ En) as [(n' & Hshape & Hdecl & Hvar & Hkeep) Hqueue].
    destruct (IH _ _ _ Ens) as (IH1 & IH2 & IH3 & IH4).
    repeat split.
    + intros i Hi. cbn [bindingFollows] in Hi. apply orb_prop in Hi.
      destruct Hi as [Hi|Hi]; [|apply bindingFollows_app_r; now apply IH1].
      apply andb_prop in Hi. destruct Hi as [Hd Hb].
      destruct nodes as [|b rest]; [discriminate|].
      rewrite (Hdecl (isDeclaration_kind _ _ Hd)) in Hshape.
      destruct (IH4 b rest eq_refl Hb) as (rs' & ->).
      destruct Hshape as [->|(name & init & ->)]; cbn [app bindingFollows].
      * now rewrite Hd, Hb.
      * now rewrite Hd.
    + intros i m [<-|Hm] Hh.
      * apply hoistedAmong_app_l. right. exists n'. split; [|now apply Hkeep].
        destruct Hshape as [->|(name & init & ->)]; now left.
      * apply hoistedAmong_app_r. now apply IH2 with m.
    + intros i Hi. destruct (Hqueue i Hi) as [Hq|Hh].
      * destruct (IH3 i Hq) as [Hq'|Hh]; [now left|].
        right. now apply hoistedAmong_app_r.
      * right. now apply hoistedAmong_app_l.
    + intros b rest Heq Hb. inversion Heq; subst.
      rewrite (Hvar Hb). now exists rs.
Qed.

Lemma visitNode_spec (node node' : Node) (t t' : ReflectionTransformer.t) :
  visitNode v node t = Returned (node', t') ->
  (forall i, hoisted i node -> hoisted i node')
  /\ (forall i, queued i t -> queued i t' \/ hoisted i node').
Proof.
  unfold visitNode. intros H.
  destruct (bind_returned _ _ _ _ _ H) as (r & t1 & Hr & Hk).
  destruct r as [|single [|more]]; try discriminate.
  inversion Hk; subst; clear Hk.
  destruct (Hv _ _ _ _ Hr) as [(n' & Hshape & _ & _ & Hkeep) Hqueue].
  assert (n' = node') as ->.
  { destruct Hshape as [Hs|(name & init & Hs)]; now inversion Hs. }
  split; [exact Hkeep|].
  intros i Hi. destruct (Hqueue i Hi) as [Hq|Hh]; [now left|].
  right. now apply hoistedAmong_single.
Qed.

Lemma visitOptional_spec (node node' : option Node)
    (t t' : ReflectionTransformer.t) :
  visitOptional v node t = Returned (node', t') ->
  (forall i n, node = Some n -> hoisted i n ->
               exists n', node' = Some n' /\ hoisted i n')
  /\ (forall i, queued i t ->
                queued i t' \/ exists n', node' = Some n' /\ hoisted i n').
Proof.
  destruct node as [n|]; cbn [visitOptional]; intros H.
  - destruct (bind_returned _ _ _ _ _ H) as (n' & t1 & Hn & Hk).
    inversion Hk; subst; clear Hk.
    destruct (visitNode_spec _ _ _ _ Hn) as [Hkeep Hqueue].
    split.
    + intros i m Hm Hh. inversion Hm; subst. exists n'. split; auto.
    + intros i Hi. destruct (Hqueue i Hi) as [Hq|Hh]; [now left|].
      right. now exists n'.
  - inversion H; subst. split.
    + intros i n Hn. discriminate.
    + intros i Hi. now left.
Qed.

(** The loop of [visitEachChild] over the parameters of a function. *)
Lemma visitParameters_spec (parameters acc visited : list ParameterDeclaration)
    (t t' : ReflectionTransformer.t) :
  foldM parameters acc
    (fun visited parameter =>
       match parameter with
       | mkParameter pname questionToken pmodifiers ptype initializer =>
           bind (visitOptional v initializer) (fun initializer =>
           ret (visited ++ [mkParameter pname questionToken pmodifiers ptype
                              initializer]))
       end) t
  = Returned (visited, t') ->
  exists added,
    visited = acc ++ added
    /\ (forall i n, In n (parameterInitializers parameters) -> hoisted i n ->
          exists n', In n' (parameterInitializers added) /\ hoisted i n')
    /\ (forall i, queued i t ->
          queued i t'
          \/ exists n', In n' (parameterInitializers added) /\ hoisted i n').
Proof.
  revert acc t. induction parameters as [|[pname q pm pt init] parameters IH];
    intros acc t H; cbn [foldM] in H.
  - inversion H; subst. exists []. rewrite app_nil_r. repeat split.
    + intros i n [].
    + intros i Hi. now left.
  - destruct (bind_returned _ _ _ _ _ H) as (acc1 & t1 & Hstep & Hrest).
    destruct (bind_returned _ _ _ _ _ Hstep) as (init' & t0 & Hinit & Hret).
    inversion Hret; subst; clear Hret.
    destruct (visitOptional_spec _ _ _ _ Hinit) as [Hkeep Hqueue].
    destruct (IH _ _ Hrest) as (added & -> & IHkeep & IHqueue).
    exists (mkParameter pname q pm pt init' :: added).
    split; [now rewrite <- app_assoc|].
    assert (Hin : forall n' : Node,
               init' = Some n' ->
               In n' (parameterInitializers
                        (mkParameter pname q pm pt init' :: added))).
    { intros n' ->. unfold parameterInitializers. simpl. now left. }
    assert (Hmore : forall n' : Node,
               In n' (parameterInitializers added) ->
               In n' (parameterInitializers
                        (mkParameter pname q pm pt init' :: added))).
    { intros n' Hn'. unfold parameterInitializers in *. simpl.
      apply List.in_or_app. now right. }
    split.
    + intros i n Hn Hh. unfold parameterInitializers in Hn. simpl in Hn.
      apply List.in_app_or in Hn. destruct Hn as [Hn|Hn].
      * destruct init as [m|]; [|destruct Hn].
        destruct Hn as [<-|[]].
        destruct (Hkeep i m eq_refl Hh) as (n' & Hn' & Hh').
        exists n'. split; [now apply Hin | exact Hh'].
      * destruct (IHkeep i n Hn Hh) as (n' & Hn' & Hh').
        exists n'. split; [now apply Hmore | exact Hh'].
    + intros i Hi. destruct (Hqueue i Hi) as [Hq|(n' & Hn' & Hh')].
      * destruct (IHqueue i Hq) as [Hq'|(n' & Hn' & Hh')]; [now left|].
        right. exists n'. split; [now apply Hmore | exact Hh'].
      * right. exists n'. split; [now apply Hin | exact Hh'].
Qed.

(** [visitEachChild] keeps declarations and variable statements as they
    are, keeps what is hoisted, and hoists what leaves the queue. *)
Lemma visitEachChild_spec (node node' : Node) (t t' : ReflectionTransformer.t) :
  visitEachChild v node t = Returned (node', t') ->
  (isTypeAliasDeclaration node || isInterfaceDeclaration node
   || isVariableStatement node = true -> node' = node /\ t' = t)
  /\ identityOf node' = identityOf node
  /\ isTypeAliasDeclaration node' = isTypeAliasDeclaration node
  /\ isInterfaceDeclaration node' = isInterfaceDeclaration node
  /\ isVariableStatement node' = isVariableStatement node
  /\ (forall i, hoisted i node -> hoisted i node')
  /\ (forall i, queued i t -> queued i t' \/ hoisted i node').
Proof.
  intros H.
  destruct node; cbn [visitEachChild] in H;
    try (inversion H; subst; repeat split; auto; fail).
  - (* class *)
    destruct (bind_returned _ _ _ _ _ H) as (members' & t1 & Hm & Hk).
    inversion Hk; subst; clear Hk.
    destruct (visitNodes_spec _ _ _ _ Hm) as (V1 & V2 & V3 & _).
    split; [discriminate|]. repeat split.
    + intros i Hh. apply hoisted_of_array. cbn [nodeArray].
      inversion Hh as [? Hb|? child Hc Hch|? child Hc Hch]; subst;
        cbn [nodeArray singleChildren] in *.
      * left. now apply V1.
      * now apply V2 with child.
      * destruct Hc.
    + intros i Hi. destruct (V3 i Hi) as [Hq|Hh]; [now left|].
      right. now apply hoisted_of_array.
  - (* property declaration *)
    destruct (bind_returned _ _ _ _ _ H) as (init' & t1 & Hinit & Hk).
    inversion Hk; subst; clear Hk.
    destruct (visitOptional_spec _ _ _ _ Hinit) as [Hkeep Hqueue].
    split; [discriminate|]. repeat split.
    + intros i Hh.
      inversion Hh as [? Hb|? child Hc Hch|? child Hc Hch]; subst;
        cbn [nodeArray singleChildren] in *; try discriminate;
        try (destruct Hc; fail).
      destruct initializer as [m|]; [|destruct Hc].
      destruct Hc as [<-|[]].
      destruct (Hkeep i m eq_refl Hch) as (n' & -> & Hh').
      apply hoisted_in_child with n'; [now left | exact Hh'].
    + intros i Hi. destruct (Hqueue i Hi) as [Hq|(n' & -> & Hh')]; [now left|].
      right. apply hoisted_in_child with n'; [now left | exact Hh'].
  - (* function-like *)
    destruct (bind_returned _ _ _ _ _ H) as (parameters' & t1 & Hp & Hk).
    destruct (bind_returned _ _ _ _ _ Hk) as (body' & t2 & Hb & Hr).
    inversion Hr; subst; clear Hr Hk.
    destruct (visitParameters_spec _ _ _ _ _ Hp) as (added & Ha & P1 & P2).
    simpl in Ha. subst parameters'.
    destruct (visitNodes_spec _ _ _ _ Hb) as (V1 & V2 & V3 & _).
    split; [discriminate|]. repeat split.
    + intros i Hh.
      inversion Hh as [? Hb'|? child Hc Hch|? child Hc Hch]; subst;
        cbn [nodeArray singleChildren] in *.
      * apply hoisted_of_array. left. now apply V1.
      * apply hoisted_of_array. now apply V2 with child.
      * destruct (P1 i child Hc Hch) as (n' & Hn' & Hh').
        now apply hoisted_in_child with n'.
    + intros i Hi. destruct (P2 i Hi) as [Hq|(n' & Hn' & Hh')].
      * destruct (V3 i Hq) as [Hq'|Hh]; [now left|].
        right. now apply hoisted_of_array.
      * right. now apply hoisted_in_child with n'.
  - (* call *)
    destruct (bind_returned _ _ _ _ _ H) as (expression' & t1 & He & Hk).
    destruct (bind_returned _ _ _ _ _ Hk) as (arguments' & t2 & Ha & Hr).
    inversion Hr; subst; clear Hr Hk.
    destruct (visitNode_spec _ _ _ _ He) as [E1 E2].
    destruct (visitNodes_spec _ _ _ _ Ha) as (V1 & V2 & V3 & _).
    split; [discriminate|]. repeat split.
    + intros i Hh.
      inversion Hh as [? Hb'|? child Hc Hch|? child Hc Hch]; subst;
        cbn [nodeArray singleChildren] in *.
      * apply hoisted_of_array. left. now apply V1.
      * apply hoisted_of_array. now apply V2 with child.
      * destruct Hc as [<-|[]].
        apply hoisted_in_child with expression'; [now left | now apply E1].
    + intros i Hi. destruct (E2 i Hi) as [Hq|Hh].
      * destruct (V3 i Hq) as [Hq'|Hh]; [now left|].
        right. now apply hoisted_of_array.
      * right. apply hoisted_in_child with expression'; [now left | exact Hh].
  - (* any other node with children *)
    destruct (bind_returned _ _ _ _ _ H) as (children' & t1 & Hc & Hk).
    inversion Hk; subst; clear Hk.
    destruct (visitNodes_spec _ _ _ _ Hc) as (V1 & V2 & V3 & _).
    split; [discriminate|]. repeat split.
    + intros i Hh. apply hoisted_of_array. cbn [nodeArray].
      inversion Hh as [? Hb|? child Hc' Hch|? child Hc' Hch]; subst;
        cbn [nodeArray singleChildren] in *.
      * left. now apply V1.
      * now apply V2 with child.
      * destruct Hc'.
    + intros i Hi. destruct (V3 i Hi) as [Hq|Hh]; [now left|].
      right. now apply hoisted_of_array.
Qed.

End VisitSpecs.

Section HoistingPass.
Variable getNameAsString : option PropertyName -> string.
Variable getPropertyName : option PropertyName -> StackEntry.
Variable hasModifier : list SyntaxKind.t -> SyntaxKind.t -> bool.
Variable extractJSDocAttribute : Node -> string -> string.
Variable resolveDeclaration : Node -> option Resolved.
Variable getJSDocTags : Node -> list (list JSDocTag).
Variable tsConfigs : list TsConfigProbe.
Variable TypeNumberBrand_integer : Z.
Variable TypeNumberBrand_int8 : Z.
Variable TypeNumberBrand_int16 : Z.
Variable fuel : nat.

Let walk : nat -> Node -> W unit :=
  extractPackStructOfType getNameAsString getPropertyName hasModifier
    extractJSDocAttribute resolveDeclaration getJSDocTags tsConfigs
    TypeNumberBrand_integer TypeNumberBrand_int8 TypeNumberBrand_int16.

Let compile : Node -> T (option Node) :=
  compileDeclaration getNameAsString getPropertyName hasModifier
    extractJSDocAttribute resolveDeclaration getJSDocTags tsConfigs
    TypeNumberBrand_integer TypeNumberBrand_int8 TypeNumberBrand_int16 fuel.

Let pass : nat -> Node -> T (list Node) :=
  compileDeclarationsVisitor getNameAsString getPropertyName hasModifier
    extractJSDocAttribute resolveDeclaration getJSDocTags tsConfigs
    TypeNumberBrand_integer TypeNumberBrand_int8 TypeNumberBrand_int16 fuel.

Let loop : nat -> nat -> T unit :=
  hoistLoop getNameAsString getPropertyName hasModifier
    extractJSDocAttribute resolveDeclaration getJSDocTags tsConfigs
    TypeNumberBrand_integer TypeNumberBrand_int8 TypeNumberBrand_int16 fuel.

Lemma keepsQueueT_compileType (prepare : W unit) (type : Node) :
  keepsQueue prepare ->
  keepsQueueT
    (compileType getNameAsString getPropertyName hasModifier
       extractJSDocAttribute resolveDeclaration getJSDocTags tsConfigs
       TypeNumberBrand_integer TypeNumberBrand_int8 TypeNumberBrand_int16
       fuel prepare type).
Proof.
  intros Hprepare t a t' H i Hi. unfold compileType in H. fold (walk fuel) in H.
  destruct (bind prepare (fun _ => walk fuel type)
              (mkWalk t CompilerProgram.new)) as [[u w]| |] eqn:E;
    try discriminate.
  inversion H; subst; clear H.
  assert (Hkeeps : keepsQueue (bind prepare (fun _ => walk fuel type))).
  { apply keepsQueue_bind; [exact Hprepare|]. intros _.
    apply keepsQueue_walk. }
  exact (Hkeeps _ _ _ E i Hi).
Qed.

Lemma keepsQueueT_compileDeclaration (node : Node) : keepsQueueT (compile node).
Proof.
  unfold compile, compileDeclaration.
  destruct node;
    try (intros t a t' H i Hi; inversion H; subst; exact Hi);
    apply keepsQueueT_compileType; apply keepsQueue_pushTemplateParameters.
Qed.

(** The hoisting visitor meets its specification at every depth. *)
Lemma hoistingVisitor_pass (depth : nat) : hoistingVisitor (pass depth).
Proof.
  induction depth as [|depth IH]; intros node t result t' H.
  - discriminate.
  - unfold pass in H. cbn [compileDeclarationsVisitor] in H.
    fold (pass depth) in H. fold compile in H.
    destruct (bind_returned _ _ _ _ _ H) as (node1 & t1 & Hchildren & Hk).
    destruct (visitEachChild_spec _ IH _ _ _ _ Hchildren)
      as (Csame & Cid & Calias & Cinterface & Cvariable & Ckeep & Cqueue).
    destruct (bind_returned _ _ _ _ _ Hk) as (this_ & t0 & Hget & Hk2).
    inversion Hget; subst this_ t0; clear Hget Hk H.
    assert (Hplain : result = [node1] -> t' = t1 ->
                     visitShape node result /\ visitQueue t t' result).
    { intros -> ->. split.
      - exists node1. split; [now left|]. split; [|split].
        + intros Hkind. apply Csame. now rewrite Hkind.
        + intros Hvar. f_equal. apply Csame. rewrite Hvar.
          apply orb_true_r.
        + exact Ckeep.
      - intros i Hi. destruct (Cqueue i Hi) as [Hq|Hh]; [now left|].
        right. right. exists node1. split; [now left | exact Hh]. }
    destruct (ReflectionTransformer.compileDeclarations t1 !! identityOf node1)
      as [d|] eqn:Elookup;
      [|inversion Hk2; subst; now apply Hplain].
    destruct (isTypeAliasDeclaration node1 || isInterfaceDeclaration node1)
      eqn:Ekind;
      [|inversion Hk2; subst; now apply Hplain].
    clear Hplain.
    assert (Hkind : isTypeAliasDeclaration node || isInterfaceDeclaration node
                    = true) by (now rewrite <- Calias, <- Cinterface).
    destruct Csame as [-> ->]; [now rewrite Hkind|].
    destruct (bind_returned _ _ _ _ _ Hk2) as ([] & t2 & Hdelete & Hk3).
    inversion Hdelete; subst t2; clear Hdelete Hk2.
    destruct (bind_returned _ _ _ _ _ Hk3) as (expression & t3 & Hcompile & Hret).
    inversion Hret; subst; clear Hret Hk3.
    split.
    + exists node. split; [right; eauto|]. split; [auto|]. split; [|auto].
      intros Hvar. destruct node; discriminate.
    + intros i Hi. destruct (decide (i = identityOf node)) as [->|Hne].
      * right. left. cbn [bindingFollows]. unfold isDeclaration.
        rewrite Hkind, Z.eqb_refl. reflexivity.
      * left. apply (keepsQueueT_compileDeclaration _ _ _ _ Hcompile).
        unfold queued in *. cbn. now rewrite lookup_delete_ne.
Qed.

Lemma hoistLoop_spec (depth loops : nat) (t t' : ReflectionTransformer.t) :
  loop depth loops t = Returned (tt, t') ->
  ReflectionTransformer.compileDeclarations t' = ∅
  /\ forall i,
       queued i t \/ hoisted i (ReflectionTransformer.sourceFile t) ->
       hoisted i (ReflectionTransformer.sourceFile t').
Proof.
  assert (Hdone : forall t,
             ReflectionTransformer.compileDeclarations t = ∅ ->
             ReflectionTransformer.compileDeclarations t = ∅
             /\ forall i,
                  queued i t \/ hoisted i (ReflectionTransformer.sourceFile t) ->
                  hoisted i (ReflectionTransformer.sourceFile t)).
  { intros s Hempty. split; [exact Hempty|]. intros i [[x Hq]|Hh]; [|exact Hh].
    rewrite Hempty, lookup_empty in Hq. discriminate. }
  revert t. induction loops as [|loops IH]; intros t H.
  - unfold loop in H. cbn [hoistLoop] in H.
    destruct (bind_returned _ _ _ _ _ H) as (this_ & t0 & Hget & Hk).
    inversion Hget; subst this_ t0; clear Hget H.
    destruct (bool_decide
                (ReflectionTransformer.compileDeclarations t = ∅)) eqn:Eempty;
      [|discriminate].
    inversion Hk; subst. apply bool_decide_eq_true in Eempty.
    now apply Hdone.
  - unfold loop in H. cbn [hoistLoop] in H. fold (loop depth loops) in H.
    fold (pass depth) in H.
    destruct (bind_returned _ _ _ _ _ H) as (this_ & t0 & Hget & Hk).
    inversion Hget; subst this_ t0; clear Hget H.
    destruct (bool_decide
                (ReflectionTransformer.compileDeclarations t = ∅)) eqn:Eempty.
    { inversion Hk; subst. apply bool_decide_eq_true in Eempty.
      now apply Hdone. }
    destruct (bind_returned _ _ _ _ _ Hk) as (file1 & t1 & Hpass & Hk2).
    destruct (bind_returned _ _ _ _ _ Hk2) as ([] & t2 & Hset & Hrest).
    inversion Hset; subst t2; clear Hset Hk Hk2.
    destruct (visitNode_spec _ (hoistingVisitor_pass depth) _ _ _ _ Hpass)
      as [Hkeep Hqueue].
    destruct (IH _ Hrest) as [Hempty Hall].
    split; [exact Hempty|].
    intros i Hi. apply Hall. cbn.
    destruct Hi as [Hq|Hh]; [|right; now apply Hkeep].
    destruct (Hqueue i Hq) as [Hq'|Hh]; [left; exact Hq' | right; exact Hh].
Qed.

(** A reference that the resolver resolves, without an import binding, to a
    type alias or an interface puts the declaration in the compile-local
    queue. *)
Lemma local_reference_is_queued (fuel' : nat) (typeName : EntityName)
    (typeArguments : option (list Node)) (declaration : Node)
    (w w' : WalkState) :
  (forall id text, typeName = Identifier id text ->
     knownClassesLookup text = None /\ text <> "Promise"%string) ->
  (forall id text, typeName = Identifier id text ->
     text <> "integer"%string /\ text <> "int8"%string
     /\ text <> "int16"%string) ->
  (forall id text, typeName = Identifier id text ->
     findVariable (CompilerProgram.frame (program w)) text 0 = None) ->
  resolveDeclaration (Name typeName) = Some (mkResolved declaration None) ->
  isTypeAliasDeclaration declaration || isInterfaceDeclaration declaration
  = true ->
  walk (S fuel') (TypeReference typeName typeArguments) w = Returned (tt, w') ->
  queued (identityOf declaration) (this w').
Proof.
  intros Hclass Hbrand Hvariable Hresolve Hkind Hwalk.
  unfold walk in Hwalk. cbn [extractPackStructOfType] in Hwalk.
  fold (walk fuel') in Hwalk.
  unfold extractPackStructOfTypeReference in Hwalk.
  assert (Hqueue :
            forall index : Z,
              keepsQueue
                (match typeArguments with
                 | Some typeArguments =>
                     bind (forEach typeArguments (walk fuel')) (fun _ =>
                     pushOp [opcode op_inlineCall; index;
                             Z.of_nat (List.length typeArguments)])
                 | None => pushOp [opcode op_inline; index]
                 end)).
  { intros index. destruct typeArguments as [arguments|].
    - apply keepsQueue_bind; [|intros _; apply keepsQueue_pushOp].
      apply keepsQueue_forEach. intros x. apply keepsQueue_walk.
    - apply keepsQueue_pushOp. }
  assert (Hbranch :
            forall w0 : WalkState,
              bind (onProgram (CompilerProgram.pushStack
                                 (getDeclarationVariableName typeName)))
                (fun index =>
                 bind (onThis (fun t =>
                         ReflectionTransformer.set_compileDeclarations t
                           (<[identityOf declaration := typeName]>
                              (ReflectionTransformer.compileDeclarations t))))
                   (fun _ =>
                    match typeArguments with
                    | Some typeArguments =>
                        bind (forEach typeArguments (walk fuel')) (fun _ =>
                        pushOp [opcode op_inlineCall; index;
                                Z.of_nat (List.length typeArguments)])
                    | None => pushOp [opcode op_inline; index]
                    end)) w0 = Returned (tt, w') ->
              queued (identityOf declaration) (this w')).
  { intros w0 H.
    destruct (bind_returned _ _ _ _ _ H) as (index & w1 & _ & H1).
    destruct (bind_returned _ _ _ _ _ H1) as ([] & w2 & Hins & H2).
    inversion Hins; subst w2; clear Hins.
    apply (Hqueue index _ _ _ H2). unfold queued. cbn.
    rewrite lookup_insert_eq. eauto. }
  destruct typeName as [id text|l r].
  - destruct (Hclass id text eq_refl) as [Hk Hp].
    destruct (Hbrand id text eq_refl) as (Hi & Hi8 & Hi16).
    rewrite Hk in Hwalk.
    apply String.eqb_neq in Hp, Hi, Hi8, Hi16.
    rewrite Hp, Hi, Hi8, Hi16 in Hwalk.
    destruct (bind_returned _ _ _ _ _ Hwalk) as (variable & w1 & Hfind & H1).
    unfold onProgram, CompilerProgram.findVariable in Hfind.
    rewrite (Hvariable id text eq_refl) in Hfind.
    inversion Hfind; subst variable w1; clear Hfind.
    rewrite Hresolve in H1. cbn [resolvedDeclaration resolvedImportSpecifier] in H1.
    destruct declaration; try discriminate; now apply Hbranch in H1.
  - destruct (bind_returned _ _ _ _ _ Hwalk) as (variable & w1 & Hfind & H1).
    inversion Hfind; subst variable w1; clear Hfind.
    rewrite Hresolve in H1. cbn [resolvedDeclaration resolvedImportSpecifier] in H1.
    destruct declaration; try discriminate; now apply Hbranch in H1.
Qed.

(** What the code does for a local declaration.  A reference that
    resolves, without an import binding, to a type alias or an interface
    puts the declaration in the compile-local queue; and when the hoisting
    loop returns, that queue is empty and every declaration that was in it
    when the loop started is, in the source file the transformer then
    holds, immediately followed by a hoisted variable statement. *)
Lemma local_references_are_hoisted (fuel' depth loops : nat)
    (typeName : EntityName) (typeArguments : option (list Node))
    (declaration : Node) (w w' : WalkState)
    (t t' : ReflectionTransformer.t) (i : Z)
    (Hclass : forall id text, typeName = Identifier id text ->
                knownClassesLookup text = None /\ text <> "Promise"%string)
    (Hbrand : forall id text, typeName = Identifier id text ->
                text <> "integer"%string /\ text <> "int8"%string
                /\ text <> "int16"%string)
    (Hvariable : forall id text, typeName = Identifier id text ->
                   findVariable (CompilerProgram.frame (program w)) text 0 = None)
    (Hresolve : resolveDeclaration (Name typeName)
                = Some (mkResolved declaration None))
    (Hkind : isTypeAliasDeclaration declaration
             || isInterfaceDeclaration declaration = true)
    (Hwalk : extractPackStructOfType getNameAsString getPropertyName
               hasModifier extractJSDocAttribute resolveDeclaration
               getJSDocTags tsConfigs TypeNumberBrand_integer
               TypeNumberBrand_int8 TypeNumberBrand_int16 (S fuel')
               (TypeReference typeName typeArguments) w
             = Returned (tt, w'))
    (Hreturns :
       hoistLoop getNameAsString getPropertyName hasModifier
         extractJSDocAttribute resolveDeclaration getJSDocTags tsConfigs
         TypeNumberBrand_integer TypeNumberBrand_int8 TypeNumberBrand_int16
         fuel depth loops t = Returned (tt, t'))
    (Hqueued : queued i t) :
  queued (identityOf declaration) (this w')
  /\ hoisted i (ReflectionTransformer.sourceFile t')
  /\ ReflectionTransformer.compileDeclarations t' = ∅.
Proof.
  split.
  - eapply local_reference_is_queued; eauto.
  - destruct (hoistLoop_spec depth loops t t' Hreturns) as [Hempty Hall].
    split; [|exact Hempty]. apply Hall. now left.
Qed.

End HoistingPass.

Lemma local_references_are_hoisted_witness :
  exists t' : ReflectionTransformer.t,
    Sample.hoisting Sample.aliasesResolver 10 10 10 Sample.aliasesVisited
    = Returned (tt, t')
    /\ hoisted 11 (ReflectionTransformer.sourceFile t')
    /\ ReflectionTransformer.compileDeclarations t' = ∅.
Proof.
  destruct (Sample.hoisting Sample.aliasesResolver 10 10 10 Sample.aliasesVisited)
    as [[[] t']| |] eqn:E; try (vm_compute in E; discriminate).
  exists t'. split; [reflexivity|].
  assert (Hwalk : Sample.walk Sample.aliasesResolver 1 (Sample.reference 15 "A")
                    (mkWalk Sample.transformer CompilerProgram.new)
                  = Returned
                      (tt,
                       mkWalk
                         (ReflectionTransformer.set_compileDeclarations
                            Sample.transformer {[ 11 := Identifier 15 "A" ]})
                         (CompilerProgram.mk [66; 0]
                            [getDeclarationVariableName (Identifier 15 "A")]
                            0 1 (CompilerProgram.frame CompilerProgram.new)
                            [] [])))
    by (vm_compute; reflexivity).
  refine (proj2 (local_references_are_hoisted Sample.getNameAsString
                   Sample.getPropertyName Sample.hasModifier
                   Sample.extractJSDocAttribute Sample.aliasesResolver
                   Sample.noTags [] 0 1 2 10 0 10 10 (Identifier 15 "A") None
                   Sample.aliasA _ _ Sample.aliasesVisited t' 11
                   _ _ _ eq_refl eq_refl Hwalk E _)).
  - intros id text H. inversion H; subst. split; [reflexivity|discriminate].
  - intros id text H. inversion H; subst. repeat split; discriminate.
  - intros id text H. reflexivity.
  - exists (Identifier 15 "A"). vm_compute. reflexivity.
Defined.

(** C2 fails on the code.  In [type A = string; type B = A; function g(x: A,
    y: B, i: I) {}] with [I] imported, the binding of [A] is emitted twice
    (once for the reference in [g], once more for the reference in [B],
    which is compiled after [A] and puts [A] back in the queue), and no
    binding is emitted for [I], which is only recorded in the embed queue,
    for which [transformSourceFile] has an empty block. *)
Theorem hoisted_bindings_are_not_once :
  exists (out : Node) (t' : ReflectionTransformer.t),
    Sample.transformed Sample.aliasesResolver Sample.noTags 10 10 10
      Sample.aliasesFile = Returned (out, t')
    /\ hoistedBindings (Identifier 0 "A") out = 2%nat
    /\ hoistedBindings (Identifier 0 "B") out = 1%nat
    /\ hoistedBindings (Identifier 0 "I") out = 0%nat
    /\ ReflectionTransformer.embedDeclarations t' !! 20
       = Some (Identifier 17 "I").
Proof.
  destruct (Sample.transformed Sample.aliasesResolver Sample.noTags 10 10 10
              Sample.aliasesFile) as [[out t']| |] eqn:E;
    try (vm_compute in E; discriminate).
  exists out, t'. split; [reflexivity|].
  vm_compute in E. inversion E; subst out t'. clear E.
  repeat split; vm_compute; reflexivity.
Qed.

(** ** What every walk keeps *)

Section Within.
Variable Q : WalkState -> WalkState -> Prop.
Variable mayThrow : Prop.
Hypothesis Q_refl : forall w, Q w w.
Hypothesis Q_trans : forall a b c, Q a b -> Q b c -> Q a c.

Lemma within_ret {A : Type} (a : A) : within Q mayThrow (ret a).
Proof. intros w. apply Q_refl. Qed.

Lemma within_outOfFuel {A : Type} : within Q mayThrow (outOfFuel (A := A)).
Proof. intros w. exact I. Qed.

Lemma within_get : within Q mayThrow get.
Proof. intros w. apply Q_refl. Qed.

Lemma within_read {A : Type} (f : WalkState -> A) :
  within Q mayThrow (fun w => Returned (f w, w)).
Proof. intros w. apply Q_refl. Qed.

Lemma within_bind {A B : Type} (m : W A) (k : A -> W B) :
  within Q mayThrow m -> (forall a, within Q mayThrow (k a)) ->
  within Q mayThrow (bind m k).
Proof.
  intros Hm Hk w. unfold bind. specialize (Hm w).
  destruct (m w) as [[a w1]| |]; [|exact Hm|exact I].
  specialize (Hk a w1).
  destruct (k a w1) as [[b w2]| |]; [|exact Hk|exact I].
  eapply Q_trans; eauto.
Qed.

Lemma within_when (c : bool) (m : W unit) :
  within Q mayThrow m -> within Q mayThrow (when c m).
Proof. intros Hm. destruct c; simpl; [exact Hm | apply within_ret]. Qed.

Lemma within_forEach {A : Type} (xs : list A) (body : A -> W unit) :
  (forall x, within Q mayThrow (body x)) ->
  within Q mayThrow (forEach xs body).
Proof.
  intros Hbody. induction xs as [|x xs IH]; cbn [forEach].
  - apply within_ret.
  - apply within_bind; [apply Hbody | intros _; exact IH].
Qed.

Lemma within_foldM {A B : Type} (xs : list A) (acc : B)
    (body : B -> A -> W B) :
  (forall b x, within Q mayThrow (body b x)) ->
  within Q mayThrow (foldM xs acc body).
Proof.
  intros Hbody. revert acc. induction xs as [|x xs IH]; intros acc; cbn [foldM].
  - apply within_ret.
  - apply within_bind; [apply Hbody | intros acc'; apply IH].
Qed.

(** A method that only reads the program. *)
Lemma within_onProgram_read {A : Type} (f : CompilerProgram.t -> A) :
  within Q mayThrow (onProgram (fun p => Returned (f p, p))).
Proof. intros [t p]. unfold onProgram. simpl. apply Q_refl. Qed.

End Within.

Section WalkerWithin.
Variable getNameAsString : option PropertyName -> string.
Variable getPropertyName : option PropertyName -> StackEntry.
Variable hasModifier : list SyntaxKind.t -> SyntaxKind.t -> bool.
Variable extractJSDocAttribute : Node -> string -> string.
Variable resolveDeclaration : Node -> option Resolved.
Variable getJSDocTags : Node -> list (list JSDocTag).
Variable tsConfigs : list TsConfigProbe.
Variable TypeNumberBrand_integer : Z.
Variable TypeNumberBrand_int8 : Z.
Variable TypeNumberBrand_int16 : Z.

Variable Q : WalkState -> WalkState -> Prop.
Variable mayThrow : Prop.
Hypothesis Q_refl : forall w, Q w w.
Hypothesis Q_trans : forall a b c, Q a b -> Q b c -> Q a c.

(** The calls of the walker on the program and on the transformer. *)
Hypothesis H_pushOp : forall ops, within Q mayThrow (pushOp ops).
Hypothesis H_pushStack :
  forall item, within Q mayThrow (onProgram (CompilerProgram.pushStack item)).
Hypothesis H_findOrAddStackEntry :
  forall entry,
    within Q mayThrow (onProgram (CompilerProgram.findOrAddStackEntry entry)).
Hypothesis H_pushFrame :
  within Q mayThrow (onProgram (CompilerProgram.pushFrame false)).
Hypothesis H_pushConditionalFrame :
  within Q mayThrow (onProgram CompilerProgram.pushConditionalFrame).
Hypothesis H_popFrame : within Q mayThrow (onProgram CompilerProgram.popFrame).
Hypothesis H_pushVariable :
  forall name,
    within Q mayThrow (onProgram (CompilerProgram.pushVariable name O)).
Hypothesis H_pushTemplateParameter :
  forall name,
    within Q mayThrow (onProgram (CompilerProgram.pushTemplateParameter name)).
Hypothesis H_coRoutine :
  forall (body : W unit) (rest : Z -> W unit),
    within Q mayThrow body -> (forall start, within Q mayThrow (rest start)) ->
    within Q mayThrow
      (bind (onProgram CompilerProgram.pushCoRoutine) (fun _ =>
       bind body (fun _ =>
       bind (onProgram CompilerProgram.popCoRoutine) rest))).
Hypothesis H_infer : forall name, within Q mayThrow (extractInferType name).
Hypothesis H_embed :
  forall key name,
    within Q mayThrow
      (onThis (fun t =>
         ReflectionTransformer.set_embedDeclarations t
           (<[key := name]> (ReflectionTransformer.embedDeclarations t)))).
Hypothesis H_compile :
  forall key name,
    within Q mayThrow
      (onThis (fun t =>
         ReflectionTransformer.set_compileDeclarations t
           (<[key := name]> (ReflectionTransformer.compileDeclarations t)))).
Hypothesis H_synthesized :
  forall spec,
    within Q mayThrow
      (onThis (fun t =>
         ReflectionTransformer.set_synthesized t
           ({[ spec ]} ∪ ReflectionTransformer.synthesized t))).

Let walk : nat -> Node -> W unit :=
  extractPackStructOfType getNameAsString getPropertyName hasModifier
    extractJSDocAttribute resolveDeclaration getJSDocTags tsConfigs
    TypeNumberBrand_integer TypeNumberBrand_int8 TypeNumberBrand_int16.

Let ok {A : Type} (m : W A) : Prop := within Q mayThrow m.

Ltac within_step :=
  first
    [ apply (within_ret Q mayThrow Q_refl)
    | apply (within_outOfFuel Q mayThrow)
    | apply (within_get Q mayThrow Q_refl)
    | apply H_pushOp
    | apply H_pushStack
    | apply H_findOrAddStackEntry
    | apply H_pushFrame
    | apply H_pushConditionalFrame
    | apply H_popFrame
    | apply H_pushVariable
    | apply H_pushTemplateParameter
    | apply H_infer
    | apply H_embed
    | apply H_compile
    | apply H_synthesized
    | apply (within_onProgram_read Q mayThrow Q_refl)
    | apply (within_read Q mayThrow Q_refl)
    | apply H_coRoutine; [|intros ?]
    | apply (within_when Q mayThrow Q_refl)
    | apply (within_forEach Q mayThrow Q_refl Q_trans); intros ?
    | apply (within_foldM Q mayThrow Q_refl Q_trans); intros ? ?
    | apply (within_bind Q mayThrow Q_trans); [|intros ?]
    | match goal with
      | |- within _ _ (match ?x with _ => _ end) => destruct x
      | |- within _ _ (if ?c then _ else _) => destruct c
      end ].

Lemma within_emitMembers (rec : Node -> W unit)
    (declared members : list Node) :
  (forall n, ok (rec n)) ->
  ok (emitMembers getNameAsString rec declared members).
Proof.
  intros Hrec. revert members.
  induction declared as [|member declared IH]; intros members;
    cbn [emitMembers].
  - apply (within_ret Q mayThrow Q_refl).
  - destruct (_ && _); [apply IH|].
    apply (within_bind Q mayThrow Q_trans); [apply Hrec | intros _; apply IH].
Qed.

Lemma within_extractMembers (fuel : nat) (rec : Node -> W unit)
    (declaration : Node) (members : list Node) :
  (forall n, ok (rec n)) ->
  ok (extractMembers getNameAsString resolveDeclaration fuel rec
        declaration members).
Proof.
  intros Hrec. revert declaration members.
  induction fuel as [|fuel IH]; intros declaration members;
    cbn [extractMembers].
  - apply (within_outOfFuel Q mayThrow).
  - apply (within_bind Q mayThrow Q_trans); [now apply within_emitMembers|].
    intros members'. unfold ok. repeat within_step; apply IH.
Qed.

Lemma within_reference (rec : Node -> W unit) (typeName : EntityName)
    (typeArguments : option (list Node)) :
  (forall n, ok (rec n)) ->
  ok (extractPackStructOfTypeReference resolveDeclaration
        TypeNumberBrand_integer TypeNumberBrand_int8
        TypeNumberBrand_int16 rec typeName typeArguments).
Proof.
  intros Hrec. unfold ok, extractPackStructOfTypeReference,
    ensureImportIsEmitted, CompilerProgram.findVariable.
  repeat within_step; try apply Hrec.
Qed.

Lemma within_pushDescription (node : Node) :
  ok (pushDescription extractJSDocAttribute node).
Proof. unfold ok, pushDescription. repeat within_step. Qed.

Lemma within_pushTemplateParameters
    (typeParameters : option (list TypeParameterDeclaration))
    (nameOfParameter : TypeParameterDeclaration -> string) :
  ok (pushTemplateParameters typeParameters nameOfParameter).
Proof. unfold ok, pushTemplateParameters. repeat within_step. Qed.

Lemma within_extractParameter (rec : Node -> W unit)
    (functionModifiers : list SyntaxKind.t) (parameter : ParameterDeclaration) :
  (forall n, ok (rec n)) ->
  ok (extractParameter getNameAsString hasModifier rec
        functionModifiers parameter).
Proof.
  intros Hrec. unfold ok, extractParameter. repeat within_step; apply Hrec.
Qed.

(** Every walk is made of the calls above: what they all keep, the walk
    keeps. *)
Lemma within_walk (fuel : nat) (node : Node) : ok (walk fuel node).
Proof.
  revert node. induction fuel as [|fuel IH]; intros node.
  - apply (within_outOfFuel Q mayThrow).
  - unfold walk. cbn [extractPackStructOfType]. fold (walk fuel).
    unfold ok in *.
    destruct node;
      repeat first
        [ apply IH
        | apply within_pushTemplateParameters
        | apply within_emitMembers; intros ?
        | apply within_extractMembers; intros ?
        | apply within_reference; intros ?
        | apply within_pushDescription
        | apply within_extractParameter; intros ?
        | within_step ].
Qed.

End WalkerWithin.

(** ** Relations between programs that every call keeps *)

Section ProgramRelation.
Variable R : CompilerProgram.t -> CompilerProgram.t -> Prop.
Hypothesis R_refl : forall p, R p p.
Hypothesis R_trans : forall a b c, R a b -> R b c -> R a c.
Hypothesis R_perform :
  forall c p p', walkerCall c = true -> perform c p = Returned (tt, p') -> R p p'.

Let Q : WalkState -> WalkState -> Prop := onPrograms R.

Lemma onPrograms_refl (w : WalkState) : Q w w.
Proof. apply R_refl. Qed.

Lemma onPrograms_trans (a b c : WalkState) : Q a b -> Q b c -> Q a c.
Proof. apply R_trans. Qed.

Lemma onPrograms_onProgram {A : Type} (m : M CompilerProgram.t A) :
  (forall p a p', m p = Returned (a, p') -> R p p') ->
  within Q True (onProgram m).
Proof.
  intros Hm [t p]. unfold onProgram. cbn [program this].
  destruct (m p) as [[a p']| |] eqn:E; [|exact I|exact I].
  exact (Hm _ _ _ E).
Qed.

Lemma onPrograms_onThis (f : ReflectionTransformer.t -> ReflectionTransformer.t) :
  within Q True (onThis f).
Proof. intros [t p]. apply R_refl. Qed.

(** A call whose value is dropped. *)
Lemma discard_returned {A : Type} (m : M CompilerProgram.t A)
    (p p' : CompilerProgram.t) (a : A) :
  m p = Returned (a, p') -> discard m p = Returned (tt, p').
Proof. intros H. unfold discard, bind. now rewrite H. Qed.

Lemma onPrograms_call {A : Type} (m : M CompilerProgram.t A) (c : Call) :
  walkerCall c = true -> perform c = discard m ->
  within Q True (onProgram m).
Proof.
  intros Hc Hp. apply onPrograms_onProgram. intros p a p' H.
  apply (R_perform c); [exact Hc|]. rewrite Hp. eapply discard_returned; eauto.
Qed.

Lemma onPrograms_call_unit (m : M CompilerProgram.t unit) (c : Call) :
  walkerCall c = true -> perform c = m ->
  within Q True (onProgram m).
Proof.
  intros Hc Hp. apply onPrograms_onProgram. intros p [] p' H.
  apply (R_perform c); [exact Hc|]. now rewrite Hp.
Qed.

End ProgramRelation.

Section WalkerRelation.
Variable getNameAsString : option PropertyName -> string.
Variable getPropertyName : option PropertyName -> StackEntry.
Variable hasModifier : list SyntaxKind.t -> SyntaxKind.t -> bool.
Variable extractJSDocAttribute : Node -> string -> string.
Variable resolveDeclaration : Node -> option Resolved.
Variable getJSDocTags : Node -> list (list JSDocTag).
Variable tsConfigs : list TsConfigProbe.
Variable TypeNumberBrand_integer : Z.
Variable TypeNumberBrand_int8 : Z.
Variable TypeNumberBrand_int16 : Z.

Variable R : CompilerProgram.t -> CompilerProgram.t -> Prop.
Hypothesis R_refl : forall p, R p p.
Hypothesis R_trans : forall a b c, R a b -> R b c -> R a c.
Hypothesis R_perform :
  forall c p p', walkerCall c = true -> perform c p = Returned (tt, p') -> R p p'.

Let walk : nat -> Node -> W unit :=
  extractPackStructOfType getNameAsString getPropertyName hasModifier
    extractJSDocAttribute resolveDeclaration getJSDocTags tsConfigs
    TypeNumberBrand_integer TypeNumberBrand_int8 TypeNumberBrand_int16.

Let Q : WalkState -> WalkState -> Prop := onPrograms R.

Lemma onPrograms_pushOp (ops : list Z) : within Q True (pushOp ops).
Proof.
  apply (onPrograms_call_unit R R_perform _ (CallPushOp ops)); reflexivity.
Qed.

Lemma onPrograms_infer (name : string) : within Q True (extractInferType name).
Proof.
  unfold extractInferType.
  apply (within_bind Q True (onPrograms_trans R R_trans)).
  { apply (within_onProgram_read Q True (onPrograms_refl R R_refl)). }
  intros [frame|]; [|apply onPrograms_pushOp].
  apply (within_bind Q True (onPrograms_trans R R_trans)).
  { apply (within_onProgram_read Q True (onPrograms_refl R R_refl)). }
  intros variable.
  apply (within_bind Q True (onPrograms_trans R R_trans)).
  - destruct variable as [variable|].
    + apply (within_ret Q True (onPrograms_refl R R_refl)).
    + apply (within_bind Q True (onPrograms_trans R R_trans)).
      { apply (onPrograms_call R R_perform _ (CallPushVariable name frame));
          reflexivity. }
      intros _. apply (within_bind Q True (onPrograms_trans R R_trans)).
      { apply (within_onProgram_read Q True (onPrograms_refl R R_refl)). }
      intros [v|]; [apply (within_ret Q True (onPrograms_refl R R_refl))|].
      intros w. exact I.
  - intros v. apply onPrograms_pushOp.
Qed.

(** A relation that every call of the walker keeps holds between the
    program before a walk and the program after it. *)
Lemma walk_keeps (fuel : nat) (node : Node) (w w' : WalkState) :
  walk fuel node w = Returned (tt, w') -> R (program w) (program w').
Proof.
  intros H.
  assert (Hwalk : within Q True (walk fuel node)).
  { apply within_walk.
    - apply (onPrograms_refl R R_refl).
    - apply (onPrograms_trans R R_trans).
    - apply onPrograms_pushOp.
    - intros item.
      apply (onPrograms_call R R_perform _ (CallPushStack item)); reflexivity.
    - intros entry.
      apply (onPrograms_call R R_perform _ (CallFindOrAddStackEntry entry));
        reflexivity.
    - apply (onPrograms_call R R_perform _ (CallPushFrame false)); reflexivity.
    - apply (onPrograms_call_unit R R_perform _ CallPushConditionalFrame);
        reflexivity.
    - apply (onPrograms_call_unit R R_perform _ CallPopFrame); reflexivity.
    - intros name.
      apply (onPrograms_call R R_perform _ (CallPushVariable name O));
        reflexivity.
    - intros name.
      apply (onPrograms_call R R_perform _ (CallPushTemplateParameter name));
        reflexivity.
    - intros body rest Hbody Hrest.
      apply (within_bind Q True (onPrograms_trans R R_trans)).
      { apply (onPrograms_call_unit R R_perform _ CallPushCoRoutine);
          reflexivity. }
      intros _. apply (within_bind Q True (onPrograms_trans R R_trans));
        [exact Hbody|].
      intros _. apply (within_bind Q True (onPrograms_trans R R_trans));
        [|exact Hrest].
      apply (onPrograms_call R R_perform _ CallPopCoRoutine); reflexivity.
    - apply onPrograms_infer.
    - intros key name. apply (onPrograms_onThis R R_refl).
    - intros key name. apply (onPrograms_onThis R R_refl).
    - intros spec. apply (onPrograms_onThis R R_refl). }
  specialize (Hwalk w). unfold walk in H. fold walk in Hwalk.
  unfold walk in Hwalk. rewrite H in Hwalk. exact Hwalk.
Qed.

End WalkerRelation.

(** ** What each method does to the stack and the coroutines *)

Section StoreFacts.

Lemma sameStore_refl (p : CompilerProgram.t) : sameStore p p.
Proof. repeat split. Qed.

Lemma sameStore_trans (a b c : CompilerProgram.t) :
  sameStore a b -> sameStore b c -> sameStore a c.
Proof.
  unfold sameStore. intros (H1 & H2 & H3 & H4 & H5) (G1 & G2 & G3 & G4 & G5).
  repeat split; congruence.
Qed.

Lemma sameStore_set_frame (p : CompilerProgram.t) (f : Frame) :
  sameStore p (CompilerProgram.set_frame p f).
Proof. repeat split. Qed.

Lemma length_removelast_snoc {A : Type} (l : list A) (x : A) :
  l <> [] -> List.length (List.removelast l ++ [x]) = List.length l.
Proof.
  intros Hne. destruct l as [|a l] using List.rev_ind; [contradiction|].
  rewrite List.removelast_last, !List.length_app. reflexivity.
Qed.

Lemma sameStore_updateLastCoRoutine (p : CompilerProgram.t)
    (f : list Z -> list Z) :
  sameStore p (CompilerProgram.updateLastCoRoutine p f).
Proof.
  unfold CompilerProgram.updateLastCoRoutine.
  destruct (CompilerProgram.lastCoRoutine p) as [co|] eqn:E;
    [|apply sameStore_refl].
  repeat split. unfold openCoRoutines. simpl.
  apply length_removelast_snoc. eapply lastCoRoutine_Some; eauto.
Qed.

Lemma sameStore_editBuffer (f : list Z -> list Z) (p : CompilerProgram.t) :
  sameStore p (editBuffer f p).
Proof.
  unfold editBuffer. destruct (negb _).
  - apply sameStore_updateLastCoRoutine.
  - repeat split.
Qed.

Lemma keepsStore_ret {A : Type} (a : A) : keepsStore (ret a).
Proof. intros p b p' H. inversion H. apply sameStore_refl. Qed.

Lemma keepsStore_bind {A B : Type} (m : M CompilerProgram.t A)
    (k : A -> M CompilerProgram.t B) :
  keepsStore m -> (forall a, keepsStore (k a)) -> keepsStore (bind m k).
Proof.
  intros Hm Hk p b p' H.
  destruct (bind_returned _ _ _ _ _ H) as (a & p1 & H1 & H2).
  eapply sameStore_trans; [eapply Hm|eapply Hk]; eauto.
Qed.

Lemma keepsStore_pushOp (ops : list Z) : keepsStore (CompilerProgram.pushOp ops).
Proof.
  intros p a p' H. rewrite pushOp_editBuffer in H. inversion H.
  apply sameStore_editBuffer.
Qed.

Lemma keepsStore_pushOpAtFrame (frame : Frame) (ops : list Z) :
  keepsStore (CompilerProgram.pushOpAtFrame frame ops).
Proof.
  intros p a p' H. rewrite pushOpAtFrame_editBuffer in H. inversion H.
  apply sameStore_editBuffer.
Qed.

Lemma keepsStore_pushFrame (implicit : bool) :
  keepsStore (CompilerProgram.pushFrame implicit).
Proof.
  apply keepsStore_bind.
  - destruct implicit; simpl; [apply keepsStore_ret|apply keepsStore_pushOp].
  - intros _ p a p' H. inversion H. apply sameStore_set_frame.
Qed.

Lemma keepsStore_pushConditionalFrame :
  keepsStore CompilerProgram.pushConditionalFrame.
Proof.
  apply keepsStore_bind; [apply keepsStore_pushFrame|].
  intros ref p a p' H. inversion H. apply sameStore_set_frame.
Qed.

Lemma keepsStore_popFrame : keepsStore CompilerProgram.popFrame.
Proof.
  intros p a p' H. unfold CompilerProgram.popFrame in H.
  destruct (previous _); inversion H;
    [apply sameStore_set_frame|apply sameStore_refl].
Qed.

Lemma keepsStore_pushVariable (name : string) (frame : FrameRef) :
  keepsStore (CompilerProgram.pushVariable name frame).
Proof.
  intros p a p' H. unfold CompilerProgram.pushVariable in H.
  destruct (frameAt _ _) as [target|];
    [|inversion H; apply sameStore_refl].
  rewrite pushOpAtFrame_editBuffer in H. inversion H.
  eapply sameStore_trans; [apply sameStore_editBuffer|].
  apply sameStore_set_frame.
Qed.

(** [pushStack] puts the item at the end of the stack and returns the
    stack position, which it increments. *)
Lemma pushStack_store (item : StackEntry) (p p' : CompilerProgram.t) (i : Z) :
  CompilerProgram.pushStack item p = Returned (i, p') ->
  i = CompilerProgram.stackPosition p
  /\ CompilerProgram.stack p' = CompilerProgram.stack p ++ [item]
  /\ CompilerProgram.stackPosition p' = CompilerProgram.stackPosition p + 1
  /\ CompilerProgram.coRoutines p' = CompilerProgram.coRoutines p
  /\ CompilerProgram.mainOffset p' = CompilerProgram.mainOffset p
  /\ openCoRoutines p' = openCoRoutines p
  /\ CompilerProgram.ops p' = CompilerProgram.ops p
  /\ CompilerProgram.frame p' = CompilerProgram.frame p.
Proof.
  unfold CompilerProgram.pushStack. intros H. inversion H; subst.
  repeat split.
Qed.

(** [findOrAddStackEntry] leaves the program as it is when it finds the
    entry, and is [pushStack] otherwise. *)
Lemma findOrAddStackEntry_cases (entry : StackEntry)
    (p p' : CompilerProgram.t) (i : Z) :
  CompilerProgram.findOrAddStackEntry entry p = Returned (i, p') ->
  (indexOf (CompilerProgram.stack p) entry <> -1
   /\ i = indexOf (CompilerProgram.stack p) entry /\ p' = p)
  \/ (indexOf (CompilerProgram.stack p) entry = -1
      /\ CompilerProgram.pushStack entry p = Returned (i, p')).
Proof.
  unfold CompilerProgram.findOrAddStackEntry. intros H.
  destruct (indexOf (CompilerProgram.stack p) entry =? -1) eqn:E; simpl in H.
  - right. apply Z.eqb_eq in E. auto.
  - left. apply Z.eqb_neq in E. inversion H; subst. auto.
Qed.

Lemma appendOnly_refl (p : CompilerProgram.t) : appendOnly p p.
Proof.
  repeat split; try (exists []; now rewrite app_nil_r). auto.
Qed.

Lemma appendOnly_trans (a b c : CompilerProgram.t) :
  appendOnly a b -> appendOnly b c -> appendOnly a c.
Proof.
  intros ([r1 H1] & [r2 H2] & H3) ([s1 G1] & [s2 G2] & G3).
  repeat split.
  - exists (r1 ++ s1). rewrite G1, H1. now rewrite app_assoc.
  - exists (r2 ++ s2). rewrite G2, H2. now rewrite app_assoc.
  - auto.
Qed.

Lemma appendOnly_sameStore (p p' : CompilerProgram.t) :
  sameStore p p' -> appendOnly p p'.
Proof.
  intros (H1 & H2 & H3 & _ & _). repeat split.
  - exists []. now rewrite app_nil_r.
  - exists []. now rewrite app_nil_r.
  - unfold stackAligned. now rewrite H1, H2.
Qed.

Lemma appendOnly_pushStack (item : StackEntry) (p p' : CompilerProgram.t)
    (i : Z) :
  CompilerProgram.pushStack item p = Returned (i, p') -> appendOnly p p'.
Proof.
  intros H. apply pushStack_store in H.
  destruct H as (_ & H1 & H2 & H3 & _). repeat split.
  - now exists [item].
  - exists []. now rewrite app_nil_r.
  - unfold stackAligned. rewrite H1, H2, List.length_app. simpl. lia.
Qed.

Lemma appendOnly_findOrAddStackEntry (entry : StackEntry)
    (p p' : CompilerProgram.t) (i : Z) :
  CompilerProgram.findOrAddStackEntry entry p = Returned (i, p') ->
  appendOnly p p'.
Proof.
  intros H. destruct (findOrAddStackEntry_cases _ _ _ _ H)
    as [(_ & _ & ->)|(_ & Hpush)].
  - apply appendOnly_refl.
  - eapply appendOnly_pushStack; eauto.
Qed.

(** Closing a coroutine: it leaves the open ones for the completed ones,
    with [return] at its end, and the offset grows by its length. *)
Lemma popCoRoutine_store (p p' : CompilerProgram.t) (start : Z) :
  CompilerProgram.popCoRoutine p = Returned (start, p') ->
  exists co,
    CompilerProgram.lastCoRoutine p = Some co
    /\ CompilerProgram.activeCoRoutines p'
       = List.removelast (CompilerProgram.activeCoRoutines p)
    /\ CompilerProgram.coRoutines p'
       = CompilerProgram.coRoutines p
           ++ [CompilerProgram.mkCoRoutine
                 (CompilerProgram.co_ops co ++ [opcode op_return])]
    /\ start = (if CompilerProgram.mainOffset p =? 0 then 2
                else CompilerProgram.mainOffset p)
    /\ CompilerProgram.mainOffset p'
       = start + Z.of_nat (List.length (CompilerProgram.co_ops co)) + 1
    /\ CompilerProgram.stack p' = CompilerProgram.stack p
    /\ CompilerProgram.stackPosition p' = CompilerProgram.stackPosition p
    /\ CompilerProgram.ops p' = CompilerProgram.ops p.
Proof.
  unfold CompilerProgram.popCoRoutine. intros H.
  destruct (CompilerProgram.lastCoRoutine p) as [co|]; [|discriminate].
  exists co. split; [reflexivity|].
  unfold CompilerProgram.popFrame in H. cbn [CompilerProgram.frame
    CompilerProgram.set_activeCoRoutines] in H.
  destruct (previous (CompilerProgram.frame p));
    cbn [CompilerProgram.mainOffset CompilerProgram.set_frame
         CompilerProgram.set_activeCoRoutines] in H;
    destruct (CompilerProgram.mainOffset p =? 0); inversion H; subst;
    cbn; rewrite ?List.length_app; simpl; repeat split; lia.
Qed.

Lemma pushCoRoutine_store (p p' : CompilerProgram.t) :
  CompilerProgram.pushCoRoutine p = Returned (tt, p') ->
  CompilerProgram.activeCoRoutines p'
  = CompilerProgram.activeCoRoutines p ++ [CompilerProgram.mkCoRoutine []]
  /\ CompilerProgram.stack p' = CompilerProgram.stack p
  /\ CompilerProgram.stackPosition p' = CompilerProgram.stackPosition p
  /\ CompilerProgram.coRoutines p' = CompilerProgram.coRoutines p
  /\ CompilerProgram.mainOffset p' = CompilerProgram.mainOffset p
  /\ CompilerProgram.ops p' = CompilerProgram.ops p
  /\ CompilerProgram.frame p'
     = mkFrame [] (Z.of_nat (List.length (activeBuffer p))) false
         (Some (CompilerProgram.frame p)).
Proof.
  unfold CompilerProgram.pushCoRoutine, CompilerProgram.pushFrame, bind,
    when, ret, modify. simpl. intros H. inversion H; subst. cbn.
  unfold activeBuffer. destruct (CompilerProgram.lastCoRoutine p);
    repeat split.
Qed.

End StoreFacts.

(** ** Invariants of the walker *)

Section CallFacts.

Lemma discard_inv {A : Type} (m : M CompilerProgram.t A)
    (p p' : CompilerProgram.t) :
  discard m p = Returned (tt, p') -> exists a, m p = Returned (a, p').
Proof.
  unfold discard, bind, ret. destruct (m p) as [[a p1]| |]; try discriminate.
  intros H. inversion H; subst. now exists a.
Qed.

Lemma forEach_snoc {S A : Type} (xs : list A) (x : A) (body : A -> M S unit)
    (s s1 s2 : S) :
  forEach xs body s = Returned (tt, s1) ->
  body x s1 = Returned (tt, s2) ->
  forEach (xs ++ [x]) body s = Returned (tt, s2).
Proof.
  revert s. induction xs as [|y xs IH]; intros s H1 H2; simpl in *.
  - inversion H1; subst. unfold bind. now rewrite H2.
  - unfold bind in *. destruct (body y s) as [[[] s']| |]; try discriminate.
    now apply IH.
Qed.

(** One more call on a reachable program leads to a reachable program. *)
Lemma reachable_perform (c : Call) (p p' : CompilerProgram.t) :
  reachable p -> perform c p = Returned (tt, p') -> reachable p'.
Proof.
  intros [calls H] Hc. exists (calls ++ [c]). eapply forEach_snoc; eauto.
Qed.

Lemma keepsStore_pushTemplateParameter_tail (index : Z) (name : string) :
  keepsStore
    (bind (CompilerProgram.pushOp [opcode op_template; index]) (fun _ =>
     fun p =>
       let index := Z.of_nat (List.length (variables (CompilerProgram.frame p))) in
       let f := CompilerProgram.frame p in
       let f' := mkFrame (variables f ++ [(name, index)]) (opIndex f)
                         (conditional f) (previous f) in
       Returned (Z.of_nat (List.length (variables f')) - 1,
                 CompilerProgram.set_frame p f'))).
Proof.
  apply keepsStore_bind; [apply keepsStore_pushOp|].
  intros _ p a p' H. inversion H. apply sameStore_set_frame.
Qed.

(** The stack and the completed coroutines only grow under the calls of
    the walker. *)
Lemma appendOnly_perform (c : Call) (p p' : CompilerProgram.t) :
  walkerCall c = true -> perform c p = Returned (tt, p') -> appendOnly p p'.
Proof.
  intros Hc H. destruct c; simpl in H; try discriminate Hc.
  - apply appendOnly_sameStore. eapply keepsStore_pushOp; eauto.
  - destruct (discard_inv _ _ _ H) as [i Hi].
    eapply appendOnly_pushStack; eauto.
  - destruct (discard_inv _ _ _ H) as [i Hi].
    eapply appendOnly_findOrAddStackEntry; eauto.
  - destruct (discard_inv _ _ _ H) as [i Hi].
    apply appendOnly_sameStore. eapply keepsStore_pushFrame; eauto.
  - apply appendOnly_sameStore. eapply keepsStore_pushConditionalFrame; eauto.
  - apply appendOnly_sameStore. eapply keepsStore_popFrame; eauto.
  - apply pushCoRoutine_store in H.
    destruct H as (_ & H1 & H2 & H3 & _). repeat split.
    + exists []. now rewrite app_nil_r.
    + exists []. now rewrite app_nil_r.
    + unfold stackAligned. now rewrite H1, H2.
  - destruct (discard_inv _ _ _ H) as [i Hi].
    apply popCoRoutine_store in Hi.
    destruct Hi as (co & _ & _ & H1 & _ & _ & H2 & H3 & _). repeat split.
    + exists []. now rewrite app_nil_r.
    + eexists. exact H1.
    + unfold stackAligned. now rewrite H2, H3.
  - destruct (discard_inv _ _ _ H) as [i Hi].
    apply appendOnly_sameStore. eapply keepsStore_pushVariable; eauto.
  - destruct (discard_inv _ _ _ H) as [i Hi].
    unfold CompilerProgram.pushTemplateParameter in Hi.
    destruct (bind_returned _ _ _ _ _ Hi) as (index & p1 & H1 & H2).
    eapply appendOnly_trans.
    + eapply appendOnly_findOrAddStackEntry; eauto.
    + apply appendOnly_sameStore.
      eapply keepsStore_pushTemplateParameter_tail; eauto.
Qed.

End CallFacts.

Section BalanceFacts.

Lemma balanced_refl (w : WalkState) : balanced w w.
Proof. reflexivity. Qed.

Lemma balanced_trans (a b c : WalkState) :
  balanced a b -> balanced b c -> balanced a c.
Proof. unfold balanced. congruence. Qed.

(** A method that always returns and opens or closes no coroutine. *)
Lemma balanced_onProgram {A : Type} (m : M CompilerProgram.t A) :
  (forall p, exists a p',
      m p = Returned (a, p') /\ openCoRoutines p' = openCoRoutines p) ->
  within balanced False (onProgram m).
Proof.
  intros Hm [t p]. unfold onProgram. cbn [program this].
  destruct (Hm p) as (a & p' & E & Hopen). rewrite E. exact Hopen.
Qed.

Lemma balanced_onThis (f : ReflectionTransformer.t -> ReflectionTransformer.t) :
  within balanced False (onThis f).
Proof. intros [t p]. reflexivity. Qed.

Lemma pushOp_returns (ops : list Z) (p : CompilerProgram.t) :
  exists a p',
    CompilerProgram.pushOp ops p = Returned (a, p')
    /\ openCoRoutines p' = openCoRoutines p.
Proof.
  rewrite pushOp_editBuffer. do 2 eexists. split; [reflexivity|].
  apply sameStore_editBuffer.
Qed.

Lemma pushStack_returns (item : StackEntry) (p : CompilerProgram.t) :
  exists a p',
    CompilerProgram.pushStack item p = Returned (a, p')
    /\ openCoRoutines p' = openCoRoutines p.
Proof. do 2 eexists. split; reflexivity. Qed.

Lemma findOrAddStackEntry_returns (entry : StackEntry) (p : CompilerProgram.t) :
  exists a p',
    CompilerProgram.findOrAddStackEntry entry p = Returned (a, p')
    /\ openCoRoutines p' = openCoRoutines p.
Proof.
  unfold CompilerProgram.findOrAddStackEntry.
  destruct (negb _); do 2 eexists; split; reflexivity.
Qed.

Lemma pushFrame_returns (implicit : bool) (p : CompilerProgram.t) :
  exists a p',
    CompilerProgram.pushFrame implicit p = Returned (a, p')
    /\ openCoRoutines p' = openCoRoutines p.
Proof.
  unfold CompilerProgram.pushFrame, bind, when.
  destruct implicit; simpl.
  - do 2 eexists. split; reflexivity.
  - rewrite pushOp_editBuffer. do 2 eexists. split; [reflexivity|].
    transitivity (openCoRoutines (editBuffer (fun o => o ++ [opcode op_frame]) p));
      [reflexivity|apply sameStore_editBuffer].
Qed.

Lemma pushConditionalFrame_returns (p : CompilerProgram.t) :
  exists a p',
    CompilerProgram.pushConditionalFrame p = Returned (a, p')
    /\ openCoRoutines p' = openCoRoutines p.
Proof.
  unfold CompilerProgram.pushConditionalFrame, bind.
  destruct (pushFrame_returns false p) as (ref & p1 & E & Hopen).
  rewrite E. unfold modify. do 2 eexists. split; [reflexivity|].
  exact Hopen.
Qed.

Lemma popFrame_returns (p : CompilerProgram.t) :
  exists a p',
    CompilerProgram.popFrame p = Returned (a, p')
    /\ openCoRoutines p' = openCoRoutines p.
Proof.
  unfold CompilerProgram.popFrame.
  destruct (previous _); do 2 eexists; split; reflexivity.
Qed.

Lemma pushVariable_returns (name : string) (frame : FrameRef)
    (p : CompilerProgram.t) :
  exists a p',
    CompilerProgram.pushVariable name frame p = Returned (a, p')
    /\ openCoRoutines p' = openCoRoutines p.
Proof.
  unfold CompilerProgram.pushVariable.
  destruct (frameAt _ _) as [target|].
  - rewrite pushOpAtFrame_editBuffer. do 2 eexists. split; [reflexivity|].
    transitivity
      (openCoRoutines
         (editBuffer (fun o => splice o (opIndex target) [opcode op_var]) p));
      [reflexivity|apply sameStore_editBuffer].
  - do 2 eexists. split; reflexivity.
Qed.

Lemma pushTemplateParameter_returns (name : string) (p : CompilerProgram.t) :
  exists a p',
    CompilerProgram.pushTemplateParameter name p = Returned (a, p')
    /\ openCoRoutines p' = openCoRoutines p.
Proof.
  unfold CompilerProgram.pushTemplateParameter, bind.
  destruct (findOrAddStackEntry_returns (SeString (codeUnits name)) p)
    as (index & p1 & E & Hopen).
  rewrite E, pushOp_editBuffer. do 2 eexists. split; [reflexivity|].
  rewrite <- Hopen.
  transitivity
    (openCoRoutines (editBuffer (fun o => o ++ [opcode op_template; index]) p1));
    [reflexivity|apply sameStore_editBuffer].
Qed.

(** A coroutine that is opened around a balanced body is closed after it:
    [popCoRoutine] finds it and does not throw. *)
Lemma balanced_coRoutine (body : W unit) (rest : Z -> W unit) :
  within balanced False body ->
  (forall start, within balanced False (rest start)) ->
  within balanced False
    (bind (onProgram CompilerProgram.pushCoRoutine) (fun _ =>
     bind body (fun _ =>
     bind (onProgram CompilerProgram.popCoRoutine) rest))).
Proof.
  intros Hbody Hrest [t p]. unfold bind at 1. unfold onProgram at 1.
  cbn [program this].
  destruct (CompilerProgram.pushCoRoutine p) as [[[] p1]| |] eqn:E1.
  2-3: unfold CompilerProgram.pushCoRoutine, CompilerProgram.pushFrame,
         bind, when, modify in E1; simpl in E1; discriminate.
  apply pushCoRoutine_store in E1. destruct E1 as (Hactive & _).
  unfold bind at 1. specialize (Hbody (mkWalk t p1)).
  destruct (body (mkWalk t p1)) as [[[] [t2 p2]]| |]; [|exact Hbody|exact I].
  unfold balanced, openCoRoutines in Hbody. cbn [program] in Hbody.
  rewrite Hactive, List.length_app in Hbody. simpl in Hbody.
  unfold bind at 1. unfold onProgram at 1. cbn [program this].
  destruct (CompilerProgram.popCoRoutine p2) as [[start p3]|e|] eqn:E3.
  - apply popCoRoutine_store in E3.
    destruct E3 as (co & Hlast & Hactive3 & _).
    specialize (Hrest start (mkWalk t2 p3)).
    destruct (rest start (mkWalk t2 p3)) as [[b w4]| |];
      [|exact Hrest|exact I].
    unfold balanced, openCoRoutines in *. cbn [program] in *.
    rewrite Hrest, Hactive3.
    destruct (CompilerProgram.activeCoRoutines p2) as [|c cs]
      using List.rev_ind; [simpl in Hbody; lia|].
    rewrite List.removelast_last. rewrite List.length_app in Hbody.
    simpl in Hbody. lia.
  - unfold CompilerProgram.popCoRoutine in E3.
    destruct (CompilerProgram.lastCoRoutine p2) as [co|] eqn:Hlast.
    + unfold CompilerProgram.popFrame in E3.
      destruct (previous _); discriminate.
    + apply lastCoRoutine_None in Hlast. rewrite Hlast in Hbody.
      simpl in Hbody. lia.
  - unfold CompilerProgram.popCoRoutine in E3.
    destruct (CompilerProgram.lastCoRoutine p2) as [co|] eqn:Hlast;
      [|discriminate].
    unfold CompilerProgram.popFrame in E3.
    destruct (previous _); discriminate.
Qed.

(** [infer X] always finds the variable it has just inserted. *)
Lemma extractInferType_returns (X : string) (w : WalkState) :
  exists p',
    extractInferType X w = Returned (tt, mkWalk (this w) p')
    /\ sameStore (program w) p'.
Proof.
  destruct w as [t p]. cbn [program this].
  unfold extractInferType, bind, onProgram,
    CompilerProgram.findConditionalFrame, CompilerProgram.findVariable.
  cbn [program this].
  destruct (findConditionalFrame (CompilerProgram.frame p)) as [c|] eqn:Ec;
    cbn beta iota.
  - cbn [program this].
    destruct (findVariable (CompilerProgram.frame p) X 0) as [v|] eqn:Ev;
      cbn beta iota.
    + unfold ret. rewrite onProgram_pushOp. cbn [program this].
      eexists. split; [reflexivity|]. apply sameStore_editBuffer.
    + destruct (findConditionalFrame_frameAt _ _ Ec) as (target & Hat & _).
      unfold CompilerProgram.pushVariable. cbn [program this]. rewrite Hat.
      rewrite pushOpAtFrame_editBuffer.
      set (p1 := editBuffer (fun o => splice o (opIndex target) [opcode op_var]) p).
      assert (Hf1 : CompilerProgram.frame p1 = CompilerProgram.frame p)
        by apply editBuffer_rest.
      set (n := Z.of_nat (List.length (variables (CompilerProgram.frame p1)))).
      fold (bindVariable X n).
      set (p2 := CompilerProgram.set_frame p1
                   (updateFrameAt (CompilerProgram.frame p1) c (bindVariable X n))).
      cbn [program this].
      assert (Hfound : findVariable (CompilerProgram.frame p2) X 0
                       = Some (mkVariableRef (Z.of_nat c) n)).
      { unfold p2. cbn [CompilerProgram.frame CompilerProgram.set_frame].
        rewrite Hf1.
        now rewrite (findVariable_bound c _ target X n 0 Hat Ev). }
      rewrite Hfound. unfold ret. rewrite onProgram_pushOp.
      cbn [program this]. eexists. split; [reflexivity|].
      eapply sameStore_trans; [|apply sameStore_editBuffer].
      apply (sameStore_trans p p1 p2);
        [apply sameStore_editBuffer|apply sameStore_set_frame].
  - rewrite onProgram_pushOp. cbn [program this].
    eexists. split; [reflexivity|]. apply sameStore_editBuffer.
Qed.

Lemma balanced_infer (name : string) :
  within balanced False (extractInferType name).
Proof.
  intros w. destruct (extractInferType_returns name w) as (p' & E & Hs).
  rewrite E. apply Hs.
Qed.

End BalanceFacts.

Section WalkerInvariants.
Variable getNameAsString : option PropertyName -> string.
Variable getPropertyName : option PropertyName -> StackEntry.
Variable hasModifier : list SyntaxKind.t -> SyntaxKind.t -> bool.
Variable extractJSDocAttribute : Node -> string -> string.
Variable resolveDeclaration : Node -> option Resolved.
Variable getJSDocTags : Node -> list (list JSDocTag).
Variable tsConfigs : list TsConfigProbe.
Variable TypeNumberBrand_integer : Z.
Variable TypeNumberBrand_int8 : Z.
Variable TypeNumberBrand_int16 : Z.

Let walk : nat -> Node -> W unit :=
  extractPackStructOfType getNameAsString getPropertyName hasModifier
    extractJSDocAttribute resolveDeclaration getJSDocTags tsConfigs
    TypeNumberBrand_integer TypeNumberBrand_int8 TypeNumberBrand_int16.

(** A walk throws nothing and closes the coroutines it opens. *)
Lemma walk_balanced (fuel : nat) (node : Node) :
  within balanced False (walk fuel node).
Proof.
  apply within_walk.
  - apply balanced_refl.
  - apply balanced_trans.
  - intros ops. apply balanced_onProgram, pushOp_returns.
  - intros item. apply balanced_onProgram, pushStack_returns.
  - intros entry. apply balanced_onProgram, findOrAddStackEntry_returns.
  - apply balanced_onProgram, pushFrame_returns.
  - apply balanced_onProgram, pushConditionalFrame_returns.
  - apply balanced_onProgram, popFrame_returns.
  - intros name. apply balanced_onProgram, pushVariable_returns.
  - intros name. apply balanced_onProgram, pushTemplateParameter_returns.
  - apply balanced_coRoutine.
  - apply balanced_infer.
  - intros key name. apply balanced_onThis.
  - intros key name. apply balanced_onThis.
  - intros spec. apply balanced_onThis.
Qed.

(** X1. The walker changes the program through its methods only: started
    on a program that a sequence of method calls builds from a new program,
    it leaves, when it returns, a program that such a sequence builds. *)
Theorem walker_keeps_reachable (fuel : nat) (node : Node) (w w' : WalkState) :
  reachable (program w) ->
  walk fuel node w = Returned (tt, w') ->
  reachable (program w').
Proof.
  intros Hreach Hwalk. revert Hreach.
  apply (walk_keeps getNameAsString getPropertyName hasModifier
           extractJSDocAttribute resolveDeclaration getJSDocTags tsConfigs
           TypeNumberBrand_integer TypeNumberBrand_int8 TypeNumberBrand_int16
           (fun p p' => reachable p -> reachable p')) with (fuel := fuel)
    (node := node).
  - auto.
  - auto.
  - intros c p p' _ Hc Hp. eapply reachable_perform; eauto.
  - exact Hwalk.
Qed.

(** X2. During a walk the stack and the list of completed coroutines only
    grow at their end, so that an index into either that was handed out
    stays valid, and a stack position that is the length of the stack stays
    so. *)
Theorem walker_appends_only (fuel : nat) (node : Node) (w w' : WalkState) :
  walk fuel node w = Returned (tt, w') ->
  (exists pushed,
      CompilerProgram.stack (program w')
      = CompilerProgram.stack (program w) ++ pushed)
  /\ (exists completed,
        CompilerProgram.coRoutines (program w')
        = CompilerProgram.coRoutines (program w) ++ completed)
  /\ (CompilerProgram.stackPosition (program w)
      = Z.of_nat (List.length (CompilerProgram.stack (program w))) ->
      CompilerProgram.stackPosition (program w')
      = Z.of_nat (List.length (CompilerProgram.stack (program w')))).
Proof.
  intros Hwalk.
  apply (walk_keeps getNameAsString getPropertyName hasModifier
           extractJSDocAttribute resolveDeclaration getJSDocTags tsConfigs
           TypeNumberBrand_integer TypeNumberBrand_int8 TypeNumberBrand_int16
           appendOnly appendOnly_refl appendOnly_trans appendOnly_perform
           fuel node w w' Hwalk).
Qed.

(** X3. The walker raises neither of its errors, on no node and in no
    state: [popCoRoutine] always finds the coroutine that the mapped-type
    case opened (never ['No active co routine found']), and [infer] always
    finds the variable it has just inserted (never ['Could not find
    inserted infer variable']).  When the walker returns, as many
    coroutines are open as before. *)
Theorem walker_never_throws (fuel : nat) (node : Node) (w : WalkState) :
  match walk fuel node w with
  | Returned (_, w') =>
      List.length (CompilerProgram.activeCoRoutines (program w'))
      = List.length (CompilerProgram.activeCoRoutines (program w))
  | Thrown _ => False
  | OutOfFuel => True
  end.
Proof. exact (walk_balanced fuel node w). Qed.

End WalkerInvariants.

Lemma walker_keeps_reachable_witness :
  Sample.walk Sample.unresolved 10 Sample.conditionalWithTwoInfers
    (mkWalk Sample.transformer CompilerProgram.new)
  = Returned (tt, Worked.afterConditional)
  /\ reachable (program Worked.afterConditional).
Proof.
  split; [vm_compute; reflexivity|].
  apply (walker_keeps_reachable Sample.getNameAsString
           Sample.getPropertyName Sample.hasModifier
           Sample.extractJSDocAttribute Sample.unresolved Sample.noTags []
           0 1 2 10 Sample.conditionalWithTwoInfers
           (mkWalk Sample.transformer CompilerProgram.new)
           Worked.afterConditional).
  - exists []. reflexivity.
  - vm_compute. reflexivity.
Defined.

Lemma walker_appends_only_witness :
  (exists pushed,
      CompilerProgram.stack (program Worked.afterFunction) = [] ++ pushed)
  /\ CompilerProgram.stackPosition (program Worked.afterFunction)
     = Z.of_nat (List.length (CompilerProgram.stack (program Worked.afterFunction))).
Proof.
  destruct (walker_appends_only Sample.getNameAsString
              Sample.getPropertyName Sample.hasModifier
              Sample.extractJSDocAttribute Sample.unresolved Sample.noTags []
              0 1 2 10 Sample.functionWithUnion
              (mkWalk Sample.transformer CompilerProgram.new)
              Worked.afterFunction)
    as (Hstack & _ & Haligned).
  - vm_compute. reflexivity.
  - split; [exact Hstack|]. apply Haligned. reflexivity.
Defined.

(** ** Walks that return *)

Section Finishes.

Lemma finishes_ret {A : Type} (a : A) : finishes (ret a).
Proof. intros w. discriminate. Qed.

Lemma finishes_throw {A : Type} (message : string) :
  finishes (throw (A := A) message).
Proof. intros w. discriminate. Qed.

Lemma finishes_get : finishes get.
Proof. intros w. discriminate. Qed.

Lemma finishes_read {A : Type} (f : WalkState -> A) :
  finishes (fun w => Returned (f w, w)).
Proof. intros w. discriminate. Qed.

Lemma finishes_bind {A B : Type} (m : W A) (k : A -> W B) :
  finishes m -> (forall a, finishes (k a)) -> finishes (bind m k).
Proof.
  intros Hm Hk w. unfold bind. specialize (Hm w).
  destruct (m w) as [[a w1]| |]; [apply Hk|discriminate|contradiction].
Qed.

Lemma finishes_when (c : bool) (m : W unit) :
  finishes m -> finishes (when c m).
Proof. intros Hm. destruct c; simpl; [exact Hm | apply finishes_ret]. Qed.

Lemma finishes_forEach {A : Type} (xs : list A) (body : A -> W unit) :
  (forall x, List.In x xs -> finishes (body x)) ->
  finishes (forEach xs body).
Proof.
  induction xs as [|x xs IH]; intros Hbody; cbn [forEach].
  - apply finishes_ret.
  - apply finishes_bind; [apply Hbody; now left|].
    intros _. apply IH. intros y Hy. apply Hbody. now right.
Qed.

Lemma finishes_foldM {A B : Type} (xs : list A) (acc : B)
    (body : B -> A -> W B) :
  (forall b x, List.In x xs -> finishes (body b x)) ->
  finishes (foldM xs acc body).
Proof.
  revert acc. induction xs as [|x xs IH]; intros acc Hbody; cbn [foldM].
  - apply finishes_ret.
  - apply finishes_bind; [apply Hbody; now left|].
    intros acc'. apply IH. intros b y Hy. apply Hbody. now right.
Qed.

(** A method of the program that always returns. *)
Lemma finishes_onProgram {A : Type} (m : M CompilerProgram.t A) :
  (forall p, exists a p',
      m p = Returned (a, p') /\ openCoRoutines p' = openCoRoutines p) ->
  finishes (onProgram m).
Proof.
  intros Hm [t p]. unfold onProgram. cbn [program this].
  destruct (Hm p) as (a & p' & E & _). rewrite E. discriminate.
Qed.

Lemma finishes_onProgram_read {A : Type} (f : CompilerProgram.t -> A) :
  finishes (onProgram (fun p => Returned (f p, p))).
Proof. intros [t p]. discriminate. Qed.

Lemma finishes_onThis (f : ReflectionTransformer.t -> ReflectionTransformer.t) :
  finishes (onThis f).
Proof. intros w. discriminate. Qed.

Lemma finishes_pushOp (ops : list Z) : finishes (pushOp ops).
Proof. apply finishes_onProgram, pushOp_returns. Qed.

Lemma finishes_pushCoRoutine : finishes (onProgram CompilerProgram.pushCoRoutine).
Proof.
  intros [t p]. unfold onProgram. cbn [program this].
  unfold CompilerProgram.pushCoRoutine, CompilerProgram.pushFrame, bind,
    when, modify. simpl. discriminate.
Qed.

(** [popCoRoutine] returns or throws. *)
Lemma finishes_popCoRoutine : finishes (onProgram CompilerProgram.popCoRoutine).
Proof.
  intros [t p]. unfold onProgram. cbn [program this].
  unfold CompilerProgram.popCoRoutine.
  destruct (CompilerProgram.lastCoRoutine p); [|discriminate].
  unfold CompilerProgram.popFrame. cbn.
  destruct (previous _); discriminate.
Qed.

Lemma finishes_infer (name : string) : finishes (extractInferType name).
Proof.
  intros w. destruct (extractInferType_returns name w) as (p' & E & _).
  rewrite E. discriminate.
Qed.

End Finishes.

Section WalkerFinishes.
Variable getNameAsString : option PropertyName -> string.
Variable getPropertyName : option PropertyName -> StackEntry.
Variable hasModifier : list SyntaxKind.t -> SyntaxKind.t -> bool.
Variable extractJSDocAttribute : Node -> string -> string.
Variable resolveDeclaration : Node -> option Resolved.
Variable getJSDocTags : Node -> list (list JSDocTag).
Variable tsConfigs : list TsConfigProbe.
Variable TypeNumberBrand_integer : Z.
Variable TypeNumberBrand_int8 : Z.
Variable TypeNumberBrand_int16 : Z.

Let walk : nat -> Node -> W unit :=
  extractPackStructOfType getNameAsString getPropertyName hasModifier
    extractJSDocAttribute resolveDeclaration getJSDocTags tsConfigs
    TypeNumberBrand_integer TypeNumberBrand_int8 TypeNumberBrand_int16.

Ltac finishes_step :=
  first
    [ apply finishes_ret
    | apply finishes_throw
    | apply finishes_get
    | apply finishes_pushOp
    | apply finishes_infer
    | apply finishes_onThis
    | apply finishes_pushCoRoutine
    | apply finishes_popCoRoutine
    | apply finishes_onProgram_read
    | apply finishes_read
    | apply finishes_onProgram, pushStack_returns
    | apply finishes_onProgram, findOrAddStackEntry_returns
    | apply finishes_onProgram, pushFrame_returns
    | apply finishes_onProgram, pushConditionalFrame_returns
    | apply finishes_onProgram, popFrame_returns
    | apply finishes_onProgram, pushVariable_returns
    | apply finishes_onProgram, pushTemplateParameter_returns
    | apply finishes_when
    | apply finishes_bind; [|intros ?]
    | match goal with
      | |- finishes (match ?x with _ => _ end) => destruct x
      | |- finishes (if ?c then _ else _) => destruct c
      end ].

Lemma finishes_emitMembers (rec : Node -> W unit)
    (declared members : list Node) :
  (forall n, List.In n declared -> finishes (rec n)) ->
  finishes (emitMembers getNameAsString rec declared members).
Proof.
  revert members.
  induction declared as [|member declared IH]; intros members Hrec;
    cbn [emitMembers].
  - apply finishes_ret.
  - assert (Hrest : forall n, List.In n declared -> finishes (rec n))
      by (intros n Hn; apply Hrec; now right).
    destruct (_ && _); [now apply IH|].
    apply finishes_bind; [apply Hrec; now left | intros _; now apply IH].
Qed.

(** The closure of a type literal, and of an interface that extends no
    interface the resolver finds, stays with the members of the node. *)
Lemma finishes_extractMembers (fuel : nat) (rec : Node -> W unit)
    (declaration : Node) (members : list Node) :
  followsResolver resolveDeclaration declaration = false ->
  (forall n, List.In n (membersOf declaration) -> finishes (rec n)) ->
  finishes (extractMembers getNameAsString resolveDeclaration (S fuel) rec
              declaration members).
Proof.
  intros Hfollows Hrec. cbn [extractMembers].
  apply finishes_bind; [now apply finishes_emitMembers|].
  intros members'.
  destruct declaration; try apply finishes_ret.
  destruct heritageClauses as [heritageClauses|]; [|apply finishes_ret].
  cbn [followsResolver] in Hfollows.
  apply finishes_foldM. intros seen [token types] Hclause.
  destruct (SyntaxKind.eqb _ _); [|apply finishes_ret].
  apply finishes_foldM. intros seen' extendType Htype.
  assert (Hnone : match resolveDeclaration extendType with
                  | Some resolved =>
                      isInterfaceDeclaration (resolvedDeclaration resolved)
                  | None => false
                  end = false).
  { destruct (match resolveDeclaration extendType with
              | Some resolved =>
                  isInterfaceDeclaration (resolvedDeclaration resolved)
              | None => false
              end) eqn:E; [|reflexivity].
    rewrite <- Hfollows. symmetry. apply List.existsb_exists.
    exists (mkHeritageClause token types). split; [exact Hclause|].
    apply List.existsb_exists. exists extendType. split; [exact Htype|exact E]. }
  destruct extendType; try apply finishes_ret.
  match goal with
  | |- finishes (match ?n with Identifier _ _ => _ | QualifiedName _ _ => _ end) =>
      destruct n
  end; try apply finishes_ret.
  revert Hnone.
  destruct (resolveDeclaration _) as [resolved|];
    [|intros _; apply finishes_ret].
  intros ->. apply finishes_ret.
Qed.

(** A type reference whose declaration, if the resolver finds one, is
    referenced by name goes on with its type arguments only. *)
Lemma finishes_reference (rec : Node -> W unit) (typeName : EntityName)
    (typeArguments : option (list Node)) :
  followsResolver resolveDeclaration (TypeReference typeName typeArguments)
  = false ->
  (forall n,
      List.In n (walkedChildren (TypeReference typeName typeArguments)) ->
      finishes (rec n)) ->
  finishes (extractPackStructOfTypeReference resolveDeclaration
              TypeNumberBrand_integer TypeNumberBrand_int8
              TypeNumberBrand_int16 rec typeName typeArguments).
Proof.
  intros Hfollows Hrec. cbn [followsResolver walkedChildren] in *.
  unfold extractPackStructOfTypeReference, ensureImportIsEmitted,
    CompilerProgram.findVariable.
  assert (Hvariable :
            forall (lookup : W (option VariableRef)) (k : W unit),
              finishes lookup -> finishes k ->
              finishes
                (bind lookup (fun variable =>
                   match variable with
                   | Some variable =>
                       pushOp [opcode op_loads; frameOffset variable;
                               stackIndex variable]
                   | None => k
                   end))).
  { intros lookup k Hlookup Hk. apply finishes_bind; [exact Hlookup|].
    intros [variable|]; [apply finishes_pushOp|exact Hk]. }
  assert (Hresolved :
            forall k : Resolved -> W unit,
              (forall resolved,
                  resolveDeclaration (Name typeName) = Some resolved ->
                  referencedByName (resolvedDeclaration resolved) = true ->
                  finishes (k resolved)) ->
              finishes
                (match resolveDeclaration (Name typeName) with
                 | None => pushOp [opcode op_any]
                 | Some resolved => k resolved
                 end)).
  { intros k Hk. revert Hfollows Hk.
    destruct (resolveDeclaration (Name typeName)) as [resolved|];
      [|intros _ _; apply finishes_pushOp].
    intros Hfollows Hk. apply Hk; [reflexivity|].
    now apply negb_false_iff in Hfollows. }
  assert (Htail :
            forall resolved,
              resolveDeclaration (Name typeName) = Some resolved ->
              referencedByName (resolvedDeclaration resolved) = true ->
              forall P : Node -> W unit,
                (forall declaration,
                    referencedByName declaration = true ->
                    finishes (P declaration)) ->
                finishes (P (resolvedDeclaration resolved))).
  { intros resolved _ Hby P HP. now apply HP. }
  destruct typeName as [id text|l r]; cbn beta iota.
  - destruct (knownClassesLookup text); [apply finishes_pushOp|].
    destruct (String.eqb text "Promise").
    { apply finishes_bind; [|intros _; apply finishes_pushOp].
      destruct typeArguments as [[|first rest]|]; try apply finishes_pushOp.
      apply Hrec. now left. }
    repeat (match goal with
            | |- finishes (if ?c then _ else _) =>
                destruct c; [apply finishes_pushOp|]
            end).
    apply Hvariable; [apply finishes_onProgram_read|].
    apply Hresolved. intros resolved _ Hby.
    destruct (resolvedDeclaration resolved); try discriminate;
      repeat first
        [ discriminate
        | apply finishes_forEach; intros ? ?
        | apply Hrec; assumption
        | finishes_step ].
  - apply Hvariable; [apply finishes_ret|].
    apply Hresolved. intros resolved _ Hby.
    destruct (resolvedDeclaration resolved); try discriminate;
      repeat first
        [ discriminate
        | apply finishes_forEach; intros ? ?
        | apply Hrec; assumption
        | finishes_step ].
Qed.

Lemma finishes_pushDescription (node : Node) :
  finishes (pushDescription extractJSDocAttribute node).
Proof. unfold pushDescription. repeat finishes_step. Qed.

Lemma finishes_pushTemplateParameters
    (typeParameters : option (list TypeParameterDeclaration))
    (nameOfParameter : TypeParameterDeclaration -> string) :
  finishes (pushTemplateParameters typeParameters nameOfParameter).
Proof.
  unfold pushTemplateParameters.
  destruct typeParameters; [|apply finishes_ret].
  apply finishes_forEach. intros x _. repeat finishes_step.
Qed.

Lemma finishes_extractParameter (rec : Node -> W unit)
    (functionModifiers : list SyntaxKind.t) (parameter : ParameterDeclaration) :
  (forall n, List.In n (typeOfParameter parameter) -> finishes (rec n)) ->
  finishes (extractParameter getNameAsString hasModifier rec
              functionModifiers parameter).
Proof.
  intros Hrec. unfold extractParameter.
  destruct parameter as [[text|] questionToken modifiers [type|] initializer];
    cbn [typeOfParameter] in Hrec;
    repeat first [ apply Hrec; now left | finishes_step ].
Qed.

(** From the children that [walkable] checks to the one the walker goes on
    with. *)
Lemma walkable_child (depth : nat) (node child : Node) :
  walkable resolveDeclaration (S depth) node = true ->
  List.In child (walkedChildren node) ->
  walkable resolveDeclaration depth child = true.
Proof.
  intros H Hin. cbn [walkable] in H.
  apply andb_prop in H. destruct H as [_ H].
  rewrite List.forallb_forall in H. now apply H.
Qed.

Lemma walkable_stays (depth : nat) (node : Node) :
  walkable resolveDeclaration depth node = true ->
  followsResolver resolveDeclaration node = false.
Proof.
  destruct depth; [discriminate|]. intros H. cbn [walkable] in H.
  apply andb_prop in H. destruct H as [H _].
  apply andb_prop in H. destruct H as [H _].
  now apply negb_true_iff in H.
Qed.

(** The walk of a walkable node is not cut off. *)
Lemma walk_finishes (fuel : nat) (node : Node) :
  walkable resolveDeclaration fuel node = true -> finishes (walk fuel node).
Proof.
  revert node. induction fuel as [|fuel IH]; intros node Hwalkable;
    [discriminate|].
  pose proof (walkable_stays _ _ Hwalkable) as Hstays.
  pose proof (fun child => walkable_child fuel node child Hwalkable) as Hchild.
  assert (Hrec : forall n, List.In n (walkedChildren node) ->
                           finishes (walk fuel n))
    by (intros n Hn; apply IH, Hchild, Hn).
  assert (Hdeep : match node with
                  | TypeLiteral _ _ | InterfaceDeclaration _ _ _ _ _ =>
                      exists fuel', fuel = S fuel'
                  | _ => True
                  end).
  { cbn [walkable] in Hwalkable.
    apply andb_prop in Hwalkable. destruct Hwalkable as [H _].
    apply andb_prop in H. destruct H as [_ H].
    destruct node; try exact I; destruct fuel; try discriminate; eauto. }
  clear Hwalkable Hchild IH.
  unfold walk. cbn [extractPackStructOfType]. fold (walk fuel).
  destruct node; cbn [walkedChildren] in Hrec;
    try match type of Hdeep with
        | exists _, _ => destruct Hdeep as [fuel' ->]
        end;
    repeat first
      [ apply Hrec; cbn [optionToList List.In List.app tp_constraint];
        rewrite ?List.in_app_iff; cbn [List.In]; now eauto
      | apply Hrec; apply List.in_or_app; left; apply List.in_flat_map;
        eexists; split; eassumption
      | apply finishes_pushTemplateParameters
      | apply finishes_emitMembers; intros ? ?
      | apply finishes_extractMembers; [exact Hstays|intros ? ?]
      | apply finishes_reference; [exact Hstays|exact Hrec]
      | apply finishes_pushDescription
      | apply finishes_forEach; intros ? ?
      | apply finishes_extractParameter; intros ? ?
      | finishes_step ].
Qed.

End WalkerFinishes.

Section WalkerReturns.
Variable getNameAsString : option PropertyName -> string.
Variable getPropertyName : option PropertyName -> StackEntry.
Variable hasModifier : list SyntaxKind.t -> SyntaxKind.t -> bool.
Variable extractJSDocAttribute : Node -> string -> string.
Variable resolveDeclaration : Node -> option Resolved.
Variable getJSDocTags : Node -> list (list JSDocTag).
Variable tsConfigs : list TsConfigProbe.
Variable TypeNumberBrand_integer : Z.
Variable TypeNumberBrand_int8 : Z.
Variable TypeNumberBrand_int16 : Z.

(** The walk of a walkable node returns: it is not cut off, and it throws
    nothing. *)
Lemma walk_returns (fuel : nat) (node : Node) (w : WalkState) :
  walkable resolveDeclaration fuel node = true ->
  exists w',
    extractPackStructOfType getNameAsString getPropertyName hasModifier
      extractJSDocAttribute resolveDeclaration getJSDocTags tsConfigs
      TypeNumberBrand_integer TypeNumberBrand_int8 TypeNumberBrand_int16
      fuel node w = Returned (tt, w').
Proof.
  intros Hwalkable.
  pose proof (walk_finishes getNameAsString getPropertyName hasModifier
                extractJSDocAttribute resolveDeclaration getJSDocTags
                tsConfigs TypeNumberBrand_integer TypeNumberBrand_int8
                TypeNumberBrand_int16 fuel node Hwalkable w) as Hfinishes.
  pose proof (walk_balanced getNameAsString getPropertyName hasModifier
                extractJSDocAttribute resolveDeclaration getJSDocTags
                tsConfigs TypeNumberBrand_integer TypeNumberBrand_int8
                TypeNumberBrand_int16 fuel node w) as Hbalanced.
  destruct (extractPackStructOfType _ _ _ _ _ _ _ _ _ _ fuel node w)
    as [[[] w']| |]; [now exists w'|contradiction|contradiction].
Qed.

End WalkerReturns.

(** ** The type of a class and of a function *)

Section DeclarationFacts.
Variable getNameAsString : option PropertyName -> string.
Variable getPropertyName : option PropertyName -> StackEntry.
Variable hasModifier : list SyntaxKind.t -> SyntaxKind.t -> bool.
Variable extractJSDocAttribute : Node -> string -> string.
Variable resolveDeclaration : Node -> option Resolved.
Variable getJSDocTags : Node -> list (list JSDocTag).
Variable tsConfigs : list TsConfigProbe.
Variable TypeNumberBrand_integer : Z.
Variable TypeNumberBrand_int8 : Z.
Variable TypeNumberBrand_int16 : Z.

Let walk : nat -> Node -> W unit :=
  extractPackStructOfType getNameAsString getPropertyName hasModifier
    extractJSDocAttribute resolveDeclaration getJSDocTags tsConfigs
    TypeNumberBrand_integer TypeNumberBrand_int8 TypeNumberBrand_int16.

Let mode : ReflectionTransformer.t -> Node -> string :=
  findReflectionConfig getJSDocTags tsConfigs.





Ltac balanced_leaves :=
  first
    [ apply balanced_refl
    | apply balanced_trans
    | intros ?; apply balanced_onProgram, pushOp_returns
    | intros ?; apply balanced_onProgram, pushStack_returns
    | intros ?; apply balanced_onProgram, findOrAddStackEntry_returns
    | apply balanced_onProgram, pushFrame_returns
    | apply balanced_onProgram, pushConditionalFrame_returns
    | apply balanced_onProgram, popFrame_returns
    | intros ?; apply balanced_onProgram, pushVariable_returns
    | intros ?; apply balanced_onProgram, pushTemplateParameter_returns
    | apply balanced_coRoutine
    | apply balanced_infer
    | intros ? ?; apply balanced_onThis
    | intros ?; apply balanced_onThis ].

Lemma balanced_pushTemplateParameters
    (typeParameters : option (list TypeParameterDeclaration))
    (nameOfParameter : TypeParameterDeclaration -> string) :
  within balanced False (pushTemplateParameters typeParameters nameOfParameter).
Proof. apply within_pushTemplateParameters; balanced_leaves. Qed.








End DeclarationFacts.

Section Decorators.
Variable getNameAsString : option PropertyName -> string.
Variable getPropertyName : option PropertyName -> StackEntry.
Variable hasModifier : list SyntaxKind.t -> SyntaxKind.t -> bool.
Variable extractJSDocAttribute : Node -> string -> string.
Variable resolveDeclaration : Node -> option Resolved.
Variable getJSDocTags : Node -> list (list JSDocTag).
Variable tsConfigs : list TsConfigProbe.
Variable TypeNumberBrand_integer : Z.
Variable TypeNumberBrand_int8 : Z.
Variable TypeNumberBrand_int16 : Z.

Let mode : ReflectionTransformer.t -> Node -> string :=
  findReflectionConfig getJSDocTags tsConfigs.

Let typeOf : nat -> Node -> T (option Node) :=
  getTypeOfType getNameAsString getPropertyName hasModifier
    extractJSDocAttribute resolveDeclaration getJSDocTags tsConfigs
    TypeNumberBrand_integer TypeNumberBrand_int8 TypeNumberBrand_int16.

(** Compiling a walkable type returns. *)
Lemma compileType_returns (fuel : nat) (prepare : W unit) (type : Node)
    (t : ReflectionTransformer.t) :
  within balanced False prepare -> finishes prepare ->
  walkable resolveDeclaration fuel type = true ->
  exists result t',
    compileType getNameAsString getPropertyName hasModifier
      extractJSDocAttribute resolveDeclaration getJSDocTags tsConfigs
      TypeNumberBrand_integer TypeNumberBrand_int8 TypeNumberBrand_int16
      fuel prepare type t = Returned (result, t').
Proof.
  intros Hbalanced Hfinishes Hwalkable. unfold compileType, bind.
  specialize (Hbalanced (mkWalk t CompilerProgram.new)).
  specialize (Hfinishes (mkWalk t CompilerProgram.new)).
  destruct (prepare (mkWalk t CompilerProgram.new)) as [[[] w1]| |];
    [|contradiction|contradiction].
  destruct (walk_returns getNameAsString getPropertyName hasModifier
              extractJSDocAttribute resolveDeclaration getJSDocTags
              tsConfigs TypeNumberBrand_integer TypeNumberBrand_int8
              TypeNumberBrand_int16 fuel type w1 Hwalkable) as [w' ->].
  eauto.
Qed.

Lemma getTypeOfType_returns (fuel : nat) (node : Node)
    (t : ReflectionTransformer.t) :
  walkable resolveDeclaration fuel node = true ->
  exists type t', typeOf fuel node t = Returned (type, t').
Proof.
  intros Hwalkable. unfold typeOf, getTypeOfType.
  destruct (String.eqb _ _); [eauto|].
  apply compileType_returns; [|apply finishes_ret|exact Hwalkable].
  apply (within_ret balanced False balanced_refl).
Qed.




(** X6. Compiling a type returns whenever the walk of the type is at most
    [fuel] calls deep and follows the resolver nowhere: [getTypeOfType]
    then returns, and so does the compilation of a hoisted type alias or
    interface by the second visitor; none of the errors of the program is
    raised on the way. *)
Theorem type_compilation_returns (fuel : nat) (node : Node)
    (t : ReflectionTransformer.t) :
  walkable resolveDeclaration fuel
    (match node with
     | TypeAliasDeclaration _ _ _ type => type
     | _ => node
     end) = true ->
  (exists type t',
      typeOf fuel
        (match node with
         | TypeAliasDeclaration _ _ _ type => type
         | _ => node
         end) t = Returned (type, t'))
  /\ (exists binding t',
        compileDeclaration getNameAsString getPropertyName hasModifier
          extractJSDocAttribute resolveDeclaration getJSDocTags tsConfigs
          TypeNumberBrand_integer TypeNumberBrand_int8
          TypeNumberBrand_int16 fuel node t = Returned (binding, t')).
Proof.
  intros Hwalkable. split; [now apply getTypeOfType_returns|].
  unfold compileDeclaration.
  destruct node; try (do 2 eexists; reflexivity).
  - apply compileType_returns; [| |exact Hwalkable].
    + apply balanced_pushTemplateParameters.
    + apply finishes_pushTemplateParameters.
  - apply compileType_returns; [| |exact Hwalkable].
    + apply balanced_pushTemplateParameters.
    + apply finishes_pushTemplateParameters.
Qed.

End Decorators.



Lemma type_compilation_returns_witness :
  (exists type t',
      getTypeOfType Sample.getNameAsString Sample.getPropertyName
        Sample.hasModifier Sample.extractJSDocAttribute
        Sample.recursiveResolver Sample.noTags [] 0 1 2 3
        (ArrayType (Sample.reference 2 "A")) Sample.transformer
      = Returned (type, t'))
  /\ (exists binding t',
        compileDeclaration Sample.getNameAsString Sample.getPropertyName
          Sample.hasModifier Sample.extractJSDocAttribute
          Sample.recursiveResolver Sample.noTags [] 0 1 2 3
          Sample.selfReferentialAlias Sample.transformer
        = Returned (binding, t')).
Proof.
  apply (type_compilation_returns Sample.getNameAsString
           Sample.getPropertyName Sample.hasModifier
           Sample.extractJSDocAttribute Sample.recursiveResolver
           Sample.noTags [] 0 1 2 3 Sample.selfReferentialAlias
           Sample.transformer).
  vm_compute. reflexivity.
Defined.

(** ** Stack entries *)

Section StackFacts.

Lemma indexOfFrom_range (stack : list StackEntry) (entry : StackEntry) (k : Z) :
  indexOfFrom stack entry k = -1
  \/ k <= indexOfFrom stack entry k < k + Z.of_nat (List.length stack).
Proof.
  revert k. induction stack as [|e stack IH]; intros k; simpl.
  - now left.
  - destruct (strictEquals e entry).
    + right. lia.
    + destruct (IH (k + 1)) as [H|H]; [now left|right; lia].
Qed.

(** What [indexOf] finds is the first entry strictly equal to the one
    looked for. *)
Lemma indexOfFrom_found (stack : list StackEntry) (entry : StackEntry)
    (k : Z) :
  0 <= k -> indexOfFrom stack entry k <> -1 ->
  exists e,
    List.nth_error stack (Z.to_nat (indexOfFrom stack entry k - k)) = Some e
    /\ strictEquals e entry = true.
Proof.
  revert k. induction stack as [|e stack IH]; intros k Hk Hfound; simpl in *.
  - contradiction.
  - destruct (strictEquals e entry) eqn:E.
    + exists e. rewrite Z.sub_diag. simpl. auto.
    + destruct (IH (k + 1) ltac:(lia) Hfound) as (e' & Hnth & He').
      exists e'. split; [|exact He'].
      destruct (indexOfFrom_range stack entry (k + 1)) as [H|H];
        [contradiction|].
      replace (Z.to_nat (indexOfFrom stack entry (k + 1) - k))
        with (S (Z.to_nat (indexOfFrom stack entry (k + 1) - (k + 1))))
        by lia.
      exact Hnth.
Qed.

Lemma indexOfFrom_missing (stack : list StackEntry) (entry : StackEntry)
    (k : Z) :
  0 <= k -> indexOfFrom stack entry k = -1 ->
  Forall (fun e => strictEquals e entry = false) stack.
Proof.
  revert k. induction stack as [|e stack IH]; intros k Hk H; simpl in *.
  - constructor.
  - destruct (strictEquals e entry) eqn:E; [lia|].
    constructor; [exact E|]. apply (IH (k + 1)); [lia|exact H].
Qed.

Lemma indexOfFrom_snoc (stack : list StackEntry) (entry : StackEntry) (k : Z) :
  Forall (fun e => strictEquals e entry = false) stack ->
  strictEquals entry entry = true ->
  indexOfFrom (stack ++ [entry]) entry k = k + Z.of_nat (List.length stack).
Proof.
  intros Hmissing Hself. revert k.
  induction Hmissing as [|e stack He _ IH]; intros k; simpl.
  - rewrite Hself. lia.
  - rewrite He, IH. lia.
Qed.

Lemma indexOfFrom_never (stack : list StackEntry) (entry : StackEntry) (k : Z) :
  (forall e, strictEquals e entry = false) ->
  indexOfFrom stack entry k = -1.
Proof.
  intros Hnever. revert k. induction stack as [|e stack IH]; intros k; simpl.
  - reflexivity.
  - rewrite Hnever. apply IH.
Qed.

End StackFacts.

(** X7. On a program whose stack position is the length of its stack,
    [findOrAddStackEntry] returns the index of an entry of the stack that
    is the entry asked for or strictly equals it, and the stack position
    stays the length of the stack. *)
Theorem findOrAddStackEntry_address (entry : StackEntry)
    (p p' : CompilerProgram.t) (i : Z) :
  stackAligned p ->
  CompilerProgram.findOrAddStackEntry entry p = Returned (i, p') ->
  0 <= i
  /\ (exists e,
        List.nth_error (CompilerProgram.stack p') (Z.to_nat i) = Some e
        /\ (e = entry \/ strictEquals e entry = true))
  /\ stackAligned p'.
Proof.
  intros Haligned H.
  destruct (findOrAddStackEntry_cases _ _ _ _ H)
    as [(Hfound & -> & ->)|(Hmissing & Hpush)].
  - unfold indexOf in *.
    destruct (indexOfFrom_range (CompilerProgram.stack p) entry 0) as [E|E];
      [contradiction|].
    split; [lia|]. split; [|exact Haligned].
    destruct (indexOfFrom_found _ _ 0 ltac:(lia) Hfound) as (e & Hnth & He).
    rewrite Z.sub_0_r in Hnth. exists e. auto.
  - apply pushStack_store in Hpush.
    destruct Hpush as (-> & Hstack & Hposition & _).
    unfold stackAligned in *. rewrite Haligned. split; [lia|]. split.
    + exists entry. split; [|now left].
      rewrite Hstack, Nat2Z.id, List.nth_error_app2 by lia.
      now rewrite Nat.sub_diag.
    + rewrite Hposition, Hstack, Haligned, List.length_app. simpl. lia.
Qed.

Lemma findOrAddStackEntry_address_witness :
  0 <= 0
  /\ (exists e,
        List.nth_error
          (CompilerProgram.stack
             (CompilerProgram.set_stackPosition
                (CompilerProgram.set_stack CompilerProgram.new
                   [SeString (codeUnits "a")]) 1))
          (Z.to_nat 0) = Some e
        /\ (e = SeString (codeUnits "a")
            \/ strictEquals e (SeString (codeUnits "a")) = true))
  /\ stackAligned
       (CompilerProgram.set_stackPosition
          (CompilerProgram.set_stack CompilerProgram.new
             [SeString (codeUnits "a")]) 1).
Proof.
  apply (findOrAddStackEntry_address (SeString (codeUnits "a"))
           CompilerProgram.new).
  - reflexivity.
  - reflexivity.
Defined.

(** X8. Asking twice for an entry that is compared by value (a string, a
    number, a boolean) or that is a node of the parsed source gives the same
    index twice, and the second call leaves the program as it is. *)
Theorem findOrAddStackEntry_idempotent (entry : StackEntry)
    (p p' : CompilerProgram.t) (i : Z) :
  stackAligned p ->
  strictEquals entry entry = true ->
  CompilerProgram.findOrAddStackEntry entry p = Returned (i, p') ->
  CompilerProgram.findOrAddStackEntry entry p' = Returned (i, p').
Proof.
  intros Haligned Hself H.
  destruct (findOrAddStackEntry_cases _ _ _ _ H)
    as [(Hfound & -> & ->)|(Hmissing & Hpush)].
  - exact H.
  - apply pushStack_store in Hpush.
    destruct Hpush as (-> & Hstack & _).
    unfold CompilerProgram.findOrAddStackEntry. rewrite Hstack.
    unfold indexOf in *. rewrite indexOfFrom_snoc.
    + unfold stackAligned in Haligned. rewrite Haligned.
      replace (0 + Z.of_nat (List.length (CompilerProgram.stack p)) =? -1)
        with false by (symmetry; apply Z.eqb_neq; lia).
      reflexivity.
    + eapply indexOfFrom_missing; [|exact Hmissing]. lia.
    + exact Hself.
Qed.

Lemma findOrAddStackEntry_idempotent_witness :
  CompilerProgram.findOrAddStackEntry (SeString (codeUnits "a"))
    (CompilerProgram.set_stackPosition
       (CompilerProgram.set_stack CompilerProgram.new
          [SeString (codeUnits "a")]) 1)
  = Returned
      (0, CompilerProgram.set_stackPosition
            (CompilerProgram.set_stack CompilerProgram.new
               [SeString (codeUnits "a")]) 1).
Proof.
  apply (findOrAddStackEntry_idempotent (SeString (codeUnits "a"))
           CompilerProgram.new).
  - reflexivity.
  - reflexivity.
  - reflexivity.
Defined.

(** X9. An expression that the node factory makes for the call (the arrow
    function around a default value or around an enum) is identical to no
    entry of the stack: [findOrAddStackEntry] always pushes it, and shares
    none. *)
Theorem factory_expressions_are_not_shared (x : Expression)
    (p : CompilerProgram.t) :
  (forall id text, x <> ENode id text) ->
  CompilerProgram.findOrAddStackEntry (SeExpression x) p
  = CompilerProgram.pushStack (SeExpression x) p.
Proof.
  intros Hmade. unfold CompilerProgram.findOrAddStackEntry, indexOf.
  rewrite indexOfFrom_never; [reflexivity|].
  intros e. destruct e as [[]| | | |]; try reflexivity.
  destruct x; try reflexivity. exfalso. eapply Hmade. reflexivity.
Qed.

Lemma factory_expressions_are_not_shared_witness :
  CompilerProgram.findOrAddStackEntry
    (SeExpression (EArrowFunction (EInitializerOf 7)))
    (CompilerProgram.set_stack CompilerProgram.new
       [SeExpression (EArrowFunction (EInitializerOf 7))])
  = CompilerProgram.pushStack
      (SeExpression (EArrowFunction (EInitializerOf 7)))
      (CompilerProgram.set_stack CompilerProgram.new
         [SeExpression (EArrowFunction (EInitializerOf 7))]).
Proof.
  apply factory_expressions_are_not_shared. intros id text. discriminate.
Defined.

(** ** Coroutines *)

Section CoRoutineFacts.

(** The ops of the built structure, when a coroutine was completed. *)
Lemma buildPackStruct_ops (q : CompilerProgram.t) :
  offsetInvariant q -> CompilerProgram.coRoutines q <> [] ->
  ps_ops (CompilerProgram.buildPackStruct q)
  = [opcode op_jump; CompilerProgram.mainOffset q]
      ++ coRoutineOps q ++ CompilerProgram.ops q.
Proof.
  intros Hinv Hne. unfold offsetInvariant in Hinv.
  unfold CompilerProgram.buildPackStruct.
  destruct (CompilerProgram.coRoutines q) as [|c cs] eqn:Ecs;
    [contradiction|].
  rewrite <- Ecs. rewrite unshiftCoRoutines_all.
  replace (CompilerProgram.mainOffset q =? 0) with false
    by (symmetry; apply Z.eqb_neq; lia).
  rewrite Ecs at 1. reflexivity.
Qed.

(** The index [popCoRoutine] returns counts the [jump] prelude and the ops
    of the coroutines completed before. *)
Lemma popCoRoutine_start (p p' : CompilerProgram.t) (start : Z) :
  offsetInvariant p ->
  CompilerProgram.popCoRoutine p = Returned (start, p') ->
  start = 2 + Z.of_nat (List.length (coRoutineOps p)).
Proof.
  intros Hinv H. apply popCoRoutine_store in H.
  destruct H as (co & _ & _ & _ & -> & _).
  unfold offsetInvariant, coRoutineOps in *.
  destruct (CompilerProgram.coRoutines p) as [|c cs].
  - rewrite Hinv. reflexivity.
  - rewrite Hinv.
    replace (2 + Z.of_nat _ =? 0) with false
      by (symmetry; apply Z.eqb_neq; lia).
    reflexivity.
Qed.

Lemma firstn_skipn_middle {A : Type} (before middle after : list A) :
  List.firstn (List.length middle)
    (List.skipn (List.length before) (before ++ middle ++ after))
  = middle.
Proof.
  induction before as [|b before IH]; simpl; [|exact IH].
  induction middle as [|m middle IHm]; simpl; [reflexivity|].
  f_equal. exact IHm.
Qed.

End CoRoutineFacts.

(** X10. The index that [popCoRoutine] returns is the address of the
    coroutine in the finished program: in the ops that [buildPackStruct]
    makes of any later reachable program, the ops of the coroutine,
    followed by [return], start at that index. *)
Theorem popCoRoutine_returns_address (p p' q : CompilerProgram.t) (start : Z) :
  reachable p ->
  CompilerProgram.popCoRoutine p = Returned (start, p') ->
  reachable q ->
  (exists later,
      CompilerProgram.coRoutines q = CompilerProgram.coRoutines p' ++ later) ->
  exists co,
    CompilerProgram.lastCoRoutine p = Some co
    /\ List.firstn (List.length (CompilerProgram.co_ops co) + 1)
         (List.skipn (Z.to_nat start)
            (ps_ops (CompilerProgram.buildPackStruct q)))
       = CompilerProgram.co_ops co ++ [opcode op_return].
Proof.
  intros Hp H Hq [later Hlater].
  apply offsetInvariant_reachable in Hp, Hq.
  pose proof (popCoRoutine_start _ _ _ Hp H) as Hstart.
  apply popCoRoutine_store in H.
  destruct H as (co & Hlast & _ & Hcompleted & _).
  exists co. split; [exact Hlast|].
  assert (Hops : coRoutineOps q
                 = coRoutineOps p
                     ++ (CompilerProgram.co_ops co ++ [opcode op_return])
                     ++ List.concat (List.map CompilerProgram.co_ops later)).
  { unfold coRoutineOps. rewrite Hlater, Hcompleted.
    rewrite !List.map_app, !List.concat_app. simpl List.map.
    simpl List.concat. now rewrite app_nil_r, <- app_assoc. }
  rewrite buildPackStruct_ops; [|exact Hq|].
  - rewrite Hops.
    replace (Z.to_nat start)
      with (List.length ([opcode op_jump; CompilerProgram.mainOffset q]
                           ++ coRoutineOps p))
      by (rewrite List.length_app; simpl List.length; lia).
    replace (List.length (CompilerProgram.co_ops co) + 1)%nat
      with (List.length (CompilerProgram.co_ops co ++ [opcode op_return]))
      by (rewrite List.length_app; reflexivity).
    rewrite <- (firstn_skipn_middle
                  ([opcode op_jump; CompilerProgram.mainOffset q]
                     ++ coRoutineOps p)
                  (CompilerProgram.co_ops co ++ [opcode op_return])
                  (List.concat (List.map CompilerProgram.co_ops later)
                     ++ CompilerProgram.ops q)) at 3.
    now rewrite <- !app_assoc.
  - rewrite Hlater, Hcompleted. intros E.
    apply List.app_eq_nil in E. destruct E as [E _].
    apply List.app_eq_nil in E. destruct E as [_ E]. discriminate E.
Qed.

Lemma popCoRoutine_returns_address_witness :
  exists co,
    CompilerProgram.lastCoRoutine WorkedPrograms.openCoRoutine = Some co
    /\ List.firstn (List.length (CompilerProgram.co_ops co) + 1)
         (List.skipn (Z.to_nat 2)
            (ps_ops (CompilerProgram.buildPackStruct
                       WorkedPrograms.closedCoRoutine)))
       = CompilerProgram.co_ops co ++ [opcode op_return].
Proof.
  apply (popCoRoutine_returns_address WorkedPrograms.openCoRoutine
           WorkedPrograms.closedCoRoutine WorkedPrograms.closedCoRoutine 2).
  - exists WorkedPrograms.coRoutineCalls. vm_compute. reflexivity.
  - vm_compute. reflexivity.
  - exists (WorkedPrograms.coRoutineCalls ++ [CallPopCoRoutine]).
    vm_compute. reflexivity.
  - exists []. vm_compute. reflexivity.
Defined.

(** X11. Opening a coroutine, pushing ops and closing it again leaves the
    main buffer, the stack, the current frame and the open coroutines as
    they were: the ops, followed by [return], are added to the completed
    coroutines, the main offset grows by their number, and the index
    returned is the main offset before ([2] for the first coroutine). *)
Theorem coRoutine_bracket (body : list Z) (p : CompilerProgram.t) :
  bind CompilerProgram.pushCoRoutine (fun _ =>
  bind (CompilerProgram.pushOp body) (fun _ =>
  CompilerProgram.popCoRoutine)) p
  = let start := if CompilerProgram.mainOffset p =? 0 then 2
                 else CompilerProgram.mainOffset p in
    Returned
      (start,
       CompilerProgram.mk (CompilerProgram.ops p) (CompilerProgram.stack p)
         (start + Z.of_nat (List.length (body ++ [opcode op_return])))
         (CompilerProgram.stackPosition p) (CompilerProgram.frame p)
         (CompilerProgram.activeCoRoutines p)
         (CompilerProgram.coRoutines p
            ++ [CompilerProgram.mkCoRoutine (body ++ [opcode op_return])])).
Proof.
  destruct p as [ops stack mainOffset stackPosition frame active completed].
  unfold bind at 1.
  unfold CompilerProgram.pushCoRoutine, CompilerProgram.pushFrame, bind, when,
    ret, modify. cbn [negb].
  unfold CompilerProgram.pushOp, CompilerProgram.popCoRoutine.
  cbn [CompilerProgram.activeCoRoutines CompilerProgram.set_activeCoRoutines
       CompilerProgram.set_frame CompilerProgram.ops CompilerProgram.stack
       CompilerProgram.mainOffset CompilerProgram.stackPosition
       CompilerProgram.frame CompilerProgram.coRoutines].
  rewrite List.length_app. simpl List.length.
  replace (List.length active + 1 =? 0)%nat with false
    by (symmetry; apply Nat.eqb_neq; lia).
  cbn [negb]. unfold CompilerProgram.updateLastCoRoutine.
  rewrite lastCoRoutine_snoc.
  cbn [CompilerProgram.activeCoRoutines CompilerProgram.set_activeCoRoutines].
  rewrite List.removelast_last, lastCoRoutine_snoc.
  cbn [CompilerProgram.activeCoRoutines CompilerProgram.set_activeCoRoutines
       CompilerProgram.co_ops].
  rewrite List.removelast_last.
  unfold CompilerProgram.popFrame.
  cbn [CompilerProgram.frame CompilerProgram.set_frame
       CompilerProgram.set_activeCoRoutines previous].
  cbn [CompilerProgram.mainOffset CompilerProgram.set_frame
       CompilerProgram.set_activeCoRoutines CompilerProgram.set_mainOffset
       CompilerProgram.set_coRoutines CompilerProgram.coRoutines
       CompilerProgram.co_ops CompilerProgram.ops CompilerProgram.stack
       CompilerProgram.stackPosition CompilerProgram.frame
       CompilerProgram.activeCoRoutines app].
  destruct (mainOffset =? 0);
    cbn [CompilerProgram.mainOffset CompilerProgram.set_frame
         CompilerProgram.set_activeCoRoutines CompilerProgram.set_mainOffset
         CompilerProgram.set_coRoutines CompilerProgram.coRoutines
         CompilerProgram.co_ops CompilerProgram.ops CompilerProgram.stack
         CompilerProgram.stackPosition CompilerProgram.frame
         CompilerProgram.activeCoRoutines];
    reflexivity.
Qed.

(** ** Looking up frames and variables *)

(** X12. [findVariable] answers with the nearest binding: the frame offset
    it returns is the number of frames between the current frame and the
    first frame of the chain that binds the name, and the stack index is
    the one that frame gives to the name.  It answers nothing exactly when
    no frame of the chain binds the name. *)
Theorem findVariable_nearest (frame : Frame) (name : string) :
  match findVariable frame name 0 with
  | Some found =>
      exists (n : nat) (binder : Frame) (variable : string * Z),
        frameOffset found = Z.of_nat n
        /\ frameAt frame n = Some binder
        /\ findByName (variables binder) name = Some variable
        /\ stackIndex found = snd variable
        /\ (forall (m : nat) (nearer : Frame),
              (m < n)%nat -> frameAt frame m = Some nearer ->
              findByName (variables nearer) name = None)
  | None =>
      forall (n : nat) (any : Frame),
        frameAt frame n = Some any -> findByName (variables any) name = None
  end.
Proof.
  induction frame as [vars index cond|vars index cond prev IH]
    using Frame_chain_ind.
  - simpl. destruct (findByName vars name) as [variable|] eqn:E.
    + exists O, (mkFrame vars index cond None), variable.
      repeat split; try assumption. intros m nearer Hm. lia.
    + intros [|n] any H; simpl in H; [|discriminate].
      inversion H; subst. exact E.
  - simpl. destruct (findByName vars name) as [variable|] eqn:E.
    + exists O, (mkFrame vars index cond (Some prev)), variable.
      repeat split; try assumption. intros m nearer Hm. lia.
    + rewrite findVariable_offset.
      destruct (findVariable prev name 0) as [found|]; simpl.
      * destruct IH as (n & binder & variable & Hoff & Hat & Hfind & Hidx
                        & Hnear).
        exists (S n), binder, variable. repeat split; try assumption.
        -- rewrite Hoff. lia.
        -- intros [|m] nearer Hm H; simpl in H.
           ++ inversion H; subst. exact E.
           ++ eapply Hnear; [|exact H]. lia.
      * intros [|n] any H; simpl in H.
        -- inversion H; subst. exact E.
        -- eapply IH; eauto.
Qed.

(** X13. [findConditionalFrame] answers with the nearest frame of the chain
    that is marked conditional, and with nothing exactly when no frame of
    the chain is. *)
Theorem findConditionalFrame_nearest (frame : Frame) :
  match findConditionalFrame frame with
  | Some n =>
      exists found,
        frameAt frame n = Some found
        /\ conditional found = true
        /\ (forall (m : nat) (nearer : Frame),
              (m < n)%nat -> frameAt frame m = Some nearer ->
              conditional nearer = false)
  | None =>
      forall (n : nat) (any : Frame),
        frameAt frame n = Some any -> conditional any = false
  end.
Proof.
  induction frame as [vars index cond|vars index cond prev IH]
    using Frame_chain_ind.
  - simpl. destruct cond.
    + eexists. repeat split. intros m nearer Hm. lia.
    + intros [|n] any H; simpl in H; [|discriminate].
      now inversion H.
  - simpl. destruct cond.
    + eexists. repeat split. intros m nearer Hm. lia.
    + destruct (findConditionalFrame prev) as [n|]; simpl.
      * destruct IH as (found & Hat & Hcond & Hnear).
        exists found. repeat split; try assumption.
        intros [|m] nearer Hm H; simpl in H.
        -- now inversion H.
        -- eapply Hnear; [|exact H]. lia.
      * intros [|n] any H; simpl in H.
        -- now inversion H.
        -- eapply IH; eauto.
Qed.

Section TemplateParameters.

Lemma pushTemplateParameter_frame (name : string) (p : CompilerProgram.t) :
  exists i p',
    CompilerProgram.pushTemplateParameter name p = Returned (i, p')
    /\ CompilerProgram.frame p'
       = bindVariable name
           (Z.of_nat (List.length (variables (CompilerProgram.frame p))))
           (CompilerProgram.frame p).
Proof.
  unfold CompilerProgram.pushTemplateParameter, bind.
  destruct (CompilerProgram.findOrAddStackEntry (SeString (codeUnits name)) p)
    as [[index p1]| |] eqn:E.
  2-3: unfold CompilerProgram.findOrAddStackEntry, CompilerProgram.pushStack
         in E; destruct (negb _); discriminate.
  assert (Hframe : CompilerProgram.frame p1 = CompilerProgram.frame p).
  { destruct (findOrAddStackEntry_cases _ _ _ _ E) as [(_ & _ & ->)|(_ & H)];
      [reflexivity|]. now apply pushStack_store in H. }
  rewrite pushOp_editBuffer. do 2 eexists. split; [reflexivity|].
  cbn [CompilerProgram.frame CompilerProgram.set_frame].
  assert (Hedit : CompilerProgram.frame
                    (editBuffer (fun o => o ++ [opcode op_template; index]) p1)
                  = CompilerProgram.frame p1) by apply editBuffer_rest.
  rewrite Hedit, Hframe. reflexivity.
Qed.

Lemma pushTemplateParameters_frame
    (typeParameters : list TypeParameterDeclaration)
    (nameOfParameter : TypeParameterDeclaration -> string) (w : WalkState) :
  exists w',
    pushTemplateParameters (Some typeParameters) nameOfParameter w
    = Returned (tt, w')
    /\ CompilerProgram.frame (program w')
       = mkFrame
           (variables (CompilerProgram.frame (program w))
              ++ List.combine (List.map nameOfParameter typeParameters)
                   (List.map Z.of_nat
                      (List.seq
                         (List.length
                            (variables (CompilerProgram.frame (program w))))
                         (List.length
                            (List.map nameOfParameter typeParameters)))))
           (opIndex (CompilerProgram.frame (program w)))
           (conditional (CompilerProgram.frame (program w)))
           (previous (CompilerProgram.frame (program w))).
Proof.
  unfold pushTemplateParameters. revert w.
  induction typeParameters as [|tp tps IH]; intros [t p]; cbn [forEach].
  - eexists. split; [reflexivity|]. cbn [program List.map List.length
      List.seq List.combine]. rewrite app_nil_r.
    now destruct (CompilerProgram.frame p).
  - destruct (pushTemplateParameter_frame (nameOfParameter tp) p)
      as (i & p1 & E & Hframe).
    unfold bind at 1. unfold bind at 1. unfold onProgram at 1.
    cbn [program this]. rewrite E. unfold ret at 1.
    destruct (IH (mkWalk t p1)) as (w' & Hrun & Hframe').
    exists w'. split; [exact Hrun|].
    rewrite Hframe'. cbn [program]. rewrite Hframe.
    unfold bindVariable.
    cbn [variables opIndex conditional previous List.map List.length List.seq
         List.combine].
    rewrite List.length_app. simpl List.length.
    rewrite <- app_assoc. simpl app.
    replace (List.length (variables (CompilerProgram.frame p)) + 1)%nat
      with (S (List.length (variables (CompilerProgram.frame p)))) by lia.
    reflexivity.
Qed.

Lemma findByName_numbered (names : list string) (from i : nat) (name : string) :
  List.NoDup names -> List.nth_error names i = Some name ->
  findByName
    (List.combine names (List.map Z.of_nat (List.seq from (List.length names))))
    name
  = Some (name, Z.of_nat (from + i)).
Proof.
  unfold findByName. revert from i.
  induction names as [|n names IH]; intros from i Hnodup Hnth.
  - destruct i; discriminate.
  - inversion Hnodup as [|? ? Hnotin Hrest]; subst.
    cbn [List.length List.seq List.map List.combine List.find fst].
    destruct i as [|i]; simpl in Hnth.
    + inversion Hnth; subst. rewrite String.eqb_refl.
      now rewrite Nat.add_0_r.
    + destruct (String.eqb n name) eqn:E.
      * apply String.eqb_eq in E. subst n. exfalso. apply Hnotin.
        eapply List.nth_error_In; eauto.
      * rewrite (IH (S from) i Hrest Hnth). f_equal. f_equal. lia.
Qed.

End TemplateParameters.

(** X14. Type parameters are numbered in the order of their declaration:
    after [pushTemplateParameter] was called for each of them, the current
    frame has one more variable for each, with the positions that follow
    those it had as stack indexes.  On a frame that had no variable, a
    parameter whose name is declared once is found at frame offset [0] with
    its position as stack index. *)
Theorem template_parameters_are_numbered
    (typeParameters : list TypeParameterDeclaration)
    (nameOfParameter : TypeParameterDeclaration -> string) (w : WalkState) :
  exists w',
    pushTemplateParameters (Some typeParameters) nameOfParameter w
    = Returned (tt, w')
    /\ variables (CompilerProgram.frame (program w'))
       = variables (CompilerProgram.frame (program w))
           ++ List.combine (List.map nameOfParameter typeParameters)
                (List.map Z.of_nat
                   (List.seq
                      (List.length
                         (variables (CompilerProgram.frame (program w))))
                      (List.length typeParameters)))
    /\ previous (CompilerProgram.frame (program w'))
       = previous (CompilerProgram.frame (program w))
    /\ (variables (CompilerProgram.frame (program w)) = [] ->
        List.NoDup (List.map nameOfParameter typeParameters) ->
        forall (i : nat) (typeParameter : TypeParameterDeclaration),
          List.nth_error typeParameters i = Some typeParameter ->
          findVariable (CompilerProgram.frame (program w'))
            (nameOfParameter typeParameter) 0
          = Some (mkVariableRef 0 (Z.of_nat i))).
Proof.
  destruct (pushTemplateParameters_frame typeParameters nameOfParameter w)
    as (w' & Hrun & Hframe).
  exists w'. split; [exact Hrun|]. rewrite Hframe.
  cbn [variables previous]. rewrite List.length_map.
  split; [reflexivity|]. split; [reflexivity|].
  intros Hnone Hnodup i typeParameter Hnth. rewrite Hnone. simpl app.
  simpl List.length.
  assert (Hname : List.nth_error (List.map nameOfParameter typeParameters) i
                  = Some (nameOfParameter typeParameter))
    by (rewrite List.nth_error_map, Hnth; reflexivity).
  pose proof (findByName_numbered _ 0 i _ Hnodup Hname) as Hfound.
  rewrite List.length_map in Hfound.
  cbn [findVariable variables]. rewrite Hfound. reflexivity.
Qed.

(** ** The codec beyond the packable range *)

Section CodecFacts.

Lemma unpack_pack_ops (ops : list Z) :
  unpack (pack (OfOps ops))
  = mkPackStruct (List.map (fun v => (v + 33) mod 65536 - 33) ops) [].
Proof.
  unfold pack, unpack. rewrite unpackOps_app, encode_units. simpl.
  rewrite List.map_map. reflexivity.
Qed.

Lemma wraps_iff (v : Z) : (v + 33) mod 65536 - 33 = v <-> -33 <= v < 65503.
Proof.
  split.
  - intros H. pose proof (Z.mod_pos_bound (v + 33) 65536 ltac:(lia)). lia.
  - intros H. rewrite Z.mod_small by lia. lia.
Qed.

Lemma encode_decode (s : JsString) :
  Forall (fun c => 0 <= c < 65536) s ->
  join (List.map (fun v => fromCharCode (v + 33)) (unpackOps [] s)) = s.
Proof.
  intros Hunits. rewrite unpackOps_app, encode_units. simpl.
  rewrite List.map_map.
  induction Hunits as [|c s Hc _ IH]; simpl; [reflexivity|].
  rewrite IH. f_equal. unfold ToUint16.
  replace (c - 33 + 33) with c by lia. now apply Z.mod_small.
Qed.

End CodecFacts.

(** X15. Packing an op array and unpacking the string gives the array back
    exactly when every value lies between [-33] and [65502]: a value is
    written as the code unit [(v + 33) mod 65536] and read back as that
    unit minus [33], so all [69] ops and every operand up to [65502]
    survive, and a larger or smaller value comes back wrapped. *)
Theorem unpack_pack_ops_exact (ops : list Z) :
  unpack (pack (OfOps ops))
  = mkPackStruct (List.map (fun v => (v + 33) mod 65536 - 33) ops) []
  /\ (unpack (pack (OfOps ops)) = mkPackStruct ops []
      <-> Forall (fun v => -33 <= v < 65503) ops).
Proof.
  split; [apply unpack_pack_ops|]. rewrite unpack_pack_ops. split.
  - intros H. injection H as Hmap.
    induction ops as [|v ops IH]; [constructor|].
    cbn [List.map] in Hmap. injection Hmap as Hv Hrest.
    constructor; [apply wraps_iff; exact Hv|]. apply IH. exact Hrest.
  - intros H. f_equal. induction H as [|v ops Hv _ IH]; simpl; [reflexivity|].
    rewrite IH. f_equal. now apply wraps_iff.
Qed.

(** X16. Unpacking and packing again gives back what was unpacked: a string
    as it was, an array that ends with the encoded string and has entries
    before it as it was, and an array that holds the encoded string alone
    as the string itself. *)
Theorem pack_unpack_roundtrip (encoded : JsString) :
  Forall (fun c => 0 <= c < 65536) encoded ->
  pack (OfStruct (unpack (PString encoded))) = PString encoded
  /\ (forall entries : list StackEntry,
         entries <> [] ->
         pack (OfStruct (unpack (PArray (entries ++ [SeString encoded]))))
         = PArray (entries ++ [SeString encoded]))
  /\ pack (OfStruct (unpack (PArray [SeString encoded]))) = PString encoded.
Proof.
  intros Hunits. split; [|split].
  - unfold unpack, pack. cbn [ps_ops ps_stack]. now rewrite encode_decode.
  - intros entries Hne. unfold unpack. rewrite lastItem_snoc.
    rewrite sliceButLast_snoc, List.length_app. simpl List.length.
    replace (1 <? Z.of_nat (List.length entries + 1)) with true.
    + cbv beta iota zeta. cbn [app]. unfold pack. cbn [ps_ops ps_stack].
      rewrite encode_decode by assumption.
      destruct entries; [contradiction|reflexivity].
    + symmetry. apply Z.ltb_lt. destruct entries; [contradiction|].
      simpl List.length. lia.
  - unfold unpack.
    change (lastItem [SeString encoded]) with (Some (SeString encoded)).
    change (1 <? Z.of_nat (List.length [SeString encoded])) with false.
    cbv beta iota zeta. unfold pack. cbn [ps_ops ps_stack].
    now rewrite encode_decode.
Qed.

Lemma pack_unpack_roundtrip_witness :
  pack (OfStruct (unpack (PString [36; 47]))) = PString [36; 47]
  /\ pack (OfStruct (unpack (PArray [SeString [36; 47]]))) = PString [36; 47].
Proof.
  destruct (pack_unpack_roundtrip [36; 47]) as (H1 & _ & H3).
  - repeat constructor; lia.
  - split; [exact H1|exact H3].
Defined.

(** ** References and members *)

Section ReferenceFacts.
Variable getNameAsString : option PropertyName -> string.
Variable getPropertyName : option PropertyName -> StackEntry.
Variable hasModifier : list SyntaxKind.t -> SyntaxKind.t -> bool.
Variable extractJSDocAttribute : Node -> string -> string.
Variable resolveDeclaration : Node -> option Resolved.
Variable getJSDocTags : Node -> list (list JSDocTag).
Variable tsConfigs : list TsConfigProbe.
Variable TypeNumberBrand_integer : Z.
Variable TypeNumberBrand_int8 : Z.
Variable TypeNumberBrand_int16 : Z.

Let walk : nat -> Node -> W unit :=
  extractPackStructOfType getNameAsString getPropertyName hasModifier
    extractJSDocAttribute resolveDeclaration getJSDocTags tsConfigs
    TypeNumberBrand_integer TypeNumberBrand_int8 TypeNumberBrand_int16.

(** X17. A reference by one of the names of the table [knownClasses] is
    emitted as the op of the table and nothing else: the type arguments are
    not walked, and neither a variable bound under that name nor a
    declaration the resolver knows under it is looked at. *)
Theorem known_class_reference (fuel : nat) (id : Z) (text : string)
    (op : ReflectionOp) (typeArguments : option (list Node)) (w : WalkState) :
  knownClasses text = Some op ->
  walk (S fuel) (TypeReference (Identifier id text) typeArguments) w
  = Returned (tt, mkWalk (this w)
                    (editBuffer (fun o => o ++ [opcode op]) (program w))).
Proof.
  intros Hknown. unfold walk. cbn [extractPackStructOfType].
  unfold extractPackStructOfTypeReference, knownClassesLookup.
  rewrite Hknown. apply onProgram_pushOp.
Qed.

(** X18. A reference to a name that a frame of the chain binds (a type
    parameter, the key of a mapped type, an inferred variable) is emitted
    as [loads] with the frame offset and the stack index of the nearest
    binding; the resolver is not asked and the type arguments are not
    walked.  The names that come first are left out: those for which
    [this.knownClasses[name]] answers (the names of the table and those
    every object inherits), [Promise] and the numeric brands. *)
Theorem bound_variable_reference (fuel : nat) (id : Z) (text : string)
    (variable : VariableRef) (typeArguments : option (list Node))
    (w : WalkState) :
  knownClassesLookup text = None ->
  text <> "Promise"%string -> text <> "integer"%string ->
  text <> "int8"%string -> text <> "int16"%string ->
  findVariable (CompilerProgram.frame (program w)) text 0 = Some variable ->
  walk (S fuel) (TypeReference (Identifier id text) typeArguments) w
  = Returned (tt, mkWalk (this w)
                    (editBuffer
                       (fun o => o ++ [opcode op_loads; frameOffset variable;
                                       stackIndex variable]) (program w))).
Proof.
  intros Hknown Hp Hi Hi8 Hi16 Hbound. unfold walk.
  cbn [extractPackStructOfType]. unfold extractPackStructOfTypeReference.
  rewrite Hknown. apply String.eqb_neq in Hp, Hi, Hi8, Hi16.
  rewrite Hp, Hi, Hi8, Hi16.
  destruct w as [t p]. unfold bind, onProgram, CompilerProgram.findVariable.
  cbn [program this] in *. rewrite Hbound. apply onProgram_pushOp.
Qed.








End ReferenceFacts.

Lemma known_class_reference_witness :
  Sample.walk Sample.recursiveResolver 1
    (TypeReference (Identifier 9 "Date")
       (Some [Token SyntaxKind.StringKeyword]))
    (mkWalk Sample.transformer CompilerProgram.new)
  = Returned (tt, mkWalk Sample.transformer
                    (editBuffer (fun o => o ++ [opcode op_date])
                       CompilerProgram.new)).
Proof.
  apply (known_class_reference Sample.getNameAsString Sample.getPropertyName
           Sample.hasModifier Sample.extractJSDocAttribute
           Sample.recursiveResolver Sample.noTags [] 0 1 2 O 9 "Date" op_date).
  reflexivity.
Defined.

Lemma bound_variable_reference_witness :
  Sample.walk Sample.recursiveResolver 1
    (TypeReference (Identifier 9 "A") None)
    (mkWalk Sample.transformer
       (CompilerProgram.set_frame CompilerProgram.new
          (mkFrame [("A"%string, 0)] 0 false None)))
  = Returned
      (tt, mkWalk Sample.transformer
             (editBuffer (fun o => o ++ [opcode op_loads; 0; 0])
                (CompilerProgram.set_frame CompilerProgram.new
                   (mkFrame [("A"%string, 0)] 0 false None)))).
Proof.
  apply (bound_variable_reference Sample.getNameAsString
           Sample.getPropertyName Sample.hasModifier
           Sample.extractJSDocAttribute Sample.recursiveResolver
           Sample.noTags [] 0 1 2 O 9 "A" (mkVariableRef 0 0) None
           (mkWalk Sample.transformer
              (CompilerProgram.set_frame CompilerProgram.new
                 (mkFrame [("A"%string, 0)] 0 false None)))).
  - reflexivity.
  - discriminate.
  - discriminate.
  - discriminate.
  - discriminate.
  - reflexivity.
Defined.


(** ** The reflection mode of a node *)

Section ConfigFacts.
Variable getJSDocTags : Node -> list (list JSDocTag).
Variable tsConfigs : list TsConfigProbe.

Let mode : ReflectionTransformer.t -> Node -> string :=
  findReflectionConfig getJSDocTags tsConfigs.

Lemma findReflectionTagInChain_nearest (before after : list (list JSDocTag))
    (tags : list JSDocTag) (found : string) :
  Forall (fun own => findReflectionTag own = None) before ->
  findReflectionTag tags = Some found ->
  findReflectionTagInChain (before ++ tags :: after) = Some found.
Proof.
  intros Hbefore Htags. induction Hbefore as [|own before Hown _ IH]; simpl.
  - now rewrite Htags.
  - now rewrite Hown.
Qed.

Lemma findReflectionInTsConfigs_nearest (skipped above : list TsConfigProbe)
    (reflection : ModeInput) :
  Forall (fun probe => probe = NoTsConfig \/ probe = MalformedTsConfig
                       \/ probe = TsConfig ModeUndefined) skipped ->
  reflection <> ModeUndefined ->
  findReflectionInTsConfigs (skipped ++ TsConfig reflection :: above)
  = Some (parseReflectionMode reflection).
Proof.
  intros Hskipped Hdefined.
  induction Hskipped as [|probe skipped Hprobe _ IH]; simpl.
  - destruct reflection; try reflexivity. contradiction.
  - destruct Hprobe as [->|[->| ->]]; exact IH.
Qed.

Lemma findReflectionInTsConfigs_none (probes : list TsConfigProbe) :
  Forall (fun probe => probe = NoTsConfig \/ probe = MalformedTsConfig
                       \/ probe = TsConfig ModeUndefined) probes ->
  findReflectionInTsConfigs probes = None.
Proof.
  intros Hprobes. induction Hprobes as [|probe probes Hprobe _ IH]; simpl.
  - reflexivity.
  - destruct Hprobe as [->|[->| ->]]; exact IH.
Qed.

(** X20. The nearest [@reflection] tag decides: when the node or one of its
    ancestors carries a [@reflection] tag with a text, the mode is the text
    of the first such tag on the way up (['default'] when the text is
    empty), whatever mode the transformer was given and whatever the
    [tsconfig.json] files say. *)
Theorem nearest_reflection_tag_decides (this_ : ReflectionTransformer.t)
    (node : Node) (before after : list (list JSDocTag))
    (tags : list JSDocTag) (found : string) :
  getJSDocTags node = before ++ tags :: after ->
  Forall (fun own => findReflectionTag own = None) before ->
  findReflectionTag tags = Some found ->
  mode this_ node = (if String.eqb found "" then "default"%string else found).
Proof.
  intros Hchain Hbefore Htags. unfold mode, findReflectionConfig.
  rewrite Hchain, (findReflectionTagInChain_nearest _ _ _ _ Hbefore Htags).
  destruct (String.eqb found "") eqn:E; simpl; [reflexivity|].
  now rewrite E.
Qed.

(** X21. Without a [@reflection] tag on the way up, the mode given to the
    transformer decides; when none was given, the first [tsconfig.json]
    on the way up the directories that has a [reflection] key decides,
    [true] standing for ['default'] and [false] and the empty text for
    ['never'], while files that are missing, unreadable or without the key
    are passed over; and when no file has the key the mode is
    ['never']. *)
Theorem reflection_mode_fallbacks (this_ : ReflectionTransformer.t)
    (node : Node) :
  findReflectionTagInChain (getJSDocTags node) = None ->
  (forall given,
      ReflectionTransformer.reflectionMode this_ = Some given ->
      mode this_ node = given)
  /\ (ReflectionTransformer.reflectionMode this_ = None ->
      forall skipped reflection above,
        tsConfigs = skipped ++ TsConfig reflection :: above ->
        Forall (fun probe => probe = NoTsConfig \/ probe = MalformedTsConfig
                             \/ probe = TsConfig ModeUndefined) skipped ->
        reflection <> ModeUndefined ->
        mode this_ node = parseReflectionMode reflection
        /\ (reflection = ModeBoolean true -> mode this_ node = "default"%string)
        /\ (reflection = ModeBoolean false -> mode this_ node = "never"%string)
        /\ (reflection = ModeString "" -> mode this_ node = "never"%string))
  /\ (ReflectionTransformer.reflectionMode this_ = None ->
      Forall (fun probe => probe = NoTsConfig \/ probe = MalformedTsConfig
                           \/ probe = TsConfig ModeUndefined) tsConfigs ->
      mode this_ node = "never"%string).
Proof.
  intros Hnotag. unfold mode, findReflectionConfig. rewrite Hnotag.
  split; [|split].
  - intros given ->. reflexivity.
  - intros -> skipped reflection above -> Hskipped Hdefined.
    rewrite (findReflectionInTsConfigs_nearest _ _ _ Hskipped Hdefined).
    split; [reflexivity|]. repeat split; intros ->; reflexivity.
  - intros -> Hnone. now rewrite (findReflectionInTsConfigs_none _ Hnone).
Qed.

End ConfigFacts.

Lemma nearest_reflection_tag_decides_witness :
  findReflectionConfig Sample.taggedClass [TsConfig (ModeBoolean true)]
    Sample.transformer Sample.arrow
  = (if String.eqb "always" "" then "default"%string else "always"%string).
Proof.
  apply (nearest_reflection_tag_decides Sample.taggedClass
           [TsConfig (ModeBoolean true)] Sample.transformer Sample.arrow
           [[]] [[Sample.reflectionTag "never"]]
           [Sample.reflectionTag "always"] "always").
  - reflexivity.
  - repeat constructor.
  - reflexivity.
Defined.

Lemma reflection_mode_fallbacks_witness :
  findReflectionConfig Sample.noTags
    [NoTsConfig; MalformedTsConfig; TsConfig (ModeBoolean true)]
    (ReflectionTransformer.new None) Sample.arrow
  = "default"%string.
Proof.
  destruct (reflection_mode_fallbacks Sample.noTags
              [NoTsConfig; MalformedTsConfig; TsConfig (ModeBoolean true)]
              (ReflectionTransformer.new None) Sample.arrow eq_refl)
    as (_ & Hconfig & _).
  assert (Hskipped :
            Forall (fun probe => probe = NoTsConfig \/ probe = MalformedTsConfig
                                 \/ probe = TsConfig ModeUndefined)
              [NoTsConfig; MalformedTsConfig])
    by (repeat constructor; auto).
  assert (Hdefined : ModeBoolean true <> ModeUndefined) by discriminate.
  destruct (Hconfig eq_refl [NoTsConfig; MalformedTsConfig]
              (ModeBoolean true) [] eq_refl Hskipped Hdefined)
    as (_ & Htrue & _).
  apply Htrue. reflexivity.
Defined.

(** ** Hoisted names and modifier bits *)

Section NameFacts.

Lemma codeUnits_app (a b : string) :
  codeUnits (a ++ b) = codeUnits a ++ codeUnits b.
Proof.
  unfold codeUnits. induction a as [|c a IH]; simpl; [reflexivity|].
  now rewrite IH.
Qed.

End NameFacts.

(** X22. The name of a hoisted binding is made of the text of the reference
    alone: two identifiers with the same text get the same name whatever
    node they are, and a qualified name is flattened with [_], so that
    [A_B.C] and [A.B.C] get the one name [__ΩA_B_C]. *)
Theorem hoisted_names_collide (i j : Z) (a b c : string) :
  getDeclarationVariableName (Identifier i a)
  = getDeclarationVariableName (Identifier j a)
  /\ getDeclarationVariableName
       (QualifiedName (Identifier i (a ++ "_" ++ b)) c)
     = getDeclarationVariableName
         (QualifiedName (QualifiedName (Identifier j a) b) c).
Proof.
  split; [reflexivity|].
  unfold getDeclarationVariableName. cbn [joinQualifiedName].
  rewrite !codeUnits_app, <- !app_assoc. reflexivity.
Qed.

(** X23. The modifier operand of [mappedType] is the sum of two independent
    parts: [1] for [?] and [2] for [-?], and [4] for [readonly] and [8] for
    [-readonly].  Any other token, [+?] and [+readonly] included, adds
    nothing. *)
Theorem mapped_modifier_bits (questionToken readonlyToken : option SyntaxKind.t) :
  mappedModifier questionToken readonlyToken
  = match questionToken with
    | Some SyntaxKind.QuestionToken => 1
    | Some SyntaxKind.MinusToken => 2
    | _ => 0
    end
    + match readonlyToken with
      | Some SyntaxKind.ReadonlyKeyword => 4
      | Some SyntaxKind.MinusToken => 8
      | _ => 0
      end.
Proof.
  assert (Hq : forall kind,
             (if SyntaxKind.eqb kind SyntaxKind.MinusToken
              then Z.lor (if SyntaxKind.eqb kind SyntaxKind.QuestionToken
                          then Z.lor 0 MappedModifier.optional else 0)
                     MappedModifier.removeOptional
              else if SyntaxKind.eqb kind SyntaxKind.QuestionToken
                   then Z.lor 0 MappedModifier.optional else 0)
             = match kind with
               | SyntaxKind.QuestionToken => 1
               | SyntaxKind.MinusToken => 2
               | _ => 0
               end)
    by (intros []; reflexivity).
  assert (Hr : forall kind m,
             (m = 0 \/ m = 1 \/ m = 2) ->
             (if SyntaxKind.eqb kind SyntaxKind.MinusToken
              then Z.lor (if SyntaxKind.eqb kind SyntaxKind.ReadonlyKeyword
                          then Z.lor m MappedModifier.readonly else m)
                     MappedModifier.removeReadonly
              else if SyntaxKind.eqb kind SyntaxKind.ReadonlyKeyword
                   then Z.lor m MappedModifier.readonly else m)
             = m + match kind with
                   | SyntaxKind.ReadonlyKeyword => 4
                   | SyntaxKind.MinusToken => 8
                   | _ => 0
                   end)
    by (intros [] m [->|[->| ->]]; reflexivity).
  unfold mappedModifier. cbv zeta.
  destruct questionToken as [q|], readonlyToken as [r|].
  - rewrite Hq, Hr; [reflexivity|]. destruct q; auto.
  - rewrite Hq. lia.
  - rewrite Hr; auto.
  - reflexivity.
Qed.

(** ** Resolving an imported name *)

Section ResolutionFacts.
Import Resolution.
Variable getExternalModuleFileFromDeclaration : ImportOrExport -> option SourceFile.

Let resolve : nat -> string -> ImportOrExport -> Outcome (option Node) :=
  resolveImportSpecifier getExternalModuleFileFromDeclaration.

Lemma firstFound_found {A B : Type} (xs : list A)
    (f : A -> Outcome (option B)) (b : B) :
  firstFound xs f = Returned (Some b) ->
  exists x, In x xs /\ f x = Returned (Some b).
Proof.
  induction xs as [|x xs IH]; simpl; [discriminate|].
  destruct (f x) as [[found|]| |] eqn:E; try discriminate.
  - intros H. exists x. split; [now left|]. now rewrite E, H.
  - intros H. destruct (IH H) as (y & Hy & Hf). exists y. auto.
Qed.

(** The loop passes over a statement that does not mention the name. *)
Lemma unmentioned_is_passed (fuel : nat) (name : string)
    (statement : Statement) :
  mentions name statement = false ->
  match statement with
  | OtherStatement => Returned None
  | ExportDeclaration statement =>
      match exportClause statement with
      | Some (NamedExports elements) =>
          firstFound elements (fun element =>
            if String.eqb (exportedName element) name
            then resolve fuel
                   (match propertyName element with
                    | Some inner => inner
                    | None => name
                    end) statement
            else Returned None)
      | Some (NamespaceExport _) => Returned None
      | None => resolve fuel name statement
      end
  end = Returned None.
Proof.
  destruct statement as [e'|]; [|reflexivity]. cbn [mentions].
  destruct (exportClause e') as [[elements|ns]|]; try discriminate;
    [|reflexivity].
  induction elements as [|element elements IH]; [reflexivity|].
  cbn [List.existsb firstFound]. intros H.
  apply Bool.orb_false_iff in H. destruct H as [Hhere Hrest].
  rewrite Hhere. now apply IH.
Qed.

Lemma firstFound_skip {A B : Type} (before after : list A) (x : A)
    (f : A -> Outcome (option B)) :
  Forall (fun y => f y = Returned None) before ->
  firstFound (before ++ x :: after) f
  = match f x with
    | Returned None => firstFound after f
    | other => other
    end.
Proof.
  intros Hbefore. induction Hbefore as [|y before Hy _ IH]; simpl.
  - destruct (f x) as [[found|]| |]; reflexivity.
  - now rewrite Hy.
Qed.

(** X24. What [resolveImportSpecifier] returns is never made up: it is the
    first declaration of a local of a module that is reached from the
    import through re-exports. *)
Theorem resolveImportSpecifier_sound (fuel : nat) (name : string)
    (importOrExport : ImportOrExport) (declaration : Node) :
  resolve fuel name importOrExport = Returned (Some declaration) ->
  exists e,
    reaches getExternalModuleFileFromDeclaration importOrExport e
    /\ declares getExternalModuleFileFromDeclaration e declaration.
Proof.
  unfold resolve. revert name importOrExport.
  induction fuel as [|fuel IH]; intros name e H; simpl in H; [discriminate|].
  destruct (moduleSpecifier e) as [[text|]|]; try discriminate.
  destruct (getExternalModuleFileFromDeclaration e) as [source|] eqn:Esource;
    [|discriminate].
  destruct (findDeclarationInFile source name) as [found|] eqn:Efound.
  - inversion H; subst. exists e. split; [constructor|].
    exists source, name. auto.
  - apply firstFound_found in H. destruct H as (statement & Hin & H).
    destruct statement as [e'|]; [|discriminate].
    assert (Hre : reexports getExternalModuleFileFromDeclaration e e')
      by (exists source; auto).
    assert (Hthrough : forall name',
               resolveImportSpecifier getExternalModuleFileFromDeclaration
                 fuel name' e' = Returned (Some declaration) ->
               exists e'',
                 reaches getExternalModuleFileFromDeclaration e e''
                 /\ declares getExternalModuleFileFromDeclaration e''
                      declaration).
    { intros name' Hrec. destruct (IH _ _ Hrec) as (e'' & Hreach & Hdecl).
      exists e''. split; [|exact Hdecl].
      clear - Hreach Hre. induction Hreach as [|middle e3 _ IHr Hstep].
      - eapply reaches_through; [constructor|exact Hre].
      - eapply reaches_through; [exact IHr|exact Hstep]. }
    destruct (exportClause e') as [[elements|ns]|]; try discriminate.
    + apply firstFound_found in H. destruct H as (element & _ & H).
      destruct (String.eqb _ name); [|discriminate].
      eapply Hthrough; eauto.
    + eapply Hthrough; eauto.
Qed.

(** X25. A name that the module of the import declares, or that it passes
    on from another module that exports it, is found: after [k] re-exports,
    each one the first statement of its module that mentions the name
    ([export * from], or [export { inner as name } from], which continues
    the search under the name [inner]; the statements before it are no
    export declarations, or [export * as ns from], or
    [export { ... } from] without the name), the declaration is returned
    whenever the call stack has room for more than [k] calls. *)
Theorem resolveImportSpecifier_follows_reexports (name : string)
    (importOrExport : ImportOrExport) (k : nat) (declaration : Node) :
  exported getExternalModuleFileFromDeclaration name importOrExport k
    declaration ->
  forall room, (k < room)%nat ->
    resolve room name importOrExport = Returned (Some declaration).
Proof.
  unfold resolve.
  induction 1 as [name e text source declaration Hspec Hsource Hfound
                 |name e e' text source before after k declaration
                    Hspec Hsource Hfound Hstatements Hbefore Hclause _ IH
                 |name e e' text source before after elements others later
                    element k declaration Hspec Hsource Hfound Hstatements
                    Hbefore Hclause Helements Hothers Hname _ IH];
    intros [|fuel] Hfuel; try lia; simpl;
    rewrite Hspec, Hsource, Hfound; [reflexivity| |].
  - rewrite Hstatements, firstFound_skip.
    + rewrite Hclause, IH by lia. reflexivity.
    + eapply Forall_impl; [exact Hbefore|]. intros statement Hquiet.
      exact (unmentioned_is_passed fuel name statement Hquiet).
  - rewrite Hstatements, firstFound_skip.
    + rewrite Hclause, Helements, firstFound_skip.
      * rewrite Hname, String.eqb_refl, IH by lia. reflexivity.
      * eapply Forall_impl; [exact Hothers|]. intros other Hother. simpl.
        apply String.eqb_neq in Hother. now rewrite Hother.
    + eapply Forall_impl; [exact Hbefore|]. intros statement Hquiet.
      exact (unmentioned_is_passed fuel name statement Hquiet).
Qed.

(** X26. On modules that re-export each other with [export * from] and do
    not declare the name, [resolveImportSpecifier] never returns: the
    search goes round the cycle, one call inside the other, until the call
    stack is exhausted, and the call ends with the [RangeError] of the
    engine, whatever room the stack has. *)
Theorem resolveImportSpecifier_overflows_on_cycle (name : string)
    (loop : ImportOrExport -> Prop) (importOrExport : ImportOrExport) :
  onCycle getExternalModuleFileFromDeclaration name loop ->
  loop importOrExport ->
  forall room, resolve room name importOrExport = Thrown stackOverflow.
Proof.
  unfold resolve. intros Hcycle Hloop room. revert importOrExport Hloop.
  induction room as [|room IH]; intros e Hloop; simpl; [reflexivity|].
  destruct (Hcycle e Hloop)
    as (text & source & before & e' & after & Hspec & Hsource & Hfound
        & Hstatements & Hbefore & Hclause & Hloop').
  rewrite Hspec, Hsource, Hfound, Hstatements, firstFound_skip.
  - rewrite Hclause, (IH e' Hloop'). reflexivity.
  - eapply Forall_impl; [exact Hbefore|]. intros statement Hquiet.
    exact (unmentioned_is_passed room name statement Hquiet).
Qed.

End ResolutionFacts.

Lemma resolveImportSpecifier_sound_witness :
  exists e,
    Resolution.reaches WorkedModules.moduleOf WorkedModules.importFromA e
    /\ Resolution.declares WorkedModules.moduleOf e
         WorkedModules.declarationOfT.
Proof.
  apply (resolveImportSpecifier_sound WorkedModules.moduleOf 2 "T"
           WorkedModules.importFromA WorkedModules.declarationOfT).
  vm_compute. reflexivity.
Defined.

Lemma resolveImportSpecifier_follows_reexports_witness :
  Resolution.resolveImportSpecifier WorkedModules.moduleOf 2 "T"
    WorkedModules.importFromA
  = Returned (Some WorkedModules.declarationOfT).
Proof.
  apply (resolveImportSpecifier_follows_reexports WorkedModules.moduleOf "T"
           WorkedModules.importFromA 1 WorkedModules.declarationOfT).
  - apply (Resolution.exported_star WorkedModules.moduleOf "T"
             WorkedModules.importFromA WorkedModules.starFromB "./a"
             WorkedModules.fileA
             [Resolution.OtherStatement;
              Resolution.ExportDeclaration WorkedModules.namespaceFromB;
              Resolution.ExportDeclaration WorkedModules.namedFromB]
             [] 0 WorkedModules.declarationOfT).
    + reflexivity.
    + reflexivity.
    + reflexivity.
    + reflexivity.
    + repeat constructor.
    + reflexivity.
    + apply (Resolution.exported_here WorkedModules.moduleOf "T"
               WorkedModules.starFromB "./b" WorkedModules.fileB
               WorkedModules.declarationOfT); reflexivity.
  - lia.
Defined.

Lemma resolveImportSpecifier_overflows_on_cycle_witness :
  Resolution.resolveImportSpecifier WorkedModules.moduleOf 7 "T"
    WorkedModules.starFromC
  = Thrown Resolution.stackOverflow.
Proof.
  apply (resolveImportSpecifier_overflows_on_cycle WorkedModules.moduleOf "T"
           (fun e => e = WorkedModules.starFromC
                     \/ e = WorkedModules.starFromD)).
  - intros e [->| ->].
    + exists "./c"%string, WorkedModules.fileC, [], WorkedModules.starFromD, [].
      repeat split; try reflexivity; auto.
    + exists "./d"%string, WorkedModules.fileD, [], WorkedModules.starFromC, [].
      repeat split; try reflexivity; auto.
  - now left.
Defined.

(** ** What a walk does to the transformer *)

Section TransformerFacts.
Variable getNameAsString : option PropertyName -> string.
Variable getPropertyName : option PropertyName -> StackEntry.
Variable hasModifier : list SyntaxKind.t -> SyntaxKind.t -> bool.
Variable extractJSDocAttribute : Node -> string -> string.
Variable resolveDeclaration : Node -> option Resolved.
Variable getJSDocTags : Node -> list (list JSDocTag).
Variable tsConfigs : list TsConfigProbe.
Variable TypeNumberBrand_integer : Z.
Variable TypeNumberBrand_int8 : Z.
Variable TypeNumberBrand_int16 : Z.

Let walk : nat -> Node -> W unit :=
  extractPackStructOfType getNameAsString getPropertyName hasModifier
    extractJSDocAttribute resolveDeclaration getJSDocTags tsConfigs
    TypeNumberBrand_integer TypeNumberBrand_int8 TypeNumberBrand_int16.

Let Q (w w' : WalkState) : Prop := growsOnly (this w) (this w').

Lemma growsOnly_refl (t : ReflectionTransformer.t) : growsOnly t t.
Proof. repeat split; auto. Qed.

Lemma growsOnly_trans (a b c : ReflectionTransformer.t) :
  growsOnly a b -> growsOnly b c -> growsOnly a c.
Proof.
  intros (H1 & H2 & H3 & H4 & H5) (G1 & G2 & G3 & G4 & G5).
  repeat split; try congruence; auto. set_solver.
Qed.

Lemma growsOnly_onProgram {A : Type} (m : M CompilerProgram.t A) :
  within Q True (onProgram m).
Proof.
  intros [t p]. unfold onProgram. cbn [program this].
  destruct (m p) as [[a p']| |]; try exact I. apply growsOnly_refl.
Qed.

Lemma is_Some_insert (queue : gmap Z EntityName) (key i : Z)
    (name : EntityName) :
  is_Some (queue !! i) -> is_Some (<[key := name]> queue !! i).
Proof.
  intros H. destruct (decide (key = i)) as [->|Hne].
  - rewrite lookup_insert_eq. eauto.
  - now rewrite lookup_insert_ne.
Qed.

Lemma growsOnly_infer (name : string) : within Q True (extractInferType name).
Proof.
  assert (Hrefl : forall w, Q w w) by (intros w; apply growsOnly_refl).
  assert (Htrans : forall a b c, Q a b -> Q b c -> Q a c)
    by (intros a b c; apply growsOnly_trans).
  unfold extractInferType.
  apply (within_bind Q True Htrans); [apply growsOnly_onProgram|].
  intros [frame|]; [|apply growsOnly_onProgram].
  apply (within_bind Q True Htrans); [apply growsOnly_onProgram|].
  intros variable. apply (within_bind Q True Htrans).
  - destruct variable as [variable|]; [apply (within_ret Q True Hrefl)|].
    apply (within_bind Q True Htrans); [apply growsOnly_onProgram|].
    intros _. apply (within_bind Q True Htrans); [apply growsOnly_onProgram|].
    intros [v|]; [apply (within_ret Q True Hrefl)|].
    intros w. exact I.
  - intros v. apply growsOnly_onProgram.
Qed.

(** X27. Of the transformer, a walk changes the two hoist queues and the
    set of imports to keep, and only by adding to them: the source file
    and the reflection mode are as before, every declaration that was in a
    queue is still in it, and every import that was marked is still
    marked. *)
Theorem walker_only_adds_to_transformer (fuel : nat) (node : Node)
    (w w' : WalkState) :
  walk fuel node w = Returned (tt, w') ->
  ReflectionTransformer.sourceFile (this w')
  = ReflectionTransformer.sourceFile (this w)
  /\ ReflectionTransformer.reflectionMode (this w')
     = ReflectionTransformer.reflectionMode (this w)
  /\ (forall i,
        is_Some (ReflectionTransformer.compileDeclarations (this w) !! i) ->
        is_Some (ReflectionTransformer.compileDeclarations (this w') !! i))
  /\ (forall i,
        is_Some (ReflectionTransformer.embedDeclarations (this w) !! i) ->
        is_Some (ReflectionTransformer.embedDeclarations (this w') !! i))
  /\ ReflectionTransformer.synthesized (this w)
     ⊆ ReflectionTransformer.synthesized (this w').
Proof.
  intros H.
  assert (Hrefl : forall w, Q w w) by (intros ?; apply growsOnly_refl).
  assert (Htrans : forall a b c, Q a b -> Q b c -> Q a c)
    by (intros a b c; apply growsOnly_trans).
  assert (Hwalk : within Q True (walk fuel node)).
  { apply within_walk; try exact Hrefl; try exact Htrans;
      try (intros; apply growsOnly_onProgram).
    - intros body rest Hbody Hrest.
      apply (within_bind Q True Htrans); [apply growsOnly_onProgram|].
      intros _. apply (within_bind Q True Htrans); [exact Hbody|].
      intros _. apply (within_bind Q True Htrans);
        [apply growsOnly_onProgram|exact Hrest].
    - apply growsOnly_infer.
    - intros key name [t p]. unfold Q, growsOnly. cbn.
      repeat split; auto. intros i. apply is_Some_insert.
    - intros key name [t p]. unfold Q, growsOnly. cbn.
      repeat split; auto. intros i. apply is_Some_insert.
    - intros spec [t p]. unfold Q, growsOnly. cbn.
      repeat split; auto. set_solver. }
  specialize (Hwalk w). unfold walk in H, Hwalk. rewrite H in Hwalk.
  exact Hwalk.
Qed.

Let mode : ReflectionTransformer.t -> Node -> string :=
  findReflectionConfig getJSDocTags tsConfigs.

Let typeOf : nat -> Node -> T (option Node) :=
  getTypeOfType getNameAsString getPropertyName hasModifier
    extractJSDocAttribute resolveDeclaration getJSDocTags tsConfigs
    TypeNumberBrand_integer TypeNumberBrand_int8 TypeNumberBrand_int16.

(** X28. Some types have no program at all, so that [getTypeOfType] is
    [undefined] for them although their mode is not ['never']: a union
    without members, a type operator other than [keyof] ([readonly T[]],
    [unique symbol]), whose operand is not walked either, and a property
    without a type annotation.  A call [typeOf<T>()] with such a [T] is
    returned as it is. *)
Theorem types_without_program (fuel : nat) (t : ReflectionTransformer.t)
    (node call : Node) (id : Z) (others arguments : list Node) :
  mode t node <> "never"%string ->
  node = UnionType []
  \/ (exists operator operand,
         node = TypeOperator operator operand
         /\ operator <> SyntaxKind.KeyOfKeyword)
  \/ (exists pid name questionToken modifiers,
         node = PropertySignature pid name questionToken modifiers None)
  \/ (exists pid name questionToken modifiers initializer,
         node = PropertyDeclaration pid name questionToken modifiers None
                  initializer) ->
  typeOf (S fuel) node t = Returned (None, t)
  /\ decorateCall getNameAsString getPropertyName hasModifier
       extractJSDocAttribute resolveDeclaration getJSDocTags tsConfigs
       TypeNumberBrand_integer TypeNumberBrand_int8 TypeNumberBrand_int16
       (S fuel) call (Name (Identifier id "typeOf")) (node :: others)
       arguments t
     = Returned (call, t).
Proof.
  intros Hmode Hnode.
  assert (Htype : typeOf (S fuel) node t = Returned (None, t)).
  { unfold typeOf, getTypeOfType. apply String.eqb_neq in Hmode.
    unfold mode in Hmode. rewrite Hmode. unfold compileType.
    unfold bind at 1. unfold ret at 1.
    destruct Hnode as [->|[(operator & operand & -> & Hop)
                          |[(pid & name & q & mods & ->)
                           |(pid & name & q & mods & init & ->)]]];
      cbn [extractPackStructOfType]; try reflexivity.
    unfold SyntaxKind.eqb. rewrite bool_decide_eq_false_2 by exact Hop.
    reflexivity. }
  split; [exact Htype|].
  unfold decorateCall.
  change (List.existsb (String.eqb "typeOf") autoTypeFunctions) with true.
  cbv beta iota zeta. fold typeOf. unfold bind. now rewrite Htype.
Qed.

End TransformerFacts.

Lemma walker_only_adds_to_transformer_witness :
  ReflectionTransformer.sourceFile (this Worked.afterFunction)
  = ReflectionTransformer.sourceFile Sample.transformer
  /\ ReflectionTransformer.reflectionMode (this Worked.afterFunction)
     = ReflectionTransformer.reflectionMode Sample.transformer.
Proof.
  destruct (walker_only_adds_to_transformer Sample.getNameAsString
              Sample.getPropertyName Sample.hasModifier
              Sample.extractJSDocAttribute Sample.unresolved Sample.noTags []
              0 1 2 10 Sample.functionWithUnion
              (mkWalk Sample.transformer CompilerProgram.new)
              Worked.afterFunction) as (H1 & H2 & _).
  - vm_compute. reflexivity.
  - split; [exact H1|exact H2].
Defined.

Lemma types_without_program_witness :
  getTypeOfType Sample.getNameAsString Sample.getPropertyName
    Sample.hasModifier Sample.extractJSDocAttribute Sample.unresolved
    Sample.noTags [] 0 1 2 1
    (TypeOperator SyntaxKind.ReadonlyKeyword
       (ArrayType (Token SyntaxKind.StringKeyword)))
    Sample.transformer
  = Returned (None, Sample.transformer).
Proof.
  apply (types_without_program Sample.getNameAsString Sample.getPropertyName
           Sample.hasModifier Sample.extractJSDocAttribute Sample.unresolved
           Sample.noTags [] 0 1 2 O Sample.transformer
           (TypeOperator SyntaxKind.ReadonlyKeyword
              (ArrayType (Token SyntaxKind.StringKeyword)))
           (Token SyntaxKind.NullKeyword) 0 [] []).
  - vm_compute. congruence.
  - right. left. do 2 eexists. split; [reflexivity|discriminate].
Defined.

(** ** Calls and the hoisting loop *)

Section CallAndLoopFacts.
Variable getNameAsString : option PropertyName -> string.
Variable getPropertyName : option PropertyName -> StackEntry.
Variable hasModifier : list SyntaxKind.t -> SyntaxKind.t -> bool.
Variable extractJSDocAttribute : Node -> string -> string.
Variable resolveDeclaration : Node -> option Resolved.
Variable getJSDocTags : Node -> list (list JSDocTag).
Variable tsConfigs : list TsConfigProbe.
Variable TypeNumberBrand_integer : Z.
Variable TypeNumberBrand_int8 : Z.
Variable TypeNumberBrand_int16 : Z.

Let inject :=
  injectReceiveTypes getNameAsString getPropertyName hasModifier
    extractJSDocAttribute resolveDeclaration getJSDocTags tsConfigs
    TypeNumberBrand_integer TypeNumberBrand_int8 TypeNumberBrand_int16.

Let pass : nat -> nat -> Node -> T (list Node) :=
  compileDeclarationsVisitor getNameAsString getPropertyName hasModifier
    extractJSDocAttribute resolveDeclaration getJSDocTags tsConfigs
    TypeNumberBrand_integer TypeNumberBrand_int8 TypeNumberBrand_int16.

Let loop : nat -> nat -> nat -> T unit :=
  hoistLoop getNameAsString getPropertyName hasModifier
    extractJSDocAttribute resolveDeclaration getJSDocTags tsConfigs
    TypeNumberBrand_integer TypeNumberBrand_int8 TypeNumberBrand_int16.

(** The loop over the parameters leaves an argument for every parameter. *)
Lemma injectReceiveTypes_length (fuel : nat)
    (typeParameters : list TypeParameterDeclaration)
    (callTypeArguments : list Node) (parameters : list ParameterDeclaration)
    (i : nat) (args args' : list Node) (replaced replaced' : bool)
    (t t' : ReflectionTransformer.t) :
  (i <= List.length args)%nat ->
  inject fuel typeParameters callTypeArguments parameters i args replaced t
  = Returned (Some (args', replaced'), t') ->
  List.length args'
  = Nat.max (List.length args) (i + List.length parameters).
Proof.
  unfold inject. revert i args replaced t.
  induction parameters as [|[pname q pm type init] parameters IH];
    intros i args replaced t Hi H; cbn [injectReceiveTypes] in H.
  - inversion H; subst. simpl. lia.
  - set (args1 := match List.nth_error args i with
                  | Some _ => args
                  | None => args ++ [identifier "undefined"]
                  end) in H.
    assert (Hlen : List.length args1 = Nat.max (List.length args) (S i)
                   /\ (S i <= List.length args1)%nat).
    { unfold args1. destruct (List.nth_error args i) eqn:E.
      - assert (i < List.length args)%nat
          by (apply List.nth_error_Some; congruence).
        lia.
      - apply List.nth_error_None in E. rewrite List.length_app. simpl. lia. }
    destruct Hlen as [Hlen Hnext]. cbn [List.length].
    assert (Hrest : forall args2 replaced2 t2,
               List.length args2 = List.length args1 ->
               injectReceiveTypes getNameAsString getPropertyName hasModifier
                 extractJSDocAttribute resolveDeclaration getJSDocTags
                 tsConfigs TypeNumberBrand_integer TypeNumberBrand_int8
                 TypeNumberBrand_int16 fuel typeParameters callTypeArguments
                 parameters (S i) args2 replaced2 t2
               = Returned (Some (args', replaced'), t') ->
               List.length args'
               = Nat.max (List.length args) (i + S (List.length parameters))).
    { intros args2 replaced2 t2 Hsame Hrun.
      assert (Hi2 : (S i <= List.length args2)%nat) by lia.
      rewrite (IH (S i) args2 replaced2 t2 Hi2 Hrun). lia. }
    destruct (receiveTypeName type) as [name|]; [|eapply Hrest; eauto].
    destruct (findIndexFrom typeParameters name 0) as [index|];
      [|eapply Hrest; eauto].
    destruct (List.nth_error callTypeArguments index) as [typeArgument|];
      [|discriminate].
    destruct (bind_returned _ _ _ _ _ H) as (encoded & t1 & _ & H2).
    destruct encoded as [encoded|]; [|discriminate].
    eapply (Hrest (<[i := encoded]> args1)); [|exact H2].
    apply length_insert.
Qed.

(** X29. When a call with type arguments to a generic function declaration
    is rewritten, every parameter of the function has an argument: the
    call comes back as it was, or with as many arguments as the larger of
    the number it had and the number of parameters of the function, the
    missing ones being filled in. *)
Theorem generic_call_is_padded (fuel : nat) (node expression : Node)
    (typeArguments arguments : list Node) (id : Z)
    (name : option PropertyName) (modifiers : list SyntaxKind.t)
    (typeParameters : list TypeParameterDeclaration)
    (parameters : list ParameterDeclaration) (type : option Node)
    (body : list Node) (importSpecifier : option Z)
    (t t' : ReflectionTransformer.t) (result : Node) :
  isAutoTypeFunction expression = false ->
  resolveDeclaration expression
  = Some (mkResolved
            (FunctionLikeDeclaration SyntaxKind.FunctionDeclaration id name
               modifiers (Some typeParameters) parameters type body)
            importSpecifier) ->
  decorateCall getNameAsString getPropertyName hasModifier
    extractJSDocAttribute resolveDeclaration getJSDocTags tsConfigs
    TypeNumberBrand_integer TypeNumberBrand_int8 TypeNumberBrand_int16
    fuel node expression typeArguments arguments t = Returned (result, t') ->
  result = node
  \/ exists args,
       result = CallExpression expression (Some typeArguments) args
       /\ List.length args
          = Nat.max (List.length arguments) (List.length parameters).
Proof.
  intros Hauto Hresolved H. unfold decorateCall in H.
  unfold isAutoTypeFunction in Hauto. rewrite Hauto, Hresolved in H.
  destruct (bind_returned _ _ _ _ _ H) as (outcome & t1 & H1 & H2).
  destruct outcome as [[args [|]]|]; inversion H2; subst; auto.
  right. exists args. split; [reflexivity|].
  assert (Hzero : (0 <= List.length arguments)%nat) by lia.
  exact (injectReceiveTypes_length _ _ _ _ _ _ _ _ _ _ _ Hzero H1).
Qed.

(** The hoisting visitor returns a tree without queued declarations as it
    is, and leaves the transformer alone. *)
Lemma pass_noneQueued (fuel depth : nat) (t : ReflectionTransformer.t)
    (tree : Node) :
  noneQueued (ReflectionTransformer.compileDeclarations t) depth tree = true ->
  pass fuel depth tree t = Returned ([tree], t).
Proof.
  revert tree. induction depth as [|depth IH]; intros tree Hnone;
    [discriminate|].
  cbn [noneQueued] in Hnone.
  apply andb_prop in Hnone. destruct Hnone as [Hnone Hsingle].
  apply andb_prop in Hnone. destruct Hnone as [Hhere Harray].
  assert (Hlist : forall nodes,
             List.forallb
               (noneQueued (ReflectionTransformer.compileDeclarations t) depth)
               nodes = true ->
             forall n, In n nodes -> pass fuel depth n t = Returned ([n], t)).
  { intros nodes Hall n Hn. apply IH.
    rewrite List.forallb_forall in Hall. now apply Hall. }
  assert (Hchildren : visitEachChild (pass fuel depth) tree t
                      = Returned (tree, t)).
  { destruct tree; cbn [nodeArray singleChildren] in Harray, Hsingle;
      cbn [visitEachChild]; try reflexivity.
    - now rewrite (bind_eq _ _ _ _ _
                     (visitNodes_unchanged _ _ _ (Hlist _ Harray))).
    - assert (Hinit : visitOptional (pass fuel depth) initializer t
                      = Returned (initializer, t)).
      { apply visitOptional_unchanged. intros n ->.
        apply (Hlist _ Hsingle). now left. }
      now rewrite (bind_eq _ _ _ _ _ Hinit).
    - rewrite (bind_eq _ _ _ _ _
                 (visitParameters_unchanged _ _ _ (Hlist _ Hsingle))).
      now rewrite (bind_eq _ _ _ _ _
                     (visitNodes_unchanged _ _ _ (Hlist _ Harray))).
    - assert (Hcallee : visitNode (pass fuel depth) tree t
                        = Returned (tree, t)).
      { unfold visitNode.
        now rewrite (bind_eq _ _ _ _ _
                       (Hlist _ Hsingle tree (or_introl eq_refl))). }
      rewrite (bind_eq _ _ _ _ _ Hcallee).
      now rewrite (bind_eq _ _ _ _ _
                     (visitNodes_unchanged _ _ _ (Hlist _ Harray))).
    - now rewrite (bind_eq _ _ _ _ _
                     (visitNodes_unchanged _ _ _ (Hlist _ Harray))). }
  unfold pass. cbn [compileDeclarationsVisitor]. fold (pass fuel depth).
  rewrite (bind_eq _ _ _ _ _ Hchildren). unfold bind at 1. unfold get at 1.
  destruct (ReflectionTransformer.compileDeclarations t !! identityOf tree)
    as [d|] eqn:E; [|reflexivity].
  destruct (isTypeAliasDeclaration tree || isInterfaceDeclaration tree);
    [|reflexivity].
  rewrite bool_decide_eq_true_2 in Hhere by eauto.
  discriminate Hhere.
Qed.

(** X30. A declaration that is in the compile-local queue but is no
    declaration of the source file (the resolver found it elsewhere, and
    not through an import binding) keeps the hoisting loop from ending:
    each pass returns the file as it is and takes nothing out of the
    queue. *)
Theorem hoisting_loops_on_foreign_declaration (fuel depth : nat)
    (t : ReflectionTransformer.t) :
  ReflectionTransformer.compileDeclarations t <> ∅ ->
  noneQueued (ReflectionTransformer.compileDeclarations t) depth
    (ReflectionTransformer.sourceFile t) = true ->
  forall loops, loop fuel depth loops t = OutOfFuel.
Proof.
  intros Hqueue Hnone loops. unfold loop.
  induction loops as [|loops IH]; cbn [hoistLoop]; unfold bind at 1;
    unfold get at 1;
    rewrite bool_decide_eq_false_2 by exact Hqueue; [reflexivity|].
  fold (pass fuel depth).
  assert (Hpass : visitNode (pass fuel depth) (ReflectionTransformer.sourceFile t) t
                  = Returned (ReflectionTransformer.sourceFile t, t)).
  { unfold visitNode.
    now rewrite (bind_eq _ _ _ _ _ (pass_noneQueued _ _ _ _ Hnone)). }
  rewrite (bind_eq _ _ _ _ _ Hpass). unfold bind at 1. unfold modify at 1.
  replace (ReflectionTransformer.set_sourceFile t
             (ReflectionTransformer.sourceFile t)) with t
    by (now destruct t).
  exact IH.
Qed.

End CallAndLoopFacts.

Lemma hoisting_loops_on_foreign_declaration_witness :
  Sample.hoisting Sample.unresolved 10 10 3
    (ReflectionTransformer.mk Sample.recursiveFile (Some "default"%string)
       {[ 99 := Identifier 98 "Partial" ]} ∅ ∅)
  = OutOfFuel.
Proof.
  apply (hoisting_loops_on_foreign_declaration Sample.getNameAsString
           Sample.getPropertyName Sample.hasModifier
           Sample.extractJSDocAttribute Sample.unresolved Sample.noTags []
           0 1 2 10 10
           (ReflectionTransformer.mk Sample.recursiveFile
              (Some "default"%string) {[ 99 := Identifier 98 "Partial" ]}
              ∅ ∅)).
  - vm_compute. congruence.
  - vm_compute. reflexivity.
Defined.

Lemma generic_call_is_padded_witness :
  fst WorkedCalls.decorated = WorkedCalls.call
  \/ exists args,
       fst WorkedCalls.decorated
       = CallExpression WorkedCalls.callee
           (Some [Token SyntaxKind.StringKeyword]) args
       /\ List.length args = Nat.max (List.length (@nil Node)) 2.
Proof.
  apply (generic_call_is_padded Sample.getNameAsString Sample.getPropertyName
           Sample.hasModifier Sample.extractJSDocAttribute
           WorkedCalls.resolver Sample.noTags [] 0 1 2 10 WorkedCalls.call
           WorkedCalls.callee [Token SyntaxKind.StringKeyword] [] 60
           (Some (PnIdentifier "g")) [] [mkTypeParameter "T" None]
           [Sample.parameter "a" (Token SyntaxKind.StringKeyword);
            mkParameter (BindingIdentifier "type") true []
              (Some (TypeReference (Identifier 61 "ReceiveType")
                       (Some [TypeReference (Identifier 62 "T") None])))
              None]
           None [] None Sample.transformer (snd WorkedCalls.decorated)).
  - reflexivity.
  - reflexivity.
  - vm_compute. reflexivity.
Defined.
